(** * Commune indicator pipelines: a verified model

    The repository is a family of pandas scripts (final.py, eau.py,
    eau_merge.py, population_merge.py, am.py, mysql_database.py) that
    standardise commune codes, encode water conformity, aggregate per
    commune and left-join the aggregates onto a geometry table.

    The development has three layers:
    - [cell], [Series], [DataFrame]: the values and tables the scripts
      manipulate, with the pandas operations the scripts call
      ([astype_str], [str_zfill], [apply], [groupby_mean], [merge],
      [dropna], [concat]);
    - one module per script, whose functions follow the methods of the
      script line by line;
    - the properties of the pipelines.

    Numbers: a float64 value is modelled by the rational it denotes, so
    sums and means are exact; rounding of float64 arithmetic is not
    modelled.  Exceptions are modelled by the [result] type. *)

From Stdlib Require Import ZArith QArith Rbase Rfunctions R_sqrt Qreals Lra.
From Stdlib Require Import String Ascii DecimalString.
From Stdlib Require Lqa.
From stdpp Require Import gmap strings list fin_maps.

Open Scope string_scope.
Open Scope list_scope.
Open Scope nat_scope.

(** ** Exceptions *)

Inductive error : Type :=
  | KeyError        (* a column label that the frame does not have *)
  | ValueError      (* merge on keys of incompatible dtypes, empty concat *)
  | TypeError       (* mean of a column of strings, [None] used as a table *)
  | AttributeError  (* a method called on a field that is still None *)
  | DatabaseError.  (* a statement that the SQL engine rejects *)

Inductive result (A : Type) : Type :=
  | Ok (a : A)
  | Raise (e : error).
Arguments Ok {A} a.
Arguments Raise {A} e.

#[global] Instance result_bind : MBind result := fun A B f m =>
  match m with
  | Ok a => f a
  | Raise e => Raise e
  end.
#[global] Instance result_ret : MRet result := fun A a => Ok a.

Definition is_Ok {A} (m : result A) : Prop := ∃ a, m = Ok a.

(** ** Cells *)

(** A cell of a table as pandas holds it after reading a file: a missing
    value, an integer, a float or a string. *)
Inductive cell : Type :=
  | NaN
  | Int (z : Z)
  | Num (q : Q)
  | Str (s : string).

(** The textual form of a float ([repr]) is a function of the Python
    runtime; it is a parameter of the model. *)
Class FloatRepr := float_repr : Q → string.

Definition str_of_Z (z : Z) : string := NilZero.string_of_int (Z.to_int z).

(** Python's [str(x)] on the objects a column can hold. *)
Definition py_str `{FloatRepr} (c : cell) : string :=
  match c with
  | NaN => "nan"
  | Int z => str_of_Z z
  | Num q => float_repr q
  | Str s => s
  end.

Fixpoint zeros (n : nat) : string :=
  match n with
  | O => ""
  | S n => String "0" (zeros n)
  end.

Definition is_sign (a : ascii) : bool :=
  (Ascii.eqb a "+" || Ascii.eqb a "-")%bool.

(** Python's [str.zfill(width)], which [Series.str.zfill] applies to each
    element: the string is returned as it is when it is long enough;
    otherwise zeros are added on the left, after a leading sign. *)
Definition zfill (width : nat) (s : string) : string :=
  let n := String.length s in
  if (width <=? n)%nat then s
  else
    let fill := (width - n)%nat in
    match s with
    | String a rest =>
        if is_sign a then String a (zeros fill +:+ rest) else zeros fill +:+ s
    | EmptyString => zeros fill
    end.

(** ** Series *)

Definition Series := list cell.

(** [Series.astype(str)] *)
Definition astype_str `{FloatRepr} (s : Series) : Series :=
  map (fun c => Str (py_str c)) s.

(** [Series.str.zfill(width)]: elements that are not strings become
    missing. *)
Definition str_zfill (width : nat) (s : Series) : Series :=
  map (fun c => match c with Str x => Str (zfill width x) | _ => NaN end) s.

(** [Series.apply(f)] *)
Definition apply (f : cell → cell) (s : Series) : Series := map f s.

(** The Key Normalizer: what [.astype(str).str.zfill(5)] does to one
    element. *)
Definition normalize `{FloatRepr} (c : cell) : string := zfill 5 (py_str c).

(** ** Data frames *)

(** A frame is the ordered list of its column labels and its rows; a row
    maps a label to a cell.  Only the entries of a row at the labels of
    the frame are part of the frame. *)
Record DataFrame : Type := mkDF {
  columns : list string;
  rows : list (gmap string cell)
}.

Definition len (df : DataFrame) : nat := length (rows df).

Definition cell_at (r : gmap string cell) (c : string) : cell :=
  default NaN (r !! c).

Definition has_column (df : DataFrame) (c : string) : bool :=
  bool_decide (c ∈ columns df).

(** [df[c]] *)
Definition get_col (c : string) (df : DataFrame) : result Series :=
  if has_column df c then Ok (map (fun r => cell_at r c) (rows df))
  else Raise KeyError.

(** [df[c] = s] *)
Definition set_col (c : string) (s : Series) (df : DataFrame)
  : result DataFrame :=
  if (length s =? len df)%nat then
    Ok {| columns := if has_column df c then columns df
                     else columns df ++ [c];
          rows := zip_with (fun r v => <[c := v]> r) (rows df) s |}
  else Raise ValueError.

(** The row that holds a missing value at every label of [cols]. *)
Definition nan_row (cols : list string) : gmap string cell :=
  list_to_map (map (fun c => (c, NaN)) cols).

(** The entries of [r] at the labels [cols], relabelled by [f]. *)
Definition project (f : string → string) (cols : list string)
  (r : gmap string cell) : gmap string cell :=
  list_to_map (map (fun c => (f c, cell_at r c)) cols).

(** [df[cols]] *)
Definition select (cols : list string) (df : DataFrame) : result DataFrame :=
  if forallb (has_column df) cols then
    Ok {| columns := cols; rows := map (project id cols) (rows df) |}
  else Raise KeyError.

(** [df.rename(columns={a: b})]; a label that the frame does not have is
    ignored.  The scripts rename to a label that the frame does not have
    yet. *)
Definition rename (a b : string) (df : DataFrame) : DataFrame :=
  let f := fun c => if String.eqb c a then b else c in
  {| columns := map f (columns df);
     rows := map (project f (columns df)) (rows df) |}.

(** ** Keys *)

Definition num_val (c : cell) : option Q :=
  match c with
  | Int z => Some (inject_Z z)
  | Num q => Some q
  | _ => None
  end.

(** Equality of two keys as the hash tables of pandas see it: strings by
    their characters, numbers by their value, and a missing key equal to a
    missing key. *)
Definition key_eqb (a b : cell) : bool :=
  match a, b with
  | NaN, NaN => true
  | Str s, Str t => String.eqb s t
  | _, _ =>
      match num_val a, num_val b with
      | Some p, Some q => Qeq_bool p q
      | _, _ => false
      end
  end.

(** Python's [a == b] on cells: a missing value (a float nan) is equal to
    nothing, not even to itself. *)
Definition py_eq (a b : cell) : bool :=
  match a, b with
  | Str s, Str t => String.eqb s t
  | _, _ =>
      match num_val a, num_val b with
      | Some p, Some q => Qeq_bool p q
      | _, _ => false
      end
  end.

Definition is_nan (c : cell) : bool :=
  match c with NaN => true | _ => false end.
Definition is_str (c : cell) : bool :=
  match c with Str _ => true | _ => false end.
Definition is_int (c : cell) : bool :=
  match c with Int _ => true | _ => false end.

(** A key column has a numeric dtype when it holds no string. *)
Definition numeric_dtype (s : Series) : bool := forallb (fun c => negb (is_str c)) s.

(** An object column that pandas infers as string-like: it holds a string
    and no integer. *)
Definition string_like (s : Series) : bool :=
  (existsb is_str s && negb (existsb is_int s))%bool.

(** The check of [merge] on the dtypes of the two key columns: a
    string-like column does not merge with a numeric one.  The check is
    skipped when a side is empty. *)
Definition merge_keys_ok (lk rk : Series) : bool :=
  match lk, rk with
  | [], _ | _, [] => true
  | _, _ =>
      negb ((string_like lk && numeric_dtype rk)
            || (numeric_dtype lk && string_like rk))
  end.

(** ** concat *)

(** The labels of a list in order of first appearance. *)
Definition first_appearance (l : list string) : list string :=
  reverse (remove_dups (reverse l)).

(** A column of the result has the dtype float64 when it holds no
    string and a value that is no integer, a float or a missing
    value: then its integers are stored as floats. *)
Definition float_column (s : Series) : bool :=
  forallb (fun c => negb (is_str c)) s && negb (forallb is_int s).

Definition to_float (c : cell) : cell :=
  match c with
  | Int z => Num (inject_Z z)
  | _ => c
  end.

Definition upcast (cols : list string) (rws : list (gmap string cell))
  : list (gmap string cell) :=
  let floats :=
    filter (fun c => float_column (map (fun r => cell_at r c) rws)) cols in
  map (fun r => foldr (fun c r' => <[c := to_float (cell_at r c)]> r') r floats)
      rws.

(** [pd.concat(frames, ignore_index=True)]: the rows of the frames one
    after the other; the labels are the union of the labels in order of
    first appearance, and a row is missing at the labels its frame does
    not have.  A column of integers that receives a missing value or a
    float becomes a column of floats. *)
Definition concat (frames : list DataFrame) : result DataFrame :=
  match frames with
  | [] => Raise ValueError
  | _ =>
      let cols := first_appearance (mjoin (map columns frames)) in
      Ok {| columns := cols;
            rows := upcast cols
                      (mjoin (map (fun df =>
                         map (fun r => project id (columns df) r ∪ nan_row cols)
                             (rows df)) frames)) |}
  end.

(** ** merge *)

Definition suffix (overlap : list string) (sfx : string) (c : string) : string :=
  if bool_decide (c ∈ overlap) then c +:+ sfx else c.

(** [left.merge(right, left_on=lon, right_on=ron, how="left")].  With
    [lon = ron] this is [on=lon] and the key is kept once.  A left row
    gives one row per right row with an equal key, in the order of the
    right frame, and one row missing at the right labels when there is
    none.  Labels that both frames have get the suffixes [_x] and [_y]. *)
Definition right_labels (right : DataFrame) (lon ron : string) : list string :=
  if String.eqb lon ron then filter (fun c => c ≠ ron) (columns right)
  else columns right.

Definition overlap (left right : DataFrame) (lon ron : string) : list string :=
  if String.eqb lon ron
  then filter (fun c => c ∈ right_labels right lon ron)
              (filter (fun c => c ≠ lon) (columns left))
  else filter (fun c => c ∈ right_labels right lon ron) (columns left).

(** The right rows whose key equals the key of the left row [l]. *)
Definition matches (right : DataFrame) (lon ron : string)
  (l : gmap string cell) : list (gmap string cell) :=
  filter (fun r => key_eqb (cell_at l lon) (cell_at r ron)) (rows right).

(** The rows that the left row [l] gives in the result. *)
Definition merge_row (left right : DataFrame) (lon ron : string)
  (l : gmap string cell) : list (gmap string cell) :=
  let ov := overlap left right lon ron in
  let rcols := right_labels right lon ron in
  let l' := project (suffix ov "_x") (columns left) l in
  match matches right lon ron l with
  | [] => [l' ∪ nan_row (map (suffix ov "_y") rcols)]
  | ms => map (fun r => l' ∪ project (suffix ov "_y") rcols r) ms
  end.

Definition merge_labels (left right : DataFrame) (lon ron : string)
  : list string :=
  let ov := overlap left right lon ron in
  map (suffix ov "_x") (columns left)
  ++ map (suffix ov "_y") (right_labels right lon ron).

Definition merge (left right : DataFrame) (lon ron : string)
  : result DataFrame :=
  lk ← get_col lon left;
  rk ← get_col ron right;
  if negb (merge_keys_ok lk rk) then Raise ValueError else
  if negb (bool_decide (NoDup (merge_labels left right lon ron)))
  then Raise ValueError else
  Ok {| columns := merge_labels left right lon ron;
        rows := mjoin (map (merge_row left right lon ron) (rows left)) |}.

(** ** groupby and mean *)

(** The rows of a frame split by key, the groups in order of first
    appearance and the rows of a group in the order of the frame. *)
Fixpoint add_to_group (k : cell) (r : gmap string cell)
  (gs : list (cell * list (gmap string cell)))
  : list (cell * list (gmap string cell)) :=
  match gs with
  | [] => [(k, [r])]
  | (k', rs) :: gs' =>
      if key_eqb k' k then (k', rs ++ [r]) :: gs'
      else (k', rs) :: add_to_group k r gs'
  end.

(** Rows with a missing key belong to no group ([dropna=True]). *)
Definition group_step (key : string)
  (gs : list (cell * list (gmap string cell))) (r : gmap string cell) :=
  let k := cell_at r key in
  if is_nan k then gs else add_to_group k r gs.

Definition group_rows (key : string) (rws : list (gmap string cell))
  : list (cell * list (gmap string cell)) :=
  fold_left (group_step key) rws [].

(** The order of the group keys in the result ([sort=True]): numbers by
    value before strings by their characters. *)
Definition key_leb (a b : cell) : bool :=
  match a, b with
  | Str s, Str t => String.leb s t
  | Str _, _ => false
  | _, Str _ => true
  | _, _ =>
      match num_val a, num_val b with
      | Some p, Some q => Qle_bool p q
      | _, _ => true
      end
  end.

Fixpoint insert_group {A} (g : cell * A) (gs : list (cell * A))
  : list (cell * A) :=
  match gs with
  | [] => [g]
  | h :: t => if key_leb g.1 h.1 then g :: h :: t else h :: insert_group g t
  end.

Definition sort_groups {A} (gs : list (cell * A)) : list (cell * A) :=
  foldr insert_group [] gs.

(** One pass of the mean over a column: the sum and the number of the
    values that are present.  A string cannot be averaged. *)
Definition mean_step (acc : result (Q * nat)) (c : cell) : result (Q * nat) :=
  a ← acc;
  match c with
  | NaN => Ok a
  | Int z => Ok (a.1 + inject_Z z, S a.2)%Q
  | Num q => Ok (a.1 + q, S a.2)%Q
  | Str _ => Raise TypeError
  end.

(** [Series.mean()] with [skipna=True]: missing when no value is
    present. *)
Definition mean (s : Series) : result cell :=
  a ← fold_left mean_step s (Ok (0%Q, 0%nat));
  Ok (match a.2 with
      | O => NaN
      | S _ => Num (Qred (a.1 / inject_Z (Z.of_nat a.2)))
      end).

Fixpoint mapR {A B} (f : A → result B) (l : list A) : result (list B) :=
  match l with
  | [] => Ok []
  | x :: l => y ← f x; ys ← mapR f l; Ok (y :: ys)
  end.

Definition mean_row (key : string) (vals : list string)
  (g : cell * list (gmap string cell)) : result (gmap string cell) :=
  ms ← mapR (fun v => m ← mean (map (fun r => cell_at r v) g.2); Ok (v, m)) vals;
  Ok (<[key := g.1]> (list_to_map ms)).

(** [df.groupby(key)[vals].mean().reset_index()], which is also
    [df.groupby(key).agg({v: "mean", ...}).reset_index()]: one row per
    key, sorted by key, holding the key and the mean of each column of
    [vals] over the rows of the key. *)
Definition groupby_mean (key : string) (vals : list string) (df : DataFrame)
  : result DataFrame :=
  if negb (has_column df key && forallb (has_column df) vals
           && negb (bool_decide (key ∈ vals)))
  then Raise KeyError else
  rws ← mapR (mean_row key vals) (sort_groups (group_rows key (rows df)));
  Ok {| columns := key :: vals; rows := rws |}.

(** ** to_numeric *)

Definition digit_val (a : ascii) : option Z :=
  let n := nat_of_ascii a in
  if ((48 <=? n) && (n <=? 57))%nat then Some (Z.of_nat (n - 48)) else None.

(** The leading decimal digits of [s]: their value on top of [acc], their
    number on top of [cnt], and the rest of the string. *)
Fixpoint read_digits (s : string) (acc : Z) (cnt : nat) : Z * nat * string :=
  match s with
  | String a rest =>
      match digit_val a with
      | Some d => read_digits rest (10 * acc + d) (S cnt)
      | None => (acc, cnt, s)
      end
  | EmptyString => (acc, cnt, s)
  end.

Definition is_space (a : ascii) : bool :=
  let n := nat_of_ascii a in ((n =? 32) || ((9 <=? n) && (n <=? 13)))%nat.

Fixpoint skip_spaces (s : string) : string :=
  match s with
  | String a rest => if is_space a then skip_spaces rest else s
  | EmptyString => s
  end.

Definition read_sign (s : string) : Z * string :=
  match s with
  | String a rest =>
      if Ascii.eqb a "-" then ((-1)%Z, rest)
      else if Ascii.eqb a "+" then (1%Z, rest)
      else (1%Z, s)
  | EmptyString => (1%Z, s)
  end.

Definition pow10 (e : Z) : Q :=
  if (0 <=? e)%Z then inject_Z (10 ^ e) else / inject_Z (10 ^ (- e)).

(** The optional exponent of a decimal number and the rest of the
    string; [None] when an exponent mark is followed by no digit. *)
Definition read_exponent (s : string) : option (Z * string) :=
  match s with
  | String a rest =>
      if (Ascii.eqb a "e" || Ascii.eqb a "E")%bool then
        let '(sg, rest) := read_sign rest in
        let '(e, n, rest) := read_digits rest 0 0 in
        match n with O => None | S _ => Some ((sg * e)%Z, rest) end
      else Some (0%Z, s)
  | EmptyString => Some (0%Z, s)
  end.

(** The number that a string denotes for [pd.to_numeric]: blanks, a sign,
    digits with an optional fraction, an optional exponent, blanks.  The
    tokens that pandas reads as an infinite float have no cell in this
    model. *)
Definition parse_number (s : string) : option Q :=
  let '(sg, s) := read_sign (skip_spaces s) in
  let '(ip, n1, s) := read_digits s 0 0 in
  let '(fp, n2, s) :=
    match s with
    | String a rest =>
        if Ascii.eqb a "." then read_digits rest ip 0 else (ip, 0%nat, s)
    | EmptyString => (ip, 0%nat, s)
    end in
  match (n1 + n2)%nat with
  | O => None
  | S _ =>
      match read_exponent s with
      | None => None
      | Some (e, s) =>
          match skip_spaces s with
          | EmptyString =>
              Some (Qred (inject_Z (sg * fp) * pow10 (e - Z.of_nat n2)))
          | String _ _ => None
          end
      end
  end.

(** [pd.to_numeric(s, errors="coerce")]: numbers stay, a string becomes
    the number it denotes, and a string that denotes none becomes
    missing. *)
Definition to_numeric (s : Series) : Series :=
  map (fun c => match c with
                | Str x => match parse_number x with
                           | Some q => Num q
                           | None => NaN
                           end
                | _ => c
                end) s.

(** ** dropna and corr *)

Definition complete (cols : list string) (r : gmap string cell) : bool :=
  forallb (fun c => negb (is_nan (cell_at r c))) cols.

(** [df.dropna()]: the rows with no missing value in any column. *)
Definition dropna (df : DataFrame) : DataFrame :=
  {| columns := columns df;
     rows := filter (fun r => complete (columns df) r) (rows df) |}.

(** The observations of a pair of columns: the rows where both are
    present.  A string is no observation. *)
Definition observation (a b : string) (r : gmap string cell)
  : result (option (Q * Q)) :=
  match cell_at r a, cell_at r b with
  | Str _, _ | _, Str _ => Raise ValueError
  | x, y =>
      Ok (match num_val x, num_val y with
          | Some p, Some q => Some (p, q)
          | _, _ => None
          end)
  end.

Definition observations (a b : string) (df : DataFrame)
  : result (list (Q * Q)) :=
  os ← mapR (observation a b) (rows df);
  Ok (omap (fun o : option (Q * Q) => o) (os : list (option (Q * Q)))).

Definition Qsum (l : list Q) : Q := foldr Qplus 0%Q l.

Definition Qmean (l : list Q) : Q := (Qsum l / inject_Z (Z.of_nat (length l)))%Q.

(** The sum of the products of the deviations from the means. *)
Definition codeviation (ps : list (Q * Q)) : Q :=
  let mx := Qmean (map fst ps) in
  let my := Qmean (map snd ps) in
  Qsum (map (fun p => (p.1 - mx) * (p.2 - my))%Q ps).

(** Pearson's coefficient of a list of observations; undefined (a float
    nan, here [None]) when there is no observation or when a column has
    no variance.  The square root is that of the real numbers. *)
Definition pearson (ps : list (Q * Q)) : option R :=
  let vx := codeviation (map (fun p => (p.1, p.1)) ps) in
  let vy := codeviation (map (fun p => (p.2, p.2)) ps) in
  match ps with
  | [] => None
  | _ =>
      if Qeq_bool (vx * vy) 0 then None
      else Some (Q2R (codeviation ps) / sqrt (Q2R (vx * vy)))%R
  end.

Definition corr_entry (df : DataFrame) (a b : string) : result (option R) :=
  ps ← observations a b df;
  Ok (pearson ps).

(** [df.corr()]: the matrix of the coefficients of every pair of columns,
    in the order of the labels. *)
Definition corr (df : DataFrame) : result (list (list (option R))) :=
  mapR (fun a => mapR (corr_entry df a) (columns df)) (columns df).

(** * The scripts *)

(** A field of the object on which a method or an attribute is
    called: [AttributeError] when it is still [None]. *)
Definition field {A} (o : option A) : result A :=
  match o with
  | Some a => Ok a
  | None => Raise AttributeError
  end.

(** A field of the object that is subscripted, or passed to [merge] as
    the right table: [TypeError] when it is still [None]. *)
Definition item {A} (o : option A) : result A :=
  match o with
  | Some a => Ok a
  | None => Raise TypeError
  end.

(** The Conformity Encoder: [lambda x: 1 if x == "C" else 0]. *)
Definition encode (x : cell) : cell :=
  if py_eq x (Str "C") then Int 1 else Int 0.

(** The statements that the scripts repeat. *)
Section statements.
Context `{FloatRepr}.

(** [df[c] = df[c].astype(str).str.zfill(5)] *)
Definition standardize (c : string) (df : DataFrame) : result DataFrame :=
  k ← get_col c df;
  set_col c (str_zfill 5 (astype_str k)) df.

(** [df[dst] = df[src].apply(lambda x: 1 if x == "C" else 0)] *)
Definition encode_column (src dst : string) (df : DataFrame)
  : result DataFrame :=
  b ← get_col src df;
  set_col dst (apply encode b) df.

(** [clean_water_data] of final.py, eau_merge.py and
    population_merge.py, and the same three statements of
    [load_water_data] in mysql_database.py. *)
Definition clean_water (w : DataFrame) : result DataFrame :=
  w ← standardize "inseecommune" w;
  w ← encode_column "plvconformitebacterio" "bacterio_conformity" w;
  encode_column "plvconformitechimique" "chemical_conformity" w.

(** [df[c] = pd.to_numeric(df[c], errors="coerce")] *)
Definition coerce_column (c : string) (df : DataFrame) : result DataFrame :=
  b ← get_col c df;
  set_col c (to_numeric b) df.

End statements.

(** The aggregation of the water table that every [merge_data] starts
    with. *)
Definition water_aggregate (w : DataFrame) : result DataFrame :=
  groupby_mean "inseecommune" ["bacterio_conformity"; "chemical_conformity"] w.

(** ** final.py (and the second class of population_merge.py, which has
    the same methods) *)

Module Final.

(** The object of the script.  A path stands for the table that the
    reader returns for it. *)
Record DataProcessor : Type := mk {
  water_files : list DataFrame;
  geojson_path : DataFrame;
  rent_files : list DataFrame;
  pop_file : option DataFrame;
  geo_data : option DataFrame;
  water_data : option DataFrame;
  pop_data : option DataFrame;
  rent_data : option DataFrame
}.

Definition init (water_files : list DataFrame) (geojson_path : DataFrame)
  (rent_files : list DataFrame) (pop_file : option DataFrame) : DataProcessor :=
  {| water_files := water_files; geojson_path := geojson_path;
     rent_files := rent_files; pop_file := pop_file;
     geo_data := None; water_data := None; pop_data := None;
     rent_data := None |}.

Definition set_geo_data (self : DataProcessor) (df : DataFrame) :=
  mk (water_files self) (geojson_path self) (rent_files self) (pop_file self)
     (Some df) (water_data self) (pop_data self) (rent_data self).
Definition set_water_data (self : DataProcessor) (df : DataFrame) :=
  mk (water_files self) (geojson_path self) (rent_files self) (pop_file self)
     (geo_data self) (Some df) (pop_data self) (rent_data self).
Definition set_pop_data (self : DataProcessor) (df : DataFrame) :=
  mk (water_files self) (geojson_path self) (rent_files self) (pop_file self)
     (geo_data self) (water_data self) (Some df) (rent_data self).
Definition set_rent_data (self : DataProcessor) (df : DataFrame) :=
  mk (water_files self) (geojson_path self) (rent_files self) (pop_file self)
     (geo_data self) (water_data self) (pop_data self) (Some df).

Section methods.
Context `{FloatRepr}.

Definition load_water_data (self : DataProcessor) : result DataProcessor :=
  df ← concat (water_files self);
  Ok (set_water_data self df).

Definition clean_water_data (self : DataProcessor) : result DataProcessor :=
  w ← item (water_data self);
  w ← clean_water w;
  Ok (set_water_data self w).

Definition load_geo_data (self : DataProcessor) : result DataProcessor :=
  g ← standardize "codgeo" (geojson_path self);
  Ok (set_geo_data self g).

(** The rent key [INSEE_C] is grouped as it was read. *)
Definition load_rent_data (self : DataProcessor) : result DataProcessor :=
  concatenated ← concat (rent_files self);
  r ← groupby_mean "INSEE_C" ["loypredm2"] concatenated;
  Ok (set_rent_data self (rename "loypredm2" "mean_loypredm2" r)).

Definition load_population_data (self : DataProcessor) : result DataProcessor :=
  match pop_file self with
  | None => Ok self
  | Some p =>
      p ← standardize "codgeo" p;
      Ok (set_pop_data self p)
  end.

Definition merge_data (self : DataProcessor) : result DataProcessor :=
  w ← field (water_data self);
  water_agg ← water_aggregate w;
  g ← field (geo_data self);
  g ← merge g water_agg "codgeo" "inseecommune";
  r ← item (rent_data self);
  g ← merge g r "codgeo" "INSEE_C";
  match pop_data self with
  | None => Ok (set_geo_data self g)
  | Some p =>
      p ← select ["codgeo"; "p21_pop"] p;
      g ← merge g p "codgeo" "codgeo";
      Ok (set_geo_data self g)
  end.

Definition correlation_columns (self : DataProcessor) (g : DataFrame)
  : list string :=
  ["bacterio_conformity"; "chemical_conformity"; "mean_loypredm2"]
  ++ match pop_data self with
     | Some _ => if has_column g "p21_pop" then ["p21_pop"] else []
     | None => []
     end.

(** [analysis_data] in [plot_correlation_heatmap] *)
Definition analysis_data (self : DataProcessor) : result DataFrame :=
  g ← match pop_data self with
      | Some _ => field (geo_data self)
      | None => item (geo_data self)
      end;
  d ← select (correlation_columns self g) g;
  Ok (dropna d).

(** [correlation_matrix] in [plot_correlation_heatmap]; the figure
    itself is the sink. *)
Definition plot_correlation_heatmap (self : DataProcessor)
  : result (list (list (option R))) :=
  d ← analysis_data self;
  corr d.

(** The calls of the main block up to the merge. *)
Definition main (self : DataProcessor) : result DataProcessor :=
  self ← load_water_data self;
  self ← clean_water_data self;
  self ← load_geo_data self;
  self ← load_rent_data self;
  self ← load_population_data self;
  merge_data self.

End methods.
End Final.

(** ** eau_merge.py *)

Module EauMerge.

Record DataProcessor : Type := mk {
  water_files : list DataFrame;
  geojson_path : DataFrame;
  rent_data : DataFrame;
  geo_data : option DataFrame;
  water_data : option DataFrame
}.

Definition init (water_files : list DataFrame) (geojson_path rent_data : DataFrame)
  : DataProcessor :=
  mk water_files geojson_path rent_data None None.

Definition set_geo_data (self : DataProcessor) (df : DataFrame) :=
  mk (water_files self) (geojson_path self) (rent_data self)
     (Some df) (water_data self).
Definition set_water_data (self : DataProcessor) (df : DataFrame) :=
  mk (water_files self) (geojson_path self) (rent_data self)
     (geo_data self) (Some df).

Section methods.
Context `{FloatRepr}.

Definition load_water_data (self : DataProcessor) : result DataProcessor :=
  df ← concat (water_files self);
  Ok (set_water_data self df).

Definition clean_water_data (self : DataProcessor) : result DataProcessor :=
  w ← item (water_data self);
  w ← clean_water w;
  Ok (set_water_data self w).

Definition load_geo_data (self : DataProcessor) : result DataProcessor :=
  g ← standardize "codgeo" (geojson_path self);
  Ok (set_geo_data self g).

(** The rent key [INSEE_C] is grouped as it was read. *)
Definition merge_data (self : DataProcessor) : result DataProcessor :=
  w ← field (water_data self);
  water_agg ← water_aggregate w;
  g ← field (geo_data self);
  g ← merge g water_agg "codgeo" "inseecommune";
  rent_agg ← groupby_mean "INSEE_C" ["loypredm2"] (rent_data self);
  g ← merge g rent_agg "codgeo" "INSEE_C";
  Ok (set_geo_data self g).

(** The calls of the main block up to the merge. *)
Definition main (self : DataProcessor) : result DataProcessor :=
  self ← load_water_data self;
  self ← clean_water_data self;
  self ← load_geo_data self;
  merge_data self.

Definition analysis_data (self : DataProcessor) : result DataFrame :=
  g ← item (geo_data self);
  d ← select ["bacterio_conformity"; "chemical_conformity"; "loypredm2"] g;
  Ok (dropna d).

Definition analyze_correlation (self : DataProcessor)
  : result (list (list (option R))) :=
  d ← analysis_data self;
  corr d.

End methods.
End EauMerge.

(** ** population_merge.py, first class *)

Module PopulationMerge.

Record DataProcessor : Type := mk {
  water_files : list DataFrame;
  geojson_path : DataFrame;
  rent_data : DataFrame;
  pop_file : option DataFrame;
  geo_data : option DataFrame;
  water_data : option DataFrame;
  pop_data : option DataFrame
}.

Definition init (water_files : list DataFrame) (geojson_path rent_data : DataFrame)
  (pop_file : option DataFrame) : DataProcessor :=
  mk water_files geojson_path rent_data pop_file None None None.

Definition set_geo_data (self : DataProcessor) (df : DataFrame) :=
  mk (water_files self) (geojson_path self) (rent_data self) (pop_file self)
     (Some df) (water_data self) (pop_data self).
Definition set_water_data (self : DataProcessor) (df : DataFrame) :=
  mk (water_files self) (geojson_path self) (rent_data self) (pop_file self)
     (geo_data self) (Some df) (pop_data self).
Definition set_pop_data (self : DataProcessor) (df : DataFrame) :=
  mk (water_files self) (geojson_path self) (rent_data self) (pop_file self)
     (geo_data self) (water_data self) (Some df).

Section methods.
Context `{FloatRepr}.

Definition load_water_data (self : DataProcessor) : result DataProcessor :=
  df ← concat (water_files self);
  Ok (set_water_data self df).

Definition clean_water_data (self : DataProcessor) : result DataProcessor :=
  w ← item (water_data self);
  w ← clean_water w;
  Ok (set_water_data self w).

Definition load_geo_data (self : DataProcessor) : result DataProcessor :=
  g ← standardize "codgeo" (geojson_path self);
  Ok (set_geo_data self g).

Definition load_population_data (self : DataProcessor) : result DataProcessor :=
  match pop_file self with
  | None => Ok self
  | Some p =>
      p ← standardize "codgeo" p;
      Ok (set_pop_data self p)
  end.

(** The rent key [INSEE_C] is grouped as it was read. *)
Definition merge_data (self : DataProcessor) : result DataProcessor :=
  w ← field (water_data self);
  water_agg ← water_aggregate w;
  g ← field (geo_data self);
  g ← merge g water_agg "codgeo" "inseecommune";
  rent_agg ← groupby_mean "INSEE_C" ["loypredm2"] (rent_data self);
  g ← merge g rent_agg "codgeo" "INSEE_C";
  match pop_data self with
  | None => Ok (set_geo_data self g)
  | Some p =>
      p ← select ["codgeo"; "p21_pop"] p;
      g ← merge g p "codgeo" "codgeo";
      Ok (set_geo_data self g)
  end.

Definition analysis_data (self : DataProcessor) : result DataFrame :=
  g ← match pop_data self with
      | Some _ => field (geo_data self)
      | None => item (geo_data self)
      end;
  d ← select (["bacterio_conformity"; "chemical_conformity"; "loypredm2"]
              ++ match pop_data self with
                 | Some _ => if has_column g "p21_pop" then ["p21_pop"] else []
                 | None => []
                 end) g;
  Ok (dropna d).

Definition analyze_correlation (self : DataProcessor)
  : result (list (list (option R))) :=
  d ← analysis_data self;
  corr d.

End methods.
End PopulationMerge.

(** ** am.py *)

Module Am.

Record RentDataProcessor : Type := mk {
  geojson_path : DataFrame;
  rent_files : list DataFrame;
  geo_data : option DataFrame;
  rent_data : option DataFrame;
  merged_data : option DataFrame
}.

Definition init (geojson_path : DataFrame) (rent_files : list DataFrame)
  : RentDataProcessor :=
  mk geojson_path rent_files None None None.

Section methods.
Context `{FloatRepr}.

Definition load_rent_data (self : RentDataProcessor) : result DataFrame :=
  concat (rent_files self).

Definition load_geo_data (self : RentDataProcessor) : result DataFrame :=
  standardize "codgeo" (geojson_path self).

(** Here the rent key is standardised before it is grouped. *)
Definition preprocess_data (self : RentDataProcessor)
  : result RentDataProcessor :=
  g ← load_geo_data self;
  r ← load_rent_data self;
  r ← standardize "INSEE_C" r;
  rent_avg ← groupby_mean "INSEE_C" ["loypredm2"] r;
  m ← merge g rent_avg "codgeo" "INSEE_C";
  Ok (mk (geojson_path self) (rent_files self) (Some g) (Some r) (Some m)).

End methods.
End Am.

(** ** eau.py *)

Module Eau.

Record WaterQualityProcessor : Type := mk {
  files : list DataFrame;
  data : option DataFrame
}.

Definition init (files : list DataFrame) : WaterQualityProcessor :=
  mk files None.

Section methods.
Context `{FloatRepr}.

Definition load_files (self : WaterQualityProcessor)
  : result WaterQualityProcessor :=
  df ← concat (files self);
  Ok (mk (files self) (Some df)).

(** The conformity codes are not encoded here: they are converted to
    numbers, and a code that is no number becomes missing. *)
Definition clean_data (self : WaterQualityProcessor)
  : result WaterQualityProcessor :=
  d ← item (data self);
  d ← standardize "inseecommune" d;
  d ← coerce_column "plvconformitebacterio" d;
  d ← coerce_column "plvconformitechimique" d;
  Ok (mk (files self) (Some d)).

Definition aggregate_by_commune (self : WaterQualityProcessor)
  : result DataFrame :=
  d ← field (data self);
  agg ← groupby_mean "inseecommune"
          ["plvconformitebacterio"; "plvconformitechimique"] d;
  Ok (rename "plvconformitechimique" "chemical_conformity"
        (rename "plvconformitebacterio" "bacterio_conformity" agg)).

(** The geometry table is merged as it was read. *)
Definition merge_with_geo_data (self : WaterQualityProcessor)
  (geo_data : DataFrame) : result DataFrame :=
  water_data ← aggregate_by_commune self;
  merge geo_data water_data "codgeo" "inseecommune".

End methods.
End Eau.

(** ** mysql_database.py *)

(** What the engine stores in a [DECIMAL(p, s)] column for an exact
    value depends on the engine; it is a parameter, indexed by the scale
    [s]. *)
Class SqlEngine := decimal : nat → Q → Q.

Module MySQL.

(** A row of the table [merged_data] (the counter [id] is left out). *)
Record merged_row : Type := mk_row {
  insee_commune : string;
  bacterio_conformity : option Q;
  chemical_conformity : option Q;
  mean_loypredm2 : option Q
}.

(** The tables of the database; [None] for a table that does not
    exist.  [water_data] and [rent_data] hold what [to_sql] wrote. *)
Record Database : Type := mk {
  commune : option (list string);
  water_data : option DataFrame;
  rent_data : option DataFrame;
  merged_data : option (list merged_row)
}.

Definition table {A} (o : option A) : result A :=
  match o with
  | Some a => Ok a
  | None => Raise DatabaseError
  end.

(** [CREATE TABLE IF NOT EXISTS] for the four tables. *)
Definition create_schema (db : Database) : Database :=
  mk (Some (default [] (commune db)))
     (Some (default (mkDF ["id"; "inseecommune"; "plvconformitebacterio";
                           "plvconformitechimique"; "bacterio_conformity";
                           "chemical_conformity"] []) (water_data db)))
     (Some (default (mkDF ["id"; "insee_c"; "loypredm2"; "mean_loypredm2"] [])
                    (rent_data db)))
     (Some (default [] (merged_data db))).

(** A code fits the column [CHAR(5)]. *)
Definition fits_char5 (s : string) : bool := (String.length s <=? 5)%nat.

(** Appends the codes to the registry; the primary key refuses a code
    twice. *)
Definition populate_commune_stub (db : Database) (codgeos : list string)
  : result Database :=
  reg ← table (commune db);
  if forallb fits_char5 codgeos && bool_decide (NoDup (reg ++ codgeos))
  then Ok (mk (Some (reg ++ codgeos)) (water_data db) (rent_data db)
              (merged_data db))
  else Raise DatabaseError.

Section methods.
Context `{FloatRepr} `{SqlEngine}.

Definition load_rent_data (db : Database) (rent_files : list DataFrame)
  : result Database :=
  combined_data ← concat rent_files;
  combined_data ← standardize "INSEE_C" combined_data;
  rent_avg ← groupby_mean "INSEE_C" ["loypredm2"] combined_data;
  let rent_avg := rename "loypredm2" "mean_loypredm2"
                    (rename "INSEE_C" "insee_c" rent_avg) in
  Ok (mk (commune db) (water_data db) (Some rent_avg) (merged_data db)).

Definition load_water_data (db : Database) (water_files : list DataFrame)
  : result Database :=
  water_df ← concat water_files;
  water_df ← clean_water water_df;
  Ok (mk (commune db) (Some water_df) (rent_data db) (merged_data db)).

(** The text of a cell in a key column; [None] is [NULL]. *)
Definition sql_text (c : cell) : option string :=
  match c with
  | Str s => Some s
  | _ => None
  end.

(** [AVG(c)] over rows: the mean of the values that are not [NULL], and
    [NULL] when there is none.  The aggregated columns are the integer
    columns that [to_sql] made of the encoded conformity. *)
Definition sql_avg (c : string) (rws : list (gmap string cell)) : option Q :=
  let present := omap (fun r => num_val (cell_at r c)) rws in
  match present with
  | [] => None
  | _ => Some (Qred (Qsum present / inject_Z (Z.of_nat (length present))))
  end.

(** [SELECT inseecommune, AVG(bacterio_conformity),
    AVG(chemical_conformity) FROM water_data GROUP BY inseecommune]: one
    row per distinct code, codes compared character by character. *)
Definition select_water_averages (w : DataFrame)
  : list (option string * option Q * option Q) :=
  let key := fun r => sql_text (cell_at r "inseecommune") in
  map (fun k =>
         let grp := filter (fun r => key r = k) (rows w) in
         (k, sql_avg "bacterio_conformity" grp,
             sql_avg "chemical_conformity" grp))
      (remove_dups (map key (rows w))).

(** [INSERT INTO merged_data (insee_commune, bacterio_conformity,
    chemical_conformity)] of one selected row: the code is [NOT NULL], is
    at most five characters and refers to the registry; the averages are
    stored as [DECIMAL(4,3)]. *)
Definition insert_merged (reg : list string)
  (v : option string * option Q * option Q) : result merged_row :=
  match v.1.1 with
  | Some k =>
      if fits_char5 k && bool_decide (k ∈ reg)
      then Ok (mk_row k (decimal 3 <$> v.1.2) (decimal 3 <$> v.2) None)
      else Raise DatabaseError
  | None => Raise DatabaseError
  end.

(** [UPDATE merged_data m JOIN rent_data r ON m.insee_commune = r.insee_c
    SET m.mean_loypredm2 = r.mean_loypredm2] on one row; the mean is
    stored as [DECIMAL(10,2)]. *)
Definition update_rent (r : DataFrame) (m : merged_row) : merged_row :=
  match filter (fun x => sql_text (cell_at x "insee_c") = Some (insee_commune m))
               (rows r) with
  | x :: _ =>
      mk_row (insee_commune m) (bacterio_conformity m) (chemical_conformity m)
             (decimal 2 <$> num_val (cell_at x "mean_loypredm2"))
  | [] => m
  end.

Definition has_columns (df : DataFrame) (cols : list string) : result unit :=
  if forallb (has_column df) cols then Ok () else Raise DatabaseError.

Definition preprocess_and_merge_data (db : Database) : result Database :=
  _ ← table (merged_data db);
  reg ← table (commune db);
  w ← table (water_data db);
  _ ← has_columns w ["inseecommune"; "bacterio_conformity"; "chemical_conformity"];
  merged ← mapR (insert_merged reg) (select_water_averages w);
  r ← table (rent_data db);
  _ ← has_columns r ["insee_c"; "mean_loypredm2"];
  Ok (mk (commune db) (water_data db) (rent_data db)
         (Some (map (update_rent r) merged))).

End methods.
End MySQL.

(** The database after [create_schema] on a server without the
    database. *)
Definition empty_database : MySQL.Database :=
  MySQL.create_schema (MySQL.mk None None None None).

(** The calls of the main block of mysql_database.py up to the merge,
    the registry receiving [codes]. *)
Definition sql_main `{FloatRepr} `{SqlEngine} (codes : list string)
  (rent_files water_files : list DataFrame) : result MySQL.Database :=
  db ← MySQL.populate_commune_stub empty_database codes;
  db ← MySQL.load_rent_data db rent_files;
  db ← MySQL.load_water_data db water_files;
  MySQL.preprocess_and_merge_data db.

(** * Notions of the statements *)

(** ** Keys and groups *)

Definition unsigned (s : string) : Prop :=
  match s with
  | String a _ => is_sign a = false
  | EmptyString => True
  end.

(** The keys of a list are pairwise different: a key finds at most one
    of them. *)
Definition distinct_keys (ks : list cell) : Prop :=
  ∀ q, (length (filter (fun k => key_eqb q k) ks) ≤ 1)%nat.

(** The rows of a table have pairwise different keys. *)
Definition unique_keys (key : string) (rws : list (gmap string cell)) : Prop :=
  distinct_keys (map (fun r => cell_at r key) rws).

(** A key column read as an object column of strings, with possibly
    missing keys: no number among the keys. *)
Definition text_keys (key : string) (df : DataFrame) : Prop :=
  Forall (fun r => is_str (cell_at r key) = true ∨ cell_at r key = NaN) (rows df).

(** The rows of a table that have the key [k]. *)
Definition rows_of_key (key : string) (k : cell)
  (rws : list (gmap string cell)) : list (gmap string cell) :=
  filter (fun r => key_eqb k (cell_at r key)) rws.

(** [g] is the group of its key among the rows [rws]. *)
Definition group_of (key : string) (rws : list (gmap string cell))
  (g : cell * list (gmap string cell)) : Prop :=
  is_nan g.1 = false ∧ g.2 ≠ [] ∧ g.2 = rows_of_key key g.1 rws.

(** Every row of [rws] with a key has its key among [ks]. *)
Definition covers (key : string) (rws : list (gmap string cell))
  (ks : list cell) : Prop :=
  ∀ r, r ∈ rws → is_nan (cell_at r key) = false →
       ∃ k, k ∈ ks ∧ key_eqb k (cell_at r key) = true.

(** ** The mean of the specification *)

(** The values of a column that are present. *)
Definition present (s : Series) : list Q := omap num_val s.

(** The arithmetic mean of the values that are present, and missing
    when none is. *)
Definition mean_of_present (s : Series) : cell :=
  match present s with
  | [] => NaN
  | _ :: _ =>
      Num (Qred (Qsum (present s) / inject_Z (Z.of_nat (length (present s)))))
  end.

(** ** Merged rows *)

(** Two lists of labels have no label in common. *)
Definition disjoint_labels (a b : list string) : Prop := ∀ c, c ∈ a → c ∉ b.

(** What a left row receives from the right table when the labels of the
    two tables are different: the first right row with its key, or a
    missing value at every right label. *)
Definition right_part (right : DataFrame) (lon ron : string)
  (l : gmap string cell) : gmap string cell :=
  match matches right lon ron l with
  | [] => nan_row (columns right)
  | r :: _ => project id (columns right) r
  end.

(** The labels that [merge_data] of final.py adds to the geometry
    table. *)
Definition water_labels : list string :=
  ["inseecommune"; "bacterio_conformity"; "chemical_conformity"].
Definition rent_labels : list string := ["INSEE_C"; "mean_loypredm2"].
Definition indicator_labels : list string := water_labels ++ rent_labels.

(** The labels that [merge_data] of eau_merge.py adds to the geometry
    table. *)
Definition eau_merge_labels : list string :=
  water_labels ++ ["INSEE_C"; "loypredm2"].

(** The geometry table with its key standardised, as [load_geo_data]
    leaves it. *)
Definition standardized `{FloatRepr} (c : string) (df : DataFrame) : DataFrame :=
  {| columns := columns df;
     rows := map (fun r => <[c := Str (normalize (cell_at r c))]> r) (rows df) |}.

(** The raw water records of a commune: the rows of the water table as
    it was read whose code standardises to [code]. *)
Definition water_records `{FloatRepr} (code : string) (w0 : DataFrame)
  : list (gmap string cell) :=
  filter (fun x => normalize (cell_at x "inseecommune") = code) (rows w0).

(** The codes of the rows of [merged_data]. *)
Definition merged_codes (merged : list MySQL.merged_row) : list string :=
  map MySQL.insee_commune merged.

(** ** Correlation matrices *)

(** The entry of a matrix at row [i] and column [j]. *)
Definition entry {A} (m : list (list A)) (i j : nat) : option A :=
  match m !! i with
  | Some row => row !! j
  | None => None
  end.

Definition swap (p : Q * Q) : Q * Q := (p.2, p.1).

(** The number that a cell holds. *)
Definition value (r : gmap string cell) (c : string) : Q :=
  default 0%Q (num_val (cell_at r c)).

(** The values of two columns of a table, row by row, over all its
    rows. *)
Definition pairs (a b : string) (df : DataFrame) : list (Q * Q) :=
  map (fun r => (value r a, value r b)) (rows df).

(** The sum of the squared deviations of a column from its mean, over
    the rows where it is present: the variance up to the number of
    rows. *)
Definition deviation_sum (df : DataFrame) (c : string) : result Q :=
  ps ← observations c c df;
  Ok (codeviation ps).

(** * Tables of the examples *)

(** The frame with the labels [cols] and the rows [rws], each row given
    by its cells in the order of the labels. *)
Definition frame (cols : list string) (rws : list (list cell)) : DataFrame :=
  {| columns := cols;
     rows := map (fun r => list_to_map (zip cols r)) rws |}.

(** The cells of a frame, row by row, in the order of its labels. *)
Definition cells (df : DataFrame) : list (list cell) :=
  map (fun r => map (cell_at r) (columns df)) (rows df).

(** The indicator cells of the merged table of a run of final.py. *)
Definition indicators (self : Final.DataProcessor) : result (list (list cell)) :=
  g ← field (Final.geo_data self);
  d ← select ["codgeo"; "bacterio_conformity"; "chemical_conformity";
              "mean_loypredm2"] g;
  Ok (cells d).

(** The value of a result, and a default when it is an error. *)
Definition final_state (self : Final.DataProcessor)
  (m : result Final.DataProcessor) : Final.DataProcessor :=
  match m with
  | Ok s => s
  | Raise _ => self
  end.

Definition frame_of (m : result DataFrame) : DataFrame :=
  match m with
  | Ok d => d
  | Raise _ => mkDF [] []
  end.

Definition database_of (m : result MySQL.Database) : MySQL.Database :=
  match m with
  | Ok db => db
  | Raise _ => empty_database
  end.

Definition matrix_of (m : result (list (list (option R))))
  : list (list (option R)) :=
  match m with
  | Ok x => x
  | Raise _ => []
  end.

(** Floats print as integers followed by [.0]; the examples have no
    other float among their keys. *)
Definition repr_integral : FloatRepr :=
  fun q => str_of_Z (Qnum q / Zpos (Qden q)) +:+ ".0".

(** Rounding half away from zero at [s] decimals, the storage rule of
    exact values in a [DECIMAL] column. *)
Definition round_half_away (s : nat) (q : Q) : Q :=
  let scaled := (q * inject_Z (10 ^ Z.of_nat s))%Q in
  let n := Qnum scaled in
  let d := Zpos (Qden scaled) in
  let r := (if (0 <=? n)%Z then (2 * n + d) / (2 * d)
            else - ((2 * (- n) + d) / (2 * d)))%Z in
  Qred (inject_Z r / inject_Z (10 ^ Z.of_nat s)).

(** The end-to-end scenario of the specification, each file as its
    reader returns it: the geometry codes are text, and a column of a
    CSV file written with digits only is a column of integers. *)
Definition scenario_geo : DataFrame :=
  frame ["codgeo"; "geometry"]
        [[Str "00001"; Str "POLYGON 1"]; [Str "00002"; Str "POLYGON 2"];
         [Str "00003"; Str "POLYGON 3"]].

Definition scenario_water : DataFrame :=
  frame ["inseecommune"; "plvconformitebacterio"; "plvconformitechimique"]
        [[Int 1; Str "C"; Str "C"]; [Int 2; Str "N"; Str "N"]].

Definition scenario_rent : DataFrame :=
  frame ["INSEE_C"; "loypredm2"] [[Int 1; Num 10]; [Int 1; Num 12]].

(** The rent file of the scenario with a record of a Corsican commune:
    the code [2A004] keeps the column as text, as it is written. *)
Definition scenario_rent_text : DataFrame :=
  frame ["INSEE_C"; "loypredm2"]
        [[Str "00001"; Num 10]; [Str "00001"; Num 12]; [Str "2A004"; Num 15]].

Definition scenario : Final.DataProcessor :=
  Final.init [scenario_water] scenario_geo [scenario_rent] None.

Definition scenario_text : Final.DataProcessor :=
  Final.init [scenario_water] scenario_geo [scenario_rent_text] None.



(** A water record with the code ["C"], for eau.py. *)
Definition eau_water : DataFrame :=
  frame ["inseecommune"; "plvconformitebacterio"; "plvconformitechimique"]
        [[Str "01001"; Str "C"; Str "C"]].

(** A rent file read as text, with a code of three characters: the code
    [2A004] keeps the column from being read as integers. *)
Definition unpadded_geo : DataFrame :=
  frame ["codgeo"; "geometry"]
        [[Str "00750"; Str "POLYGON 1"]; [Str "2A004"; Str "POLYGON 2"]].

Definition unpadded_water : DataFrame :=
  frame ["inseecommune"; "plvconformitebacterio"; "plvconformitechimique"]
        [[Str "750"; Str "C"; Str "C"]].

Definition unpadded_rent : DataFrame :=
  frame ["INSEE_C"; "loypredm2"]
        [[Str "750"; Num 10]; [Str "2A004"; Num 12]].

(** A rent table with a commune whose two values are missing. *)
Definition missing_rent : DataFrame :=
  frame ["INSEE_C"; "loypredm2"]
        [[Str "00001"; NaN]; [Str "00002"; Num 9]; [Str "00001"; NaN];
         [Str "00002"; Num 12]; [Str "00003"; NaN]; [Str "00003"; Num 7]].

(** A water table whose commune 00002 has only missing codes. *)
Definition missing_water : DataFrame :=
  frame ["inseecommune"; "plvconformitebacterio"; "plvconformitechimique"]
        [[Int 1; Str "C"; Str "N"]; [Int 2; NaN; NaN]; [Int 2; NaN; NaN];
         [Int 1; Str "N"; Str "N"]].

(** A merged table with four complete rows and one incomplete row. *)
Definition correlated : Final.DataProcessor :=
  Final.mk [] (mkDF [] []) [] None
    (Some (frame ["codgeo"; "bacterio_conformity"; "chemical_conformity";
                  "mean_loypredm2"]
             [[Str "00001"; Num 1; Num 1; Num 10];
              [Str "00002"; Num 0; Num 1; Num 12];
              [Str "00003"; Num 1; Num 0; NaN];
              [Str "00004"; Num (1 # 2); Num 0; Num 9];
              [Str "00005"; Num 0; Num (1 # 2); Num 14]]))
    None None None.

(** A geometry table with a commune without water record, and a rent
    table for both communes, its codes read as integers. *)
Definition two_communes : DataFrame :=
  frame ["codgeo"; "geometry"]
        [[Str "00001"; Str "POLYGON 1"]; [Str "00002"; Str "POLYGON 2"]].
Definition one_water : DataFrame :=
  frame ["inseecommune"; "plvconformitebacterio"; "plvconformitechimique"]
        [[Int 1; Str "C"; Str "C"]].
Definition two_rents : DataFrame :=
  frame ["INSEE_C"; "loypredm2"] [[Int 1; Num 10]; [Int 2; Num 12]].

(** Three communes: 00001 with three water records, one of them
    conform for the bacteriology and two for the chemistry; 00002 with
    a rent and no water record; 00750 with a water record and a rent
    written with the code [750].  The rent codes are text, because of
    the code [2A004]. *)
Definition three_communes : DataFrame :=
  frame ["codgeo"; "geometry"]
        [[Str "00001"; Str "POLYGON 1"]; [Str "00002"; Str "POLYGON 2"];
         [Str "00750"; Str "POLYGON 3"]].
Definition four_waters : DataFrame :=
  frame ["inseecommune"; "plvconformitebacterio"; "plvconformitechimique"]
        [[Int 1; Str "C"; Str "C"]; [Int 1; Str "N"; Str "C"];
         [Int 1; Str "N"; Str "N"]; [Int 750; Str "C"; Str "C"]].
Definition four_rents : DataFrame :=
  frame ["INSEE_C"; "loypredm2"]
        [[Str "00001"; Num 10]; [Str "00002"; Num 12]; [Str "750"; Num 9];
         [Str "2A004"; Num 15]].

(** A population table that lists the commune 00001 twice, once with an
    integer code. *)
Definition twice_population : DataFrame :=
  frame ["codgeo"; "p21_pop"]
        [[Int 1; Int 100]; [Str "00001"; Int 120]; [Str "00002"; Int 50]].

(** * The scripts as they are run *)

(** The calls of the script eau.py up to the merge; [communes_geo] is the
    geometry table as [gpd.read_file] returns it. *)
Definition eau_main `{FloatRepr} (files : list DataFrame)
  (communes_geo : DataFrame) : result DataFrame :=
  processor ← Eau.load_files (Eau.init files);
  processor ← Eau.clean_data processor;
  Eau.merge_with_geo_data processor communes_geo.

(** The calls of the main block of population_merge.py, first class, up
    to the merge. *)
Definition population_merge_main `{FloatRepr}
  (self : PopulationMerge.DataProcessor) : result PopulationMerge.DataProcessor :=
  self ← PopulationMerge.load_water_data self;
  self ← PopulationMerge.clean_water_data self;
  self ← PopulationMerge.load_geo_data self;
  self ← PopulationMerge.load_population_data self;
  PopulationMerge.merge_data self.

(** The calls of the main block of population_merge.py, second class,
    up to the merge: the methods are those of final.py, and the
    population is loaded before the rents. *)
Definition population_rent_main `{FloatRepr} (self : Final.DataProcessor)
  : result Final.DataProcessor :=
  self ← Final.load_water_data self;
  self ← Final.clean_water_data self;
  self ← Final.load_geo_data self;
  self ← Final.load_population_data self;
  self ← Final.load_rent_data self;
  Final.merge_data self.

(** [set(df[key].unique())] of the main block of mysql_database.py, after
    the files are concatenated and the key standardised.  The values
    are strings; the order in which a set lists them is not
    modelled.  A file read twice gives the same table. *)
Definition unique_codes `{FloatRepr} (key : string) (files : list DataFrame)
  : result (list string) :=
  all ← concat files;
  all ← standardize key all;
  k ← get_col key all;
  Ok (remove_dups (omap MySQL.sql_text k)).

(** The main block of mysql_database.py up to the merge: the registry
    receives the codes of the water files and of the rent files. *)
Definition sql_script `{FloatRepr} `{SqlEngine}
  (rent_files water_files : list DataFrame) : result MySQL.Database :=
  codgeo_water ← unique_codes "inseecommune" water_files;
  codgeo_rent ← unique_codes "INSEE_C" rent_files;
  sql_main (remove_dups (codgeo_water ++ codgeo_rent)) rent_files water_files.

(** * Notions of the further statements *)

(** The rows of a table as it was read whose key standardises to
    [code]. *)
Definition records_of `{FloatRepr} (key code : string) (df : DataFrame)
  : list (gmap string cell) :=
  filter (fun x => normalize (cell_at x key) = code) (rows df).

(** What [pd.to_numeric(errors="coerce")] does to one element. *)
Definition coerce (c : cell) : cell :=
  match c with
  | Str x => match parse_number x with
             | Some q => Num q
             | None => NaN
             end
  | _ => c
  end.

(** The table of eau.py after [clean_data]: the key standardised and the
    two conformity columns converted to numbers. *)
Definition eau_cleaned `{FloatRepr} (r : gmap string cell) : gmap string cell :=
  <["plvconformitechimique" := coerce (cell_at r "plvconformitechimique")]>
  (<["plvconformitebacterio" := coerce (cell_at r "plvconformitebacterio")]>
   (<["inseecommune" := Str (normalize (cell_at r "inseecommune"))]> r)).


(** * Tables of the further examples *)

(** The value that a call returned, [d] when it raised. *)
Definition returned {A} (d : A) (m : result A) : A :=
  match m with
  | Ok a => a
  | Raise _ => d
  end.

(** A geometry table whose codes were read as integers. *)
Definition numeric_geo : DataFrame :=
  frame ["codgeo"; "geometry"]
        [[Int 1; Str "POLYGON 1"]; [Int 2; Str "POLYGON 2"]].


(** A water file without the two conformity columns. *)
Definition codes_only : DataFrame :=
  frame ["inseecommune"] [[Int 1]; [Int 2]].

(** A population table that lists every commune once. *)
Definition scenario_population : DataFrame :=
  frame ["codgeo"; "p21_pop"] [[Int 1; Int 100]; [Int 2; Int 50]].

(** A merged table whose rent is the same in every complete row. *)
Definition constant_rent : Final.DataProcessor :=
  Final.mk [] (mkDF [] []) [] None
    (Some (frame ["codgeo"; "bacterio_conformity"; "chemical_conformity";
                  "mean_loypredm2"]
             [[Str "00001"; Num 1; Num 1; Num 10];
              [Str "00002"; Num 0; Num 1; Num 10];
              [Str "00003"; Num 1; Num 0; NaN];
              [Str "00004"; Num (1 # 2); Num 0; Num 10]]))
    None None None.

(** * Properties *)

(** ** The Key Normalizer (C8) *)

Lemma astype_str_zfill `{FloatRepr} (s : Series) :
  str_zfill 5 (astype_str s) = map (fun c => Str (normalize c)) s.
Proof. unfold str_zfill, astype_str. by rewrite map_map. Qed.

Lemma length_zeros n : String.length (zeros n) = n.
Proof. induction n; simpl; congruence. Qed.

Lemma app_String a (s t : string) : String a s +:+ t = String a (s +:+ t).
Proof. reflexivity. Qed.

Lemma app_Empty (t : string) : "" +:+ t = t.
Proof. reflexivity. Qed.

Lemma length_app_string (s t : string) :
  String.length (s +:+ t) = (String.length s + String.length t)%nat.
Proof.
  induction s as [| a s IH]; [done |].
  rewrite app_String. simpl. by rewrite IH.
Qed.

Lemma zfill_long w s : (w ≤ String.length s)%nat → zfill w s = s.
Proof.
  intros Hle. unfold zfill.
  destruct (Nat.leb_spec w (String.length s)); [done | lia].
Qed.

Lemma zfill_length w s :
  String.length (zfill w s) = Nat.max w (String.length s).
Proof.
  unfold zfill.
  destruct (Nat.leb_spec w (String.length s)) as [Hle | Hlt]; [lia |].
  destruct s as [| a rest]; simpl in *.
  - rewrite length_zeros. lia.
  - destruct (is_sign a); simpl;
      rewrite ?length_app_string, length_zeros; simpl; lia.
Qed.

Lemma zfill_idem w s : zfill w (zfill w s) = zfill w s.
Proof. apply zfill_long. rewrite zfill_length. lia. Qed.

Lemma zfill_unsigned w s :
  (match s with String a _ => is_sign a = false | EmptyString => True end) →
  zfill w s = zeros (w - String.length s) +:+ s.
Proof.
  intros Hs. unfold zfill.
  destruct (Nat.leb_spec w (String.length s)) as [Hle | Hlt].
  - by replace (w - String.length s)%nat with 0%nat by lia.
  - destruct s as [| a rest]; simpl in *.
    + rewrite Nat.sub_0_r. clear.
      induction w as [| w IH]; [done |].
      simpl. rewrite app_String. by rewrite <- IH.
    + by rewrite Hs.
Qed.


(** The four values of the specification. *)
Lemma normalize_examples `{FloatRepr} :
  normalize (Int 1) = "00001" ∧ normalize (Str "750") = "00750"
  ∧ normalize (Str "12345") = "12345" ∧ normalize (Str "123456") = "123456".
Proof. repeat split; reflexivity. Qed.

(** C8, amended.  The Key Normalizer converts its input to a string and
    pads it with ['0'] up to length 5 without truncating: the zeros go to
    the left of the string, and after the sign when the string starts
    with ['+'] or ['-'].  The result has the length of the string or 5,
    whichever is larger; a string of at least 5 characters is returned
    unchanged; normalizing a normalized code returns it unchanged; the
    four values of the specification hold. *)
Theorem normalize_spec `{FloatRepr} (c : cell) :
  (unsigned (py_str c) →
     normalize c = zeros (5 - String.length (py_str c)) +:+ py_str c)
  ∧ (∀ a rest, py_str c = String a rest → is_sign a = true →
       (String.length (py_str c) < 5)%nat →
       normalize c = String a (zeros (5 - String.length (py_str c)) +:+ rest))
  ∧ String.length (normalize c) = Nat.max 5 (String.length (py_str c))
  ∧ ((5 ≤ String.length (py_str c))%nat → normalize c = py_str c)
  ∧ normalize (Str (normalize c)) = normalize c
  ∧ normalize (Int 1) = "00001" ∧ normalize (Str "750") = "00750"
  ∧ normalize (Str "12345") = "12345" ∧ normalize (Str "123456") = "123456".
Proof.
  unfold normalize. split_and!; try reflexivity.
  - apply zfill_unsigned.
  - intros a rest Hs Ha Hlen. unfold zfill.
    destruct (Nat.leb_spec 5 (String.length (py_str c))); [lia |].
    rewrite Hs at 1. by rewrite Ha.
  - apply zfill_length.
  - apply zfill_long.
  - simpl. apply zfill_idem.
Qed.

Lemma normalize_spec_witness :
  unsigned "750" ∧ @normalize repr_integral (Str "750") = "00750".
Proof.
  split; [reflexivity |].
  exact (proj1 (@normalize_spec repr_integral (Str "750")) eq_refl).
Defined.

(** C8 as stated fails on a signed string: the zeros are not on the left
    of ["-1"]. *)
Lemma normalize_not_left_pad :
  @normalize repr_integral (Str "-1") = "-0001"
  ∧ ¬ (∀ c : cell,
         @normalize repr_integral c
         = zeros (5 - String.length (@py_str repr_integral c))
           +:+ @py_str repr_integral c).
Proof.
  split; [reflexivity |].
  intros Hpad. specialize (Hpad (Str "-1")). vm_compute in Hpad. discriminate.
Qed.

(** ** The Conformity Encoder (C5) *)

Lemma encode_C : encode (Str "C") = Int 1.
Proof. reflexivity. Qed.

Lemma encode_other (x : cell) : x ≠ Str "C" → encode x = Int 0.
Proof.
  intros Hx. unfold encode.
  destruct x as [| z | q | s]; try reflexivity.
  simpl. destruct (String.eqb_spec s "C"); [congruence | reflexivity].
Qed.

Lemma encode_cases (x : cell) : encode x = Int 1 ∨ encode x = Int 0.
Proof. unfold encode. destruct (py_eq x (Str "C")); auto. Qed.

(** The encoder of final.py, eau_merge.py, population_merge.py and
    mysql_database.py maps ["C"] to 1 and everything else, a missing
    value included, to 0. *)
Lemma encode_spec (x : cell) :
  (x = Str "C" → encode x = Int 1) ∧ (x ≠ Str "C" → encode x = Int 0)
  ∧ encode (Str "N") = Int 0 ∧ encode (Str "") = Int 0 ∧ encode NaN = Int 0.
Proof.
  split_and!; try reflexivity.
  - intros ->. apply encode_C.
  - apply encode_other.
Qed.

(** C5 at eau.py.  The encoder maps ["C"] to 1, but [clean_data] of
    eau.py does not encode: it converts the code ["C"] to a missing
    value, and the conformity rate of the commune is then missing. *)
Theorem eau_conformity_not_encoded `{FloatRepr} :
  encode (Str "C") = Int 1
  ∧ to_numeric [Str "C"] = [NaN]
  ∧ (self ← Eau.load_files (Eau.init [eau_water]);
     self ← Eau.clean_data self;
     agg ← Eau.aggregate_by_commune self;
     Ok (columns agg, cells agg))
    = Ok (["inseecommune"; "bacterio_conformity"; "chemical_conformity"],
          [[Str "01001"; NaN; NaN]]).
Proof. split_and!; vm_compute; reflexivity. Qed.

(** ** The end-to-end scenario (C2) *)

(** C2 on its scenario.  The rent file of the scenario holds the code
    [00001] twice; [read_csv] reads this column as integers, and
    [load_rent_data] groups it as it was read.  The water merge gives
    the conformity of the specification; the rent merge then raises
    [ValueError], because the text codes of the geometry table do not
    merge with integers, and no merged table is produced.  am.py, which
    standardises the rent key, gives the commune 00001 the mean rent 11
    on the same files; final.py gives the table of the specification
    only when the rent column was read as text. *)
Theorem scenario_rent_merge_raises `{FloatRepr} :
  (self ← Final.load_water_data scenario;
   self ← Final.clean_water_data self;
   self ← Final.load_geo_data self;
   self ← Final.load_rent_data self;
   self ← Final.merge_data self;
   indicators self)
  = Raise ValueError
  ∧ (self ← Final.load_water_data scenario;
     self ← Final.clean_water_data self;
     self ← Final.load_geo_data self;
     w ← field (Final.water_data self);
     water_agg ← water_aggregate w;
     g ← field (Final.geo_data self);
     g ← merge g water_agg "codgeo" "inseecommune";
     d ← select ["codgeo"; "bacterio_conformity"; "chemical_conformity"] g;
     Ok (cells d))
    = Ok [[Str "00001"; Num 1; Num 1]; [Str "00002"; Num 0; Num 0];
          [Str "00003"; NaN; NaN]]
  ∧ (self ← Final.load_water_data scenario;
     self ← Final.clean_water_data self;
     self ← Final.load_geo_data self;
     self ← Final.load_rent_data self;
     r ← field (Final.rent_data self);
     Ok (cells r))
    = Ok [[Int 1; Num 11]]
  ∧ (self ← Am.preprocess_data (Am.init scenario_geo [scenario_rent]);
     m ← field (Am.merged_data self);
     d ← select ["codgeo"; "loypredm2"] m;
     Ok (cells d))
    = Ok [[Str "00001"; Num 11]; [Str "00002"; NaN]; [Str "00003"; NaN]]
  ∧ (self ← Final.main (Final.init [scenario_water] scenario_geo
                                   [scenario_rent_text] None);
     indicators self)
    = Ok [[Str "00001"; Num 1; Num 1; Num 11];
          [Str "00002"; Num 0; Num 0; NaN];
          [Str "00003"; NaN; NaN; NaN]].
Proof. split_and!; vm_compute; reflexivity. Qed.

(** ** The rent key of final.py (C1) *)

(** C1 at the rent key.  final.py groups and merges the rent table on
    the key [INSEE_C] as it was read: the rent of the code ["750"] does
    not reach the commune ["00750"], whose water record, read with the
    same code, does.  am.py standardises the rent key, and there the rent
    reaches the commune. *)
Theorem final_rent_key_not_standardized `{FloatRepr} :
  (self ← Final.main (Final.init [unpadded_water] unpadded_geo
                                 [unpadded_rent] None);
   indicators self)
  = Ok [[Str "00750"; Num 1; Num 1; NaN];
        [Str "2A004"; NaN; NaN; Num 12]]
  ∧ (self ← Am.preprocess_data (Am.init unpadded_geo [unpadded_rent]);
     m ← field (Am.merged_data self);
     d ← select ["codgeo"; "loypredm2"] m;
     Ok (cells d))
    = Ok [[Str "00750"; Num 10]; [Str "2A004"; Num 12]].
Proof. split; vm_compute; reflexivity. Qed.

(** * The pandas layer *)

(** ** Results *)

Lemma bind_Ok {A B} (m : result A) (f : A → result B) (b : B) :
  m ≫= f = Ok b ↔ ∃ a, m = Ok a ∧ f a = Ok b.
Proof.
  destruct m as [a | e]; simpl; split.
  - intros Hf. by exists a.
  - by intros (a' & [= ->] & Hf).
  - discriminate.
  - by intros (a' & [=] & _).
Qed.

Ltac inv_bind H :=
  repeat match type of H with
  | _ ≫= _ = Ok _ =>
      let a := fresh "x" in
      let Ha := fresh "H" a in
      apply bind_Ok in H as (a & Ha & H)
  end.

Lemma mapR_Forall2 {A B} (f : A → result B) (l : list A) (ys : list B) :
  mapR f l = Ok ys ↔ Forall2 (fun x y => f x = Ok y) l ys.
Proof.
  revert ys. induction l as [| x l IH]; intros ys; simpl.
  - split; [intros [= <-]; constructor | by inversion 1].
  - split.
    + intros Hm. inv_bind Hm. injection Hm as <-.
      constructor; [done | by apply IH].
    + inversion 1 as [| ? y ? ys' Hx Hl]; subst.
      apply bind_Ok. exists y. split; [done |].
      apply bind_Ok. exists ys'. split; [by apply IH | done].
Qed.

Lemma mapR_length {A B} (f : A → result B) (l : list A) (ys : list B) :
  mapR f l = Ok ys → length ys = length l.
Proof. intros Hm%mapR_Forall2. symmetry. by eapply Forall2_length. Qed.

Lemma mapR_total {A B} (f : A → result B) (l : list A) :
  Forall (fun x => is_Ok (f x)) l → is_Ok (mapR f l).
Proof.
  induction 1 as [| x l [y Hy] _ [ys Hys]]; [by exists [] |].
  exists (y :: ys). simpl. by rewrite Hy, Hys.
Qed.

(** [map] of the standard library is [fmap] on lists. *)
Lemma map_fmap {A B} (f : A → B) (l : list A) : map f l = f <$> l.
Proof. reflexivity. Qed.

Lemma lookup_map_Some {A B} (f : A → B) (l : list A) (i : nat) (y : B) :
  map f l !! i = Some y → ∃ x, l !! i = Some x ∧ y = f x.
Proof.
  rewrite map_fmap. intros (x & -> & Hx)%list_lookup_fmap_Some. by exists x.
Qed.

(** ** Rows *)

Lemma lookup_project_id (cols : list string) (r : gmap string cell) (c : string) :
  project id cols r !! c
  = if decide (c ∈ cols) then Some (cell_at r c) else None.
Proof.
  unfold project, id. induction cols as [| a cols IH]; simpl.
  - by rewrite lookup_empty.
  - destruct (decide (a = c)) as [-> | Hne].
    + rewrite lookup_insert_eq. rewrite decide_True; [done | left].
    + rewrite lookup_insert_ne by done. rewrite IH.
      destruct (decide (c ∈ cols)) as [Hin | Hout].
      * rewrite decide_True; [done | by right].
      * rewrite decide_False; [done |]. by intros [-> | ?]%elem_of_cons.
Qed.

Lemma project_ext (f g : string → string) (cols : list string)
  (r : gmap string cell) :
  (∀ c, c ∈ cols → f c = g c) → project f cols r = project g cols r.
Proof.
  intros Hfg. unfold project. f_equal.
  apply map_ext_in. intros c Hc%list_elem_of_In. by rewrite Hfg.
Qed.

Lemma lookup_nan_row (cols : list string) (c : string) :
  nan_row cols !! c = if decide (c ∈ cols) then Some NaN else None.
Proof.
  unfold nan_row. induction cols as [| a cols IH]; simpl.
  - by rewrite lookup_empty.
  - destruct (decide (a = c)) as [-> | Hne].
    + rewrite lookup_insert_eq. rewrite decide_True; [done | left].
    + rewrite lookup_insert_ne by done. rewrite IH.
      destruct (decide (c ∈ cols)) as [Hin | Hout].
      * rewrite decide_True; [done | by right].
      * rewrite decide_False; [done |]. by intros [-> | ?]%elem_of_cons.
Qed.

Lemma cell_at_project_id cols r c :
  c ∈ cols → cell_at (project id cols r) c = cell_at r c.
Proof.
  intros Hc. unfold cell_at at 1. rewrite lookup_project_id.
  by rewrite decide_True.
Qed.

Lemma cell_at_union_l (m1 m2 : gmap string cell) c :
  is_Some (m1 !! c) → cell_at (m1 ∪ m2) c = cell_at m1 c.
Proof.
  intros [v Hv]. unfold cell_at.
  by rewrite (lookup_union_Some_l _ _ _ _ Hv), Hv.
Qed.

Lemma suffix_nil sfx c : suffix [] sfx c = c.
Proof. unfold suffix. rewrite bool_decide_eq_false_2; [done |]. by inversion 1. Qed.

Lemma map_suffix_nil sfx (l : list string) : map (suffix [] sfx) l = l.
Proof. induction l; simpl; [done |]. by rewrite suffix_nil, IHl. Qed.

Lemma project_suffix_nil sfx cols r :
  project (suffix [] sfx) cols r = project id cols r.
Proof. apply project_ext. intros c _. apply suffix_nil. Qed.

(** ** Keys *)

Lemma key_eqb_refl a : key_eqb a a = true.
Proof.
  destruct a; simpl; try done.
  - apply Qeq_bool_iff. reflexivity.
  - apply Qeq_bool_iff. reflexivity.
  - apply String.eqb_refl.
Qed.

Lemma key_eqb_sym a b : key_eqb a b = key_eqb b a.
Proof.
  assert (Hq : ∀ p q, Qeq_bool p q = Qeq_bool q p).
  { intros p q. apply eq_true_iff_eq.
    rewrite !Qeq_bool_iff. split; intros Hpq; by symmetry. }
  destruct a, b; simpl; try done; try apply Hq.
  apply String.eqb_sym.
Qed.

Lemma key_eqb_trans a b c :
  key_eqb a b = true → key_eqb b c = true → key_eqb a c = true.
Proof.
  assert (Hq : ∀ p q r, Qeq_bool p q = true → Qeq_bool q r = true
                         → Qeq_bool p r = true).
  { intros p q r. rewrite !Qeq_bool_iff. intros -> ->. reflexivity. }
  destruct a, b, c; simpl; try done; try apply Hq.
  intros ->%String.eqb_eq ->%String.eqb_eq. apply String.eqb_refl.
Qed.

Lemma key_eqb_Str s c : key_eqb (Str s) c = true ↔ c = Str s.
Proof.
  destruct c; simpl; try (split; [discriminate | done]).
  rewrite String.eqb_eq. split; [by intros -> | by intros [= ->]].
Qed.

Lemma key_eqb_congr a b c : key_eqb a b = true → key_eqb a c = key_eqb b c.
Proof.
  intros Hab. apply eq_true_iff_eq. split; intros Hc.
  - eapply key_eqb_trans; [| done]. by rewrite key_eqb_sym.
  - by eapply key_eqb_trans.
Qed.


(** ** mean *)

Lemma mean_fold (s : Series) (a : Q) (n : nat) :
  Forall (fun c => is_str c = false) s →
  ∃ a', fold_left mean_step s (Ok (a, n)) = Ok (a', (n + length (present s))%nat)
        ∧ (a' == a + Qsum (present s))%Q.
Proof.
  intros Hs. revert a n. induction Hs as [| c s Hc _ IH]; intros a n.
  - exists a. simpl. split; [by rewrite Nat.add_0_r | ring].
  - destruct c as [| z | q | x]; try discriminate; simpl.
    + apply IH.
    + destruct (IH (a + inject_Z z)%Q (S n)) as (a' & -> & Ha').
      exists a'. split; [f_equal; f_equal; lia |].
      rewrite Ha'. unfold present. simpl. ring.
    + destruct (IH (a + q)%Q (S n)) as (a' & -> & Ha').
      exists a'. split; [f_equal; f_equal; lia |].
      rewrite Ha'. unfold present. simpl. ring.
Qed.

(** The mean of a column without string is the mean of its present
    values. *)
Lemma mean_spec (s : Series) :
  Forall (fun c => is_str c = false) s → mean s = Ok (mean_of_present s).
Proof.
  intros Hs. unfold mean, mean_of_present.
  destruct (mean_fold s 0 0 Hs) as (a' & -> & Ha'). simpl.
  destruct (present s) as [| p ps] eqn:Hp; [done |].
  simpl length. f_equal. f_equal. apply Qred_complete.
  rewrite Ha'. by rewrite Qplus_0_l.
Qed.

Lemma mean_fold_Raise (s : Series) e : fold_left mean_step s (Raise e) = Raise e.
Proof. induction s; simpl; [done | by rewrite IHs]. Qed.

(** The mean of a column that holds a string is an error. *)
Lemma mean_Str (s : Series) :
  Exists (fun c => is_str c = true) s → mean s = Raise TypeError.
Proof.
  intros Hs. unfold mean.
  assert (Hg : ∀ a, fold_left mean_step s (Ok a) = Raise TypeError).
  { induction Hs as [c s Hc | c s _ IH]; intros a.
    - destruct c; try discriminate. simpl. apply mean_fold_Raise.
    - destruct c; simpl; try apply IH. apply mean_fold_Raise. }
  by rewrite Hg.
Qed.

Lemma mean_of_present_all_missing (s : Series) :
  Forall (fun c => c = NaN) s → mean_of_present s = NaN.
Proof.
  intros Hs. unfold mean_of_present.
  replace (present s) with (@nil Q); [done |].
  induction Hs as [| c s -> _ IH]; [done | exact IH].
Qed.

(** ** Groups *)

Lemma key_eqb_nan_r k : is_nan k = false → key_eqb k NaN = false.
Proof. by destruct k. Qed.

Lemma distinct_keys_nil : distinct_keys [].
Proof. intros q. simpl. lia. Qed.

Lemma distinct_keys_tail k ks : distinct_keys (k :: ks) → distinct_keys ks.
Proof.
  intros Hd q. specialize (Hd q). rewrite filter_cons in Hd.
  destruct (decide (key_eqb q k)); simpl in Hd; lia.
Qed.

Lemma filter_key_nil (q : cell) (ks : list cell) :
  Forall (fun k => key_eqb q k = false) ks →
  filter (fun k => key_eqb q k) ks = [].
Proof.
  induction 1 as [| k ks Hk _ IH]; [done |].
  rewrite filter_cons_False; [done |]. by apply Is_true_false_2.
Qed.

(** In a list of pairwise different keys, a key equal to the head is
    equal to no key of the tail. *)
Lemma distinct_keys_head q k ks :
  distinct_keys (k :: ks) → key_eqb q k = true →
  Forall (fun k' => key_eqb q k' = false) ks.
Proof.
  intros Hd Hq. specialize (Hd q).
  rewrite filter_cons_True in Hd by (by apply Is_true_true_2). simpl in Hd.
  apply Forall_forall. intros k' Hk'.
  destruct (key_eqb q k') eqn:Hqk; [| done].
  assert (Hin : k' ∈ filter (fun k => key_eqb q k) ks).
  { apply list_elem_of_filter. split; [by apply Is_true_true_2 | done]. }
  destruct (filter _ ks); [by apply not_elem_of_nil in Hin | simpl in Hd; lia].
Qed.

Lemma distinct_keys_snoc k ks :
  distinct_keys ks → Forall (fun k' => key_eqb k' k = false) ks →
  distinct_keys (ks ++ [k]).
Proof.
  intros Hd Hk q. rewrite filter_app, length_app.
  destruct (key_eqb q k) eqn:Hq.
  - rewrite filter_key_nil;
      [simpl; rewrite filter_cons_True by (by apply Is_true_true_2);
       simpl; lia |].
    eapply Forall_impl; [exact Hk |]. intros k' Hk'. simpl in Hk'.
    rewrite <- Hk'. rewrite (key_eqb_sym k' k). symmetry.
    apply key_eqb_congr. by rewrite key_eqb_sym.
  - rewrite (filter_cons_False _ k) by (by apply Is_true_false_2). simpl.
    specialize (Hd q). lia.
Qed.

Lemma distinct_keys_perm ks ks' :
  ks ≡ₚ ks' → distinct_keys ks → distinct_keys ks'.
Proof. intros Hp Hd q. specialize (Hd q). by rewrite <- Hp. Qed.

Lemma add_to_group_keys k r gs :
  map fst (add_to_group k r gs)
  = map fst gs ++ (if existsb (fun g => key_eqb g.1 k) gs then [] else [k]).
Proof.
  induction gs as [| [k' rs] gs IH]; simpl; [done |].
  destruct (key_eqb k' k) eqn:Hk; simpl.
  - by rewrite app_nil_r.
  - by rewrite IH.
Qed.

Lemma rows_of_key_snoc key k rws r :
  rows_of_key key k (rws ++ [r])
  = rows_of_key key k rws ++ (if key_eqb k (cell_at r key) then [r] else []).
Proof.
  unfold rows_of_key. rewrite filter_app. f_equal.
  destruct (key_eqb k (cell_at r key)) eqn:Hk.
  - by rewrite filter_cons_True by (by apply Is_true_true_2).
  - by rewrite filter_cons_False by (by apply Is_true_false_2).
Qed.

Lemma group_of_other key rws r g :
  group_of key rws g → key_eqb g.1 (cell_at r key) = false →
  group_of key (rws ++ [r]) g.
Proof.
  intros (Hn & Hne & Hg) Hk. split_and!; [done | done |].
  rewrite rows_of_key_snoc, Hk. by rewrite app_nil_r.
Qed.

Lemma add_to_group_groups key rws r gs :
  let k := cell_at r key in
  is_nan k = false →
  Forall (group_of key rws) gs →
  distinct_keys (map fst gs) →
  (existsb (fun g => key_eqb g.1 k) gs = false → rows_of_key key k rws = []) →
  Forall (group_of key (rws ++ [r])) (add_to_group k r gs).
Proof.
  intros k Hk Hgs. induction Hgs as [| [k' rs] gs Hg Hgs IH]; intros Hd Hfresh.
  - constructor; [| done]. split_and!; [done | done |]. simpl.
    rewrite rows_of_key_snoc, Hfresh by done. fold k.
    by rewrite key_eqb_refl.
  - simpl. destruct (key_eqb k' k) eqn:Hk'.
    + constructor.
      * destruct Hg as (Hn & Hne & Hg). simpl in *.
        split_and!; [done | by destruct rs |]. simpl.
        rewrite rows_of_key_snoc. fold k. by rewrite Hk', <- Hg.
      * simpl in Hd.
        assert (Hrest : Forall (fun k'' => key_eqb k k'' = false) (map fst gs)).
        { eapply distinct_keys_head; [exact Hd |]. by rewrite key_eqb_sym. }
        rewrite Forall_fmap in Hrest.
        eapply Forall_impl; [apply Forall_and; split; [exact Hgs | exact Hrest] |].
        intros g [Hgg Hgk]. simpl in Hgk. apply group_of_other; [done |].
        fold k. by rewrite key_eqb_sym.
    + constructor.
      * apply group_of_other; [done | done].
      * apply IH; [by eapply distinct_keys_tail |].
        intros Hex. apply Hfresh. simpl. by rewrite Hk'.
Qed.

Lemma covers_fresh key rws ks k :
  covers key rws ks → is_nan k = false →
  Forall (fun k' => key_eqb k' k = false) ks →
  rows_of_key key k rws = [].
Proof.
  intros Hc Hk Hks. unfold rows_of_key.
  destruct (filter _ rws) as [| r l] eqn:Hf; [done |].
  assert (Hr : r ∈ filter (fun r => key_eqb k (cell_at r key)) rws).
  { rewrite Hf. left. }
  apply list_elem_of_filter in Hr as [Hkr Hr]. apply Is_true_true in Hkr.
  destruct (Hc r Hr) as (k' & Hk' & Hkk').
  { destruct (cell_at r key); try done. by rewrite key_eqb_nan_r in Hkr. }
  rewrite Forall_forall in Hks. specialize (Hks k' Hk').
  assert (key_eqb k' k = true); [| congruence].
  eapply key_eqb_trans; [exact Hkk' | by rewrite key_eqb_sym].
Qed.

Lemma existsb_false_Forall {A} (f : A → bool) (l : list A) :
  existsb f l = false ↔ Forall (fun x => f x = false) l.
Proof.
  induction l as [| x l IH]; simpl; [by split |].
  rewrite orb_false_iff, IH, Forall_cons. tauto.
Qed.

(** The groups of a table: each is the group of its key, the keys are
    pairwise different, and every row with a key is in a group. *)
Lemma group_rows_ok key rws :
  Forall (group_of key rws) (group_rows key rws)
  ∧ distinct_keys (map fst (group_rows key rws))
  ∧ covers key rws (map fst (group_rows key rws)).
Proof.
  unfold group_rows. induction rws as [| r rws IH] using rev_ind.
  - split_and!; [constructor | apply distinct_keys_nil |].
    intros r Hr. by apply not_elem_of_nil in Hr.
  - rewrite fold_left_app. simpl.
    destruct IH as (Hg & Hd & Hc). set (gs := fold_left _ rws []) in *.
    unfold group_step. destruct (is_nan (cell_at r key)) eqn:Hn.
    + split_and!; [| done |].
      * eapply Forall_impl; [exact Hg |]. intros g Hgg.
        apply group_of_other; [done |].
        destruct (cell_at r key); try done.
        apply key_eqb_nan_r, Hgg.
      * intros r' [Hr' | ->%list_elem_of_singleton]%elem_of_app Hn';
          [by apply Hc | congruence].
    + assert (Hfresh : existsb (fun g => key_eqb g.1 (cell_at r key)) gs = false
                       → rows_of_key key (cell_at r key) rws = []).
      { intros Hex%existsb_false_Forall.
        eapply covers_fresh; [exact Hc | done |]. by rewrite Forall_fmap. }
      split_and!.
      * by apply add_to_group_groups.
      * rewrite add_to_group_keys.
        destruct (existsb _ gs) eqn:Hex; [by rewrite app_nil_r |].
        apply distinct_keys_snoc; [done |].
        apply existsb_false_Forall in Hex. by rewrite Forall_fmap.
      * rewrite add_to_group_keys.
        intros r' [Hr' | ->%list_elem_of_singleton]%elem_of_app Hn'.
        -- destruct (Hc r' Hr' Hn') as (k & Hk & Hkk).
           exists k. split; [apply elem_of_app; by left | done].
        -- destruct (existsb _ gs) eqn:Hex.
           ++ apply existsb_exists in Hex as (g & Hgin & Hgk).
              exists g.1. rewrite app_nil_r. split; [| done].
              apply list_elem_of_fmap. exists g. split; [done |].
              by apply list_elem_of_In.
           ++ exists (cell_at r key). split; [| apply key_eqb_refl].
              apply elem_of_app. right. left.
Qed.

Lemma insert_group_perm {A} (g : cell * A) gs : insert_group g gs ≡ₚ g :: gs.
Proof.
  induction gs as [| h gs IH]; simpl; [done |].
  destruct (key_leb g.1 h.1); [done |].
  rewrite IH. apply Permutation_swap.
Qed.

Lemma sort_groups_perm {A} (gs : list (cell * A)) : sort_groups gs ≡ₚ gs.
Proof.
  induction gs as [| g gs IH]; simpl; [done |].
  by rewrite insert_group_perm, IH.
Qed.

(** ** groupby *)

Lemma mean_Ok (s : Series) (m : cell) : mean s = Ok m → m = mean_of_present s.
Proof.
  intros Hm.
  destruct (decide (Forall (fun c => is_str c = false) s)) as [Hs | Hs].
  - rewrite (mean_spec s Hs) in Hm. by injection Hm.
  - apply not_Forall_Exists in Hs; [| apply _].
    rewrite mean_Str in Hm; [done |].
    eapply Exists_impl; [exact Hs |]. intros c Hc. simpl in Hc.
    by destruct (is_str c).
Qed.

Lemma has_column_spec df c : has_column df c = true ↔ c ∈ columns df.
Proof. unfold has_column. apply bool_decide_eq_true. Qed.

Lemma lookup_means (rs : list (gmap string cell)) (vals : list string)
  (ms : list (string * cell)) :
  mapR (fun v => m ← mean (map (fun r => cell_at r v) rs); Ok (v, m)) vals
  = Ok ms →
  ∀ c, (list_to_map ms : gmap string cell) !! c
       = if decide (c ∈ vals)
         then Some (mean_of_present (map (fun r => cell_at r c) rs))
         else None.
Proof.
  intros Hm c. apply mapR_Forall2 in Hm.
  induction Hm as [| v p vals ms Hp _ IH]; simpl; [by rewrite lookup_empty |].
  inv_bind Hp. injection Hp as <-. apply mean_Ok in Hx as ->. simpl.
  destruct (decide (v = c)) as [-> | Hne].
  - rewrite lookup_insert_eq. rewrite decide_True; [done | left].
  - rewrite lookup_insert_ne by done. rewrite IH.
    destruct (decide (c ∈ vals)) as [Hin | Hout].
    + rewrite decide_True; [done | by right].
    + rewrite decide_False; [done |]. by intros [-> | ?]%elem_of_cons.
Qed.

Lemma mean_row_lookup key vals g row :
  mean_row key vals g = Ok row →
  ∀ c, row !! c
       = if decide (c = key) then Some g.1
         else if decide (c ∈ vals)
              then Some (mean_of_present (map (fun r => cell_at r c) g.2))
              else None.
Proof.
  unfold mean_row. intros Hm c. inv_bind Hm. injection Hm as <-.
  destruct (decide (c = key)) as [-> | Hne].
  - by rewrite lookup_insert_eq.
  - rewrite lookup_insert_ne by done. by apply lookup_means.
Qed.

Lemma mean_row_key key vals g row :
  mean_row key vals g = Ok row → cell_at row key = g.1.
Proof.
  intros Hm. unfold cell_at. rewrite (mean_row_lookup _ _ _ _ Hm).
  by rewrite decide_True.
Qed.

(** What a successful [groupby_mean] returns: its rows are the means of
    the groups of the table, taken in some order. *)
Lemma groupby_mean_inv key vals df out :
  groupby_mean key vals df = Ok out →
  columns out = key :: vals ∧ key ∈ columns df ∧ (key ∉ vals)
  ∧ ∃ gs, gs ≡ₚ group_rows key (rows df)
          ∧ Forall2 (fun g row => mean_row key vals g = Ok row) gs (rows out).
Proof.
  unfold groupby_mean. intros Hg.
  destruct (has_column df key && forallb (has_column df) vals
            && negb (bool_decide (key ∈ vals))) eqn:Hc; simpl in Hg; [| done].
  apply andb_true_iff in Hc as [[Hk%has_column_spec _]%andb_true_iff Hv].
  apply negb_true_iff, bool_decide_eq_false in Hv.
  inv_bind Hg. injection Hg as <-. simpl.
  split_and!; [done | done | done |].
  exists (sort_groups (group_rows key (rows df))).
  split; [apply sort_groups_perm | by apply mapR_Forall2].
Qed.

Lemma groupby_mean_keys key vals df out :
  groupby_mean key vals df = Ok out →
  map (fun r => cell_at r key) (rows out)
  ≡ₚ map fst (group_rows key (rows df)).
Proof.
  intros Hg. apply groupby_mean_inv in Hg as (_ & _ & _ & gs & Hp & Hf).
  rewrite <- Hp. clear Hp.
  induction Hf as [| g row gs rws Hg _ IH]; simpl; [done |].
  by rewrite (mean_row_key _ _ _ _ Hg), IH.
Qed.

(** The result of an aggregation has one row per key. *)
Lemma groupby_mean_unique key vals df out :
  groupby_mean key vals df = Ok out → unique_keys key (rows out).
Proof.
  intros Hg. unfold unique_keys.
  eapply distinct_keys_perm; [symmetry; by eapply groupby_mean_keys |].
  apply group_rows_ok.
Qed.

Lemma groupby_mean_total key vals df :
  key ∈ columns df → Forall (fun v => v ∈ columns df) vals → key ∉ vals →
  Forall (fun r => Forall (fun v => is_str (cell_at r v) = false) vals)
         (rows df) →
  is_Ok (groupby_mean key vals df).
Proof.
  intros Hk Hv Hkv Hs. unfold groupby_mean.
  rewrite (proj2 (has_column_spec _ _) Hk). 
  replace (forallb (has_column df) vals) with true.
  2:{ symmetry. apply forallb_forall. intros v Hin%list_elem_of_In.
      apply has_column_spec. by eapply Forall_forall in Hv. }
  rewrite bool_decide_eq_false_2 by done. simpl.
  destruct (mapR_total (mean_row key vals)
              (sort_groups (group_rows key (rows df)))) as [rws Hrws].
  - rewrite sort_groups_perm.
    destruct (group_rows_ok key (rows df)) as (Hg & _ & _).
    eapply Forall_impl; [exact Hg |]. intros g (_ & _ & Hgr).
    unfold mean_row.
    destruct (mapR_total
                (fun v => m ← mean (map (fun r => cell_at r v) g.2); Ok (v, m))
                vals) as [ms Hms].
    + apply Forall_forall. intros v Hvin.
      rewrite mean_spec; [by eexists |].
      rewrite Forall_fmap. rewrite Hgr. unfold rows_of_key.
      apply Forall_forall. intros r [_ Hr]%list_elem_of_filter.
      eapply Forall_forall in Hs; [| exact Hr].
      by eapply Forall_forall in Hs.
    + rewrite Hms. by eexists.
  - rewrite Hrws. by eexists.
Qed.

(** Every row of the table with a key has a row in the aggregate. *)
Lemma groupby_mean_complete key vals df out r :
  groupby_mean key vals df = Ok out →
  r ∈ rows df → is_nan (cell_at r key) = false →
  ∃ row, row ∈ rows out ∧ key_eqb (cell_at row key) (cell_at r key) = true.
Proof.
  intros Hout Hr Hn.
  pose proof (groupby_mean_keys _ _ _ _ Hout) as Hkeys.
  destruct (group_rows_ok key (rows df)) as (_ & _ & Hcov).
  destruct (Hcov r Hr Hn) as (k & Hkin & Hkr).
  rewrite <- Hkeys in Hkin.
  apply list_elem_of_fmap in Hkin as (row & -> & Hrow). by exists row.
Qed.

(** A row of the aggregate holds the means of the rows of the table
    that have its key. *)
Lemma groupby_mean_row key vals df out row :
  groupby_mean key vals df = Ok out → row ∈ rows out →
  rows_of_key key (cell_at row key) (rows df) ≠ []
  ∧ is_nan (cell_at row key) = false
  ∧ ∀ v, v ∈ vals →
      row !! v = Some (mean_of_present
                         (map (fun r => cell_at r v)
                              (rows_of_key key (cell_at row key) (rows df)))).
Proof.
  intros Hout Hrow.
  destruct (groupby_mean_inv _ _ _ _ Hout) as (Hc & _ & Hkv & gs & Hp & Hf).
  destruct (group_rows_ok key (rows df)) as (Hg & _ & _).
  apply list_elem_of_lookup in Hrow as [i Hi].
  destruct (Forall2_lookup_r _ _ _ _ _ Hf Hi) as (g & Hgi & Hgrow).
  assert (Hgo : group_of key (rows df) g).
  { eapply Forall_forall; [exact Hg |]. rewrite <- Hp.
    by eapply list_elem_of_lookup_2. }
  destruct Hgo as (Hn & Hne & Hg2).
  rewrite (mean_row_key _ _ _ _ Hgrow), <- Hg2.
  split_and!; [done | done |].
  intros v Hvin. rewrite (mean_row_lookup _ _ _ _ Hgrow).
  rewrite decide_False by (by intros ->). by rewrite decide_True.
Qed.

(** C4.  The Commune Aggregator returns one row per key of the table;
    the value of a row in a value column is the arithmetic mean of the
    values of the column that are present among the rows of the table
    with the key of the row, and it is missing (not zero) when none of
    them is present. *)
Theorem aggregate_mean_of_present (key : string) (vals : list string)
  (df : DataFrame) :
  key ∈ columns df → Forall (fun v => v ∈ columns df) vals → key ∉ vals →
  Forall (fun r => Forall (fun v => is_str (cell_at r v) = false) vals)
         (rows df) →
  ∃ out, groupby_mean key vals df = Ok out
    ∧ columns out = key :: vals
    ∧ unique_keys key (rows out)
    ∧ (∀ r, r ∈ rows df → is_nan (cell_at r key) = false →
         ∃ row, row ∈ rows out
                ∧ key_eqb (cell_at row key) (cell_at r key) = true)
    ∧ ∀ row, row ∈ rows out →
        let group := rows_of_key key (cell_at row key) (rows df) in
        group ≠ []
        ∧ ∀ v, v ∈ vals →
            let values := map (fun r => cell_at r v) group in
            row !! v = Some (mean_of_present values)
            ∧ (present values ≠ [] →
                 row !! v = Some (Num (Qred (Qsum (present values)
                              / inject_Z (Z.of_nat (length (present values)))))))
            ∧ (Forall (fun c => c = NaN) values → row !! v = Some NaN).
Proof.
  intros Hk Hv Hkv Hs.
  destruct (groupby_mean_total key vals df Hk Hv Hkv Hs) as [out Hout].
  exists out. split; [done |].
  destruct (groupby_mean_inv _ _ _ _ Hout) as (Hc & _).
  split_and!; [done | by eapply groupby_mean_unique | |].
  - intros r Hr Hn. by eapply groupby_mean_complete.
  - intros row Hrow group.
    destruct (groupby_mean_row _ _ _ _ _ Hout Hrow) as (Hne & _ & Hmeans).
    split; [done |]. intros v Hvin values.
    pose proof (Hmeans v Hvin) as Hrv. fold group in Hrv. fold values in Hrv.
    split_and!; [done | |].
    + intros Hpres. rewrite Hrv. unfold mean_of_present.
      by destruct (present values).
    + intros Hall. rewrite Hrv. by rewrite mean_of_present_all_missing.
Qed.

(** ** merge *)

Lemma filter_length_map {A B} (f : A → B) (P : B → bool) (l : list A) :
  length (filter (fun x => P (f x)) l) = length (filter (fun y => P y) (map f l)).
Proof.
  induction l as [| x l IH]; simpl; [done |].
  rewrite !filter_cons. destruct (P (f x)) eqn:HP.
  - rewrite !decide_True by (by apply Is_true_true_2). simpl. by rewrite IH.
  - rewrite !decide_False by (by apply Is_true_false_2). done.
Qed.

Lemma unique_keys_matches right lon ron l :
  unique_keys ron (rows right) → length (matches right lon ron l) ≤ 1.
Proof.
  intros Hu. unfold matches.
  rewrite (filter_length_map (fun r => cell_at r ron)
             (fun k => key_eqb (cell_at l lon) k)).
  apply Hu.
Qed.

Lemma join_singletons {A B} (f : A → list B) (g : A → B) (l : list A) :
  (∀ x, x ∈ l → f x = [g x]) → mjoin (map f l) = map g l.
Proof.
  induction l as [| x l IH]; intros Hf; simpl; [done |].
  rewrite Hf by left. simpl. f_equal. apply IH. intros y Hy. apply Hf. by right.
Qed.

(** When the keys of the right table are pairwise different, a left row
    gives one row. *)
Lemma merge_row_single left right lon ron l :
  unique_keys ron (rows right) →
  ∃ x, merge_row left right lon ron l = [x].
Proof.
  intros Hu%(unique_keys_matches right lon ron l). unfold merge_row.
  destruct (matches right lon ron l) as [| r [| r' ms]];
    [by eexists | by eexists | simpl in Hu; lia].
Qed.

Lemma merge_inv left right lon ron out :
  merge left right lon ron = Ok out →
  lon ∈ columns left ∧ ron ∈ columns right
  ∧ merge_keys_ok (map (fun r => cell_at r lon) (rows left))
                  (map (fun r => cell_at r ron) (rows right)) = true
  ∧ NoDup (merge_labels left right lon ron)
  ∧ out = {| columns := merge_labels left right lon ron;
             rows := mjoin (map (merge_row left right lon ron) (rows left)) |}.
Proof.
  unfold merge, get_col. intros Hm.
  destruct (has_column left lon) eqn:Hl; [| done].
  destruct (has_column right ron) eqn:Hr; [| done].
  simpl in Hm.
  destruct (merge_keys_ok _ _) eqn:Hk; [| done]. simpl in Hm.
  destruct (bool_decide (NoDup _)) eqn:Hn; [| done]. simpl in Hm.
  apply has_column_spec in Hl, Hr. apply bool_decide_eq_true in Hn.
  injection Hm as <-. done.
Qed.

Lemma merge_Ok left right lon ron :
  lon ∈ columns left → ron ∈ columns right →
  merge_keys_ok (map (fun r => cell_at r lon) (rows left))
                (map (fun r => cell_at r ron) (rows right)) = true →
  NoDup (merge_labels left right lon ron) →
  merge left right lon ron
  = Ok {| columns := merge_labels left right lon ron;
          rows := mjoin (map (merge_row left right lon ron) (rows left)) |}.
Proof.
  intros Hl%has_column_spec Hr%has_column_spec Hk Hn.
  unfold merge, get_col. rewrite Hl, Hr. simpl. rewrite Hk. simpl.
  by rewrite bool_decide_eq_true_2.
Qed.

(** A left merge on a right table with pairwise different keys keeps the
    number of rows. *)
Lemma merge_len left right lon ron out :
  merge left right lon ron = Ok out → unique_keys ron (rows right) →
  len out = len left.
Proof.
  intros (_ & _ & _ & _ & ->)%merge_inv Hu. unfold len. simpl.
  induction (rows left) as [| l ls IH]; simpl; [done |].
  destruct (merge_row_single left right lon ron l Hu) as [x ->].
  simpl. by rewrite IH.
Qed.

(** *** Tables with different labels *)

Lemma filter_nil_Forall {A} (P : A → Prop) `{∀ x, Decision (P x)} (l : list A) :
  Forall (fun x => ¬ P x) l → filter P l = [].
Proof.
  induction 1 as [| x l Hx _ IH]; [done |]. by rewrite filter_cons_False.
Qed.

Lemma overlap_disjoint left right lon ron :
  lon ≠ ron → disjoint_labels (columns left) (columns right) →
  right_labels right lon ron = columns right
  ∧ overlap left right lon ron = [].
Proof.
  intros Hne%String.eqb_neq Hd. unfold overlap, right_labels. rewrite Hne.
  split; [done |]. apply filter_nil_Forall. apply Forall_forall. apply Hd.
Qed.

Lemma merge_labels_disjoint left right lon ron :
  lon ≠ ron → disjoint_labels (columns left) (columns right) →
  merge_labels left right lon ron = columns left ++ columns right.
Proof.
  intros Hne Hd. unfold merge_labels.
  destruct (overlap_disjoint left right lon ron Hne Hd) as [-> ->].
  by rewrite !map_suffix_nil.
Qed.

Lemma merge_row_disjoint left right lon ron l :
  lon ≠ ron → disjoint_labels (columns left) (columns right) →
  unique_keys ron (rows right) →
  merge_row left right lon ron l
  = [project id (columns left) l ∪ right_part right lon ron l].
Proof.
  intros Hne Hd Hu%(unique_keys_matches right lon ron l).
  unfold merge_row, right_part.
  destruct (overlap_disjoint left right lon ron Hne Hd) as [-> ->].
  rewrite map_suffix_nil, project_suffix_nil.
  destruct (matches right lon ron l) as [| r [| r' ms]];
    [done | | simpl in Hu; lia].
  simpl. by rewrite project_suffix_nil.
Qed.

(** The rows of a left merge of two tables with different labels, the
    right one with pairwise different keys. *)
Lemma merge_rows_disjoint left right lon ron out :
  merge left right lon ron = Ok out →
  lon ≠ ron → disjoint_labels (columns left) (columns right) →
  unique_keys ron (rows right) →
  columns out = columns left ++ columns right
  ∧ rows out = map (fun l => project id (columns left) l
                             ∪ right_part right lon ron l) (rows left).
Proof.
  intros (_ & _ & _ & _ & ->)%merge_inv Hne Hd Hu. simpl.
  split; [by apply merge_labels_disjoint |].
  apply join_singletons. intros l _. by apply merge_row_disjoint.
Qed.

Lemma lookup_right_part right lon ron l c :
  right_part right lon ron l !! c
  = if decide (c ∈ columns right)
    then Some (match matches right lon ron l with
               | [] => NaN
               | r :: _ => cell_at r c
               end)
    else None.
Proof.
  unfold right_part. destruct (matches right lon ron l) as [| r ms].
  - apply lookup_nan_row.
  - apply lookup_project_id.
Qed.

Lemma cell_at_merged_left left right lon ron l c :
  c ∈ columns left →
  cell_at (project id (columns left) l ∪ right_part right lon ron l) c
  = cell_at l c.
Proof.
  intros Hc. rewrite cell_at_union_l.
  - by apply cell_at_project_id.
  - rewrite lookup_project_id, decide_True by done. by eexists.
Qed.

Lemma lookup_merged_left left right lon ron l c :
  c ∈ columns left →
  (project id (columns left) l ∪ right_part right lon ron l) !! c
  = Some (cell_at l c).
Proof.
  intros Hc. apply lookup_union_Some_l.
  by rewrite lookup_project_id, decide_True.
Qed.

Lemma lookup_merged_right left right lon ron l c :
  c ∉ columns left → c ∈ columns right →
  (project id (columns left) l ∪ right_part right lon ron l) !! c
  = Some (match matches right lon ron l with
          | [] => NaN
          | r :: _ => cell_at r c
          end).
Proof.
  intros Hl Hr. rewrite lookup_union_r.
  - by rewrite lookup_right_part, decide_True.
  - by rewrite lookup_project_id, decide_False.
Qed.

Lemma project_id_fixed (cols : list string) (m : gmap string cell) :
  (∀ c, is_Some (m !! c) ↔ c ∈ cols) → project id cols m = m.
Proof.
  intros Hdom. apply map_eq. intros c. rewrite lookup_project_id.
  destruct (decide (c ∈ cols)) as [Hc | Hc].
  - apply Hdom in Hc as [v Hv]. unfold cell_at. by rewrite Hv.
  - destruct (m !! c) eqn:Hm; [| done]. exfalso. apply Hc, Hdom. by eexists.
Qed.

Lemma is_Some_merged left right lon ron l c :
  is_Some ((project id (columns left) l ∪ right_part right lon ron l) !! c)
  ↔ c ∈ columns left ++ columns right.
Proof.
  rewrite elem_of_app, lookup_union_is_Some.
  rewrite lookup_project_id, lookup_right_part.
  destruct (decide (c ∈ columns left)) as [Hl | Hl],
           (decide (c ∈ columns right)) as [Hr | Hr];
    split; intros [Hc | Hc];
    solve [ by left | by right | left; by eexists | right; by eexists
          | by destruct Hc ].
Qed.

Lemma right_part_key right lon ron l l' :
  cell_at l lon = cell_at l' lon →
  right_part right lon ron l = right_part right lon ron l'.
Proof. intros Hk. unfold right_part, matches. by rewrite Hk. Qed.


Lemma disjoint_labels_app a b c :
  disjoint_labels a c → disjoint_labels b c → disjoint_labels (a ++ b) c.
Proof. intros Ha Hb x [Hx | Hx]%elem_of_app; auto. Qed.


(** The rows of two successive merges onto a table, all labels
    different and the keys of the right tables pairwise different. *)
Lemma merge_twice g i1 i2 lon k1 k2 a1 a :
  unique_keys k1 (rows i1) → unique_keys k2 (rows i2) →
  disjoint_labels (columns g) (columns i1) →
  disjoint_labels (columns g) (columns i2) →
  disjoint_labels (columns i1) (columns i2) →
  merge g i1 lon k1 = Ok a1 → merge a1 i2 lon k2 = Ok a →
  columns a = (columns g ++ columns i1) ++ columns i2
  ∧ NoDup (columns a)
  ∧ map (fun r => cell_at r lon) (rows a1) = map (fun r => cell_at r lon) (rows g)
  ∧ rows a = map (fun l => (project id (columns g) l ∪ right_part i1 lon k1 l)
                           ∪ right_part i2 lon k2 l) (rows g).
Proof.
  intros Hu1 Hu2 Hd1 Hd2 Hd12 H1 H2.
  destruct (merge_inv _ _ _ _ _ H1) as (Hlon & Hk1 & _ & _ & _).
  assert (Hne1 : lon ≠ k1) by (intros ->; by apply (Hd1 k1)).
  destruct (merge_rows_disjoint _ _ _ _ _ H1 Hne1 Hd1 Hu1) as [Hc1 Hr1].
  destruct (merge_inv _ _ _ _ _ H2) as (_ & Hk2 & _ & Hnd & _).
  assert (Hne2 : lon ≠ k2) by (intros ->; by apply (Hd2 k2)).
  assert (Hd : disjoint_labels (columns a1) (columns i2)).
  { rewrite Hc1. by apply disjoint_labels_app. }
  destruct (merge_rows_disjoint _ _ _ _ _ H2 Hne2 Hd Hu2) as [Hc2 Hr2].
  rewrite merge_labels_disjoint in Hnd by done.
  split_and!.
  - by rewrite Hc2, Hc1.
  - by rewrite Hc2.
  - rewrite Hr1, map_map. apply map_ext. intros l.
    by apply cell_at_merged_left.
  - rewrite Hr2, Hr1, map_map, Hc1. apply map_ext. intros l. f_equal.
    + apply project_id_fixed. intros c. apply is_Some_merged.
    + apply right_part_key. by apply cell_at_merged_left.
Qed.


(** ** The statements of the scripts *)

Lemma zip_with_map_l {A B C} (f : A → B → C) (g : A → B) (l : list A) :
  zip_with f l (map g l) = map (fun x => f x (g x)) l.
Proof. induction l; simpl; [done | by f_equal]. Qed.

Lemma get_col_inv c df s :
  get_col c df = Ok s → c ∈ columns df ∧ s = map (fun r => cell_at r c) (rows df).
Proof.
  unfold get_col. destruct (has_column df c) eqn:Hc; [| done].
  intros [= <-]. by apply has_column_spec in Hc.
Qed.

(** [df[c'] = f(df[c])] element by element. *)
Lemma set_col_map c c' (f : cell → cell) df s :
  get_col c df = Ok s →
  set_col c' (map f s) df
  = Ok {| columns := if has_column df c' then columns df
                     else columns df ++ [c'];
          rows := map (fun r => <[c' := f (cell_at r c)]> r) (rows df) |}.
Proof.
  intros [_ ->]%get_col_inv. unfold set_col, len.
  rewrite !length_map, Nat.eqb_refl. do 2 f_equal.
  rewrite map_map. apply (zip_with_map_l (fun r v => <[c' := v]> r)).
Qed.

Lemma standardize_inv `{FloatRepr} c df out :
  standardize c df = Ok out →
  c ∈ columns df
  ∧ out = {| columns := columns df;
             rows := map (fun r => <[c := Str (normalize (cell_at r c))]> r)
                         (rows df) |}.
Proof.
  unfold standardize. intros Hs. inv_bind Hs.
  rewrite astype_str_zfill in Hs. rewrite (set_col_map _ _ _ _ _ Hx) in Hs.
  apply get_col_inv in Hx as [Hc _]. split; [done |].
  injection Hs as <-. by rewrite (proj2 (has_column_spec _ _) Hc).
Qed.

Lemma standardize_Ok `{FloatRepr} c df :
  c ∈ columns df → is_Ok (standardize c df).
Proof.
  intros Hc%has_column_spec. unfold standardize, get_col. rewrite Hc. simpl.
  unfold set_col, str_zfill, astype_str, len.
  rewrite !length_map, Nat.eqb_refl. by eexists.
Qed.

Lemma encode_column_inv src dst df out :
  encode_column src dst df = Ok out →
  src ∈ columns df
  ∧ out = {| columns := if has_column df dst then columns df
                        else columns df ++ [dst];
             rows := map (fun r => <[dst := encode (cell_at r src)]> r)
                         (rows df) |}.
Proof.
  unfold encode_column, apply. intros Hs. inv_bind Hs.
  rewrite (set_col_map _ _ _ _ _ Hx) in Hs.
  apply get_col_inv in Hx as [Hc _]. split; [done |]. by injection Hs as <-.
Qed.

(** The water table after cleaning: each row has its code standardised
    and its two conformity codes encoded. *)
Lemma clean_water_inv `{FloatRepr} w0 w :
  clean_water w0 = Ok w →
  rows w = map (fun r =>
             <["chemical_conformity" := encode (cell_at r "plvconformitechimique")]>
             (<["bacterio_conformity" := encode (cell_at r "plvconformitebacterio")]>
              (<["inseecommune" := Str (normalize (cell_at r "inseecommune"))]> r)))
             (rows w0)
  ∧ "inseecommune" ∈ columns w ∧ "bacterio_conformity" ∈ columns w
  ∧ "chemical_conformity" ∈ columns w.
Proof.
  unfold clean_water. intros Hc. inv_bind Hc.
  apply standardize_inv in Hx as [Hk ->].
  apply encode_column_inv in Hx0 as [_ ->].
  apply encode_column_inv in Hc as [_ ->]. simpl.
  split.
  - rewrite !map_map. apply map_ext. intros r. unfold cell_at.
    by rewrite !lookup_insert_ne by done.
  - assert (Hb : "bacterio_conformity"
                 ∈ (if has_column {| columns := columns w0; rows :=
                        map (fun r => <["inseecommune" :=
                               Str (normalize (cell_at r "inseecommune"))]> r)
                            (rows w0) |} "bacterio_conformity"
                    then columns w0 else columns w0 ++ ["bacterio_conformity"])).
    { destruct (has_column _ _) eqn:Hh.
      - by apply has_column_spec in Hh.
      - apply elem_of_app. right. left. }
    assert (Hk' : "inseecommune"
                 ∈ (if has_column {| columns := columns w0; rows :=
                        map (fun r => <["inseecommune" :=
                               Str (normalize (cell_at r "inseecommune"))]> r)
                            (rows w0) |} "bacterio_conformity"
                    then columns w0 else columns w0 ++ ["bacterio_conformity"])).
    { destruct (has_column _ _); [done | apply elem_of_app; by left]. }
    destruct (has_column _ "chemical_conformity") eqn:Hh.
    + apply has_column_spec in Hh. simpl in Hh. done.
    + split_and!; try (apply elem_of_app; by left).
      apply elem_of_app. right. left.
Qed.

(** The rent means of final.py after the renaming of the value
    column. *)
Lemma rename_rent agg :
  columns agg = ["INSEE_C"; "loypredm2"] →
  columns (rename "loypredm2" "mean_loypredm2" agg)
  = ["INSEE_C"; "mean_loypredm2"]
  ∧ rows (rename "loypredm2" "mean_loypredm2" agg)
    = map (fun r => <["INSEE_C" := cell_at r "INSEE_C"]>
                    (<["mean_loypredm2" := cell_at r "loypredm2"]> ∅))
          (rows agg).
Proof. intros Hc. unfold rename. rewrite Hc. simpl. done. Qed.

(** ** The run of final.py *)

(** The steps of a successful run of final.py without population
    file. *)
Lemma main_inv `{FloatRepr} wf gj rf self' :
  Final.main (Final.init wf gj rf None) = Ok self' →
  ∃ w0 w agg R ragg g1 g',
    concat wf = Ok w0 ∧ clean_water w0 = Ok w ∧ water_aggregate w = Ok agg
    ∧ concat rf = Ok R ∧ groupby_mean "INSEE_C" ["loypredm2"] R = Ok ragg
    ∧ "codgeo" ∈ columns gj
    ∧ merge (standardized "codgeo" gj) agg "codgeo" "inseecommune" = Ok g1
    ∧ merge g1 (rename "loypredm2" "mean_loypredm2" ragg) "codgeo" "INSEE_C"
      = Ok g'
    ∧ Final.geo_data self' = Some g'.
Proof.
  unfold Final.main. intros Hm. inv_bind Hm.
  unfold Final.load_water_data in Hx. inv_bind Hx. injection Hx as <-.
  unfold Final.clean_water_data in Hx0. simpl in Hx0. inv_bind Hx0.
  injection Hx0 as <-.
  unfold Final.load_geo_data in Hx1. simpl in Hx1. inv_bind Hx1.
  injection Hx1 as <-. apply standardize_inv in Hx0 as [Hcod ->].
  unfold Final.load_rent_data in Hx2. simpl in Hx2. inv_bind Hx2.
  injection Hx2 as <-.
  unfold Final.load_population_data in Hx3. simpl in Hx3.
  injection Hx3 as <-.
  unfold Final.merge_data in Hm. simpl in Hm. inv_bind Hm.
  injection Hm as <-. simpl.
  repeat eexists; eauto.
Qed.

Lemma water_aggregate_columns w agg :
  water_aggregate w = Ok agg →
  columns agg = ["inseecommune"; "bacterio_conformity"; "chemical_conformity"].
Proof. intros Hg. by apply groupby_mean_inv in Hg as (-> & _). Qed.

Lemma rename_rent_unique agg :
  columns agg = ["INSEE_C"; "loypredm2"] →
  unique_keys "INSEE_C" (rows agg) →
  unique_keys "INSEE_C" (rows (rename "loypredm2" "mean_loypredm2" agg)).
Proof.
  intros Hc%rename_rent Hu. destruct Hc as [_ ->]. unfold unique_keys in *.
  rewrite map_map. erewrite map_ext; [exact Hu |]. by intros r.
Qed.

(** ** The Geometry Join (C3) *)

Lemma disjoint_indicator_labels (cols : list string) :
  disjoint_labels cols indicator_labels →
  disjoint_labels cols water_labels ∧ disjoint_labels cols rent_labels.
Proof.
  intros Hd. split; intros c Hc Hin; apply (Hd c Hc); apply elem_of_app; auto.
Qed.

(** A row of the aggregate with the key of a left row has a row of the
    table behind it. *)
Lemma matches_aggregate key vals df agg lon l :
  groupby_mean key vals df = Ok agg →
  rows_of_key key (cell_at l lon) (rows df) = [] →
  matches agg lon key l = [].
Proof.
  intros Hg Hnone. unfold matches.
  apply filter_nil_Forall. apply Forall_forall. intros row Hrow Hk.
  apply Is_true_true in Hk.
  apply groupby_mean_inv in Hg as (_ & _ & _ & gs & Hp & Hf).
  apply list_elem_of_lookup in Hrow as [i Hi].
  destruct (Forall2_lookup_r _ _ _ _ _ Hf Hi) as (g & Hgi & Hgrow).
  destruct (group_rows_ok key (rows df)) as (Hg & _ & _).
  assert (Hgo : group_of key (rows df) g).
  { eapply Forall_forall; [exact Hg |]. rewrite <- Hp.
    by eapply list_elem_of_lookup_2. }
  destruct Hgo as (_ & Hne & Hg2). apply Hne. rewrite Hg2.
  rewrite (mean_row_key _ _ _ _ Hgrow) in Hk.
  unfold rows_of_key in *. apply filter_nil_Forall.
  apply Forall_forall. intros r Hr Hgr. apply Is_true_true in Hgr.
  assert (Hin : r ∈ filter (fun r => key_eqb (cell_at l lon) (cell_at r key))
                           (rows df)).
  { apply list_elem_of_filter. split; [| done]. apply Is_true_true.
    by eapply key_eqb_trans. }
  rewrite Hnone in Hin. by apply not_elem_of_nil in Hin.
Qed.

Lemma disjoint_labels_check (a b : list string) :
  forallb (fun c => negb (bool_decide (c ∈ b))) a = true → disjoint_labels a b.
Proof.
  intros Hf c Hc Hb. rewrite forallb_forall in Hf.
  apply list_elem_of_In, Hf, negb_true_iff, bool_decide_eq_false in Hc. done.
Qed.

Lemma water_rent_labels_disjoint : disjoint_labels water_labels rent_labels.
Proof. by apply disjoint_labels_check. Qed.

Lemma cell_at_insert_eq (r : gmap string cell) c v : cell_at (<[c := v]> r) c = v.
Proof. unfold cell_at. by rewrite lookup_insert_eq. Qed.

Lemma cell_at_insert_ne (r : gmap string cell) c c' v :
  c ≠ c' → cell_at (<[c := v]> r) c' = cell_at r c'.
Proof. intros Hne. unfold cell_at. by rewrite lookup_insert_ne. Qed.

Lemma matches_rename_rent ragg lon l :
  columns ragg = ["INSEE_C"; "loypredm2"] →
  matches ragg lon "INSEE_C" l = [] →
  matches (rename "loypredm2" "mean_loypredm2" ragg) lon "INSEE_C" l = [].
Proof.
  intros [_ Hr]%rename_rent Hm. unfold matches in *. rewrite Hr.
  apply filter_nil_Forall. apply Forall_forall.
  intros r' (r & -> & Hin)%list_elem_of_fmap Hk.
  assert (Hin' : r ∈ filter (fun r => key_eqb (cell_at l lon) (cell_at r "INSEE_C"))
                            (rows ragg)).
  { apply list_elem_of_filter. split; [| done]. exact Hk. }
  rewrite Hm in Hin'. by apply not_elem_of_nil in Hin'.
Qed.

Lemma Forall2_map_same {A B} (P : A → B → Prop) (f : A → B) (l : list A) :
  (∀ x, x ∈ l → P x (f x)) → Forall2 P l (map f l).
Proof.
  induction l as [| x l IH]; intros Hp; simpl; constructor.
  - apply Hp. left.
  - apply IH. intros y Hy. apply Hp. by right.
Qed.

(** The merged table of a run of final.py without population file, when
    the geometry table has none of the indicator labels. *)
Lemma main_rows `{FloatRepr} wf gj rf self' :
  Final.main (Final.init wf gj rf None) = Ok self' →
  disjoint_labels (columns gj) indicator_labels →
  ∃ w0 w agg R ragg merged,
    concat wf = Ok w0 ∧ clean_water w0 = Ok w ∧ water_aggregate w = Ok agg
    ∧ concat rf = Ok R ∧ groupby_mean "INSEE_C" ["loypredm2"] R = Ok ragg
    ∧ Final.geo_data self' = Some merged
    ∧ columns merged = (columns gj ++ water_labels) ++ rent_labels
    ∧ rows merged
      = map (fun l =>
               let l' := <["codgeo" := Str (normalize (cell_at l "codgeo"))]> l in
               (project id (columns gj) l'
                ∪ right_part agg "codgeo" "inseecommune" l')
               ∪ right_part (rename "loypredm2" "mean_loypredm2" ragg)
                            "codgeo" "INSEE_C" l') (rows gj).
Proof.
  intros Hm Hd.
  destruct (main_inv _ _ _ _ Hm)
    as (w0 & w & agg & R & ragg & g1 & g' & Hw0 & Hw & Hagg & HR & Hragg
        & Hcod & Hg1 & Hg' & Hgeo).
  exists w0, w, agg, R, ragg, g'.
  pose proof (water_aggregate_columns _ _ Hagg) as Hca.
  pose proof (groupby_mean_unique _ _ _ _ Hagg) as Hua.
  pose proof (groupby_mean_unique _ _ _ _ Hragg) as Hur.
  destruct (groupby_mean_inv _ _ _ _ Hragg) as (Hcr & _).
  destruct (rename_rent _ Hcr) as [Hcr' _].
  apply rename_rent_unique in Hur; [| done].
  apply disjoint_indicator_labels in Hd as [Hdw Hdr].
  destruct (merge_twice (standardized "codgeo" gj) agg
              (rename "loypredm2" "mean_loypredm2" ragg)
              "codgeo" "inseecommune" "INSEE_C" g1 g') as (Hc & _ & _ & Hr);
    try done.
  { by rewrite Hca. }
  { by rewrite Hcr'. }
  { rewrite Hca, Hcr'. apply water_rent_labels_disjoint. }
  split_and!; try done.
  - by rewrite Hc, Hca, Hcr'.
  - rewrite Hr. simpl. by rewrite map_map.
Qed.

(** C3.  The merged table of final.py has as many rows as the geometry
    table, whatever the water and rent tables hold.  When the geometry
    table has none of the indicator labels, the rows of the merged table
    are the rows of the geometry table in their order, each with its
    cells (the code standardised); a row whose code has no water record
    holds an explicit missing value at each water label, and a row whose
    code has no rent record holds an explicit missing value at each rent
    label. *)
Theorem geometry_join_rows `{FloatRepr} (water_files rent_files : list DataFrame)
  (geojson : DataFrame) (self' : Final.DataProcessor) :
  Final.main (Final.init water_files geojson rent_files None) = Ok self' →
  ∃ merged w R,
    Final.geo_data self' = Some merged
    ∧ (w0 ← concat water_files; clean_water w0) = Ok w
    ∧ concat rent_files = Ok R
    ∧ len merged = len geojson
    ∧ (disjoint_labels (columns geojson) indicator_labels →
       Forall2 (fun l r' =>
           let code := Str (normalize (cell_at l "codgeo")) in
           (∀ c, c ∈ columns geojson →
                 r' !! c = Some (cell_at (<["codgeo" := code]> l) c))
           ∧ (rows_of_key "inseecommune" code (rows w) = [] →
                Forall (fun c => r' !! c = Some NaN) water_labels)
           ∧ (rows_of_key "INSEE_C" code (rows R) = [] →
                Forall (fun c => r' !! c = Some NaN) rent_labels))
         (rows geojson) (rows merged)).
Proof.
  intros Hm.
  destruct (main_inv _ _ _ _ Hm)
    as (w0 & w & agg & R & ragg & g1 & g' & Hw0 & Hw & Hagg & HR & Hragg
        & Hcod & Hg1 & Hg' & Hgeo).
  exists g', w, R. split_and!; [done | by rewrite Hw0 | done | |].
  - pose proof (groupby_mean_unique _ _ _ _ Hagg) as Hua.
    pose proof (groupby_mean_unique _ _ _ _ Hragg) as Hur.
    destruct (groupby_mean_inv _ _ _ _ Hragg) as (Hcr & _).
    apply rename_rent_unique in Hur; [| done].
    rewrite (merge_len _ _ _ _ _ Hg' Hur), (merge_len _ _ _ _ _ Hg1 Hua).
    unfold len, standardized. simpl. by rewrite length_map.
  - intros Hd.
    destruct (main_rows _ _ _ _ Hm Hd)
      as (w0' & w' & agg' & R' & ragg' & merged & Hw0' & Hw' & Hagg' & HR'
          & Hragg' & Hgeo' & Hcols & Hrows).
    assert (w0' = w0) as -> by congruence.
    assert (w' = w) as -> by congruence.
    assert (agg' = agg) as -> by congruence.
    assert (R' = R) as -> by congruence.
    assert (ragg' = ragg) as -> by congruence.
    assert (merged = g') as -> by congruence.
    pose proof (water_aggregate_columns _ _ Hagg) as Hca.
    destruct (groupby_mean_inv _ _ _ _ Hragg) as (Hcr & _).
    destruct (rename_rent _ Hcr) as [Hcr' _].
    apply disjoint_indicator_labels in Hd as [Hdw Hdr].
    rewrite Hrows. apply Forall2_map_same. intros l _. simpl.
    set (l' := <["codgeo" := Str (normalize (cell_at l "codgeo"))]> l).
    split_and!.
    + intros c Hc. apply lookup_union_Some_l.
      by apply (lookup_merged_left (standardized "codgeo" geojson)).
    + intros Hnone.
      assert (Hmt : matches agg "codgeo" "inseecommune" l' = []).
      { eapply matches_aggregate; [exact Hagg |].
        unfold l'. by rewrite cell_at_insert_eq. }
      apply Forall_forall. intros c Hc. apply lookup_union_Some_l.
      rewrite (lookup_merged_right (standardized "codgeo" geojson)).
      * by rewrite Hmt.
      * intros Hin. by apply (Hdw c).
      * by rewrite Hca.
    + intros Hnone.
      assert (Hmt : matches (rename "loypredm2" "mean_loypredm2" ragg)
                            "codgeo" "INSEE_C" l' = []).
      { apply matches_rename_rent; [done |].
        eapply matches_aggregate; [exact Hragg |].
        unfold l'. by rewrite cell_at_insert_eq. }
      apply Forall_forall. intros c Hc. rewrite lookup_union_r.
      * rewrite lookup_right_part, Hcr', decide_True by done. by rewrite Hmt.
      * apply eq_None_not_Some.
        rewrite (is_Some_merged (standardized "codgeo" geojson)).
        simpl. rewrite Hca. intros [Hin | Hin]%elem_of_app.
        -- by apply (Hdr c).
        -- by apply (water_rent_labels_disjoint c).
Qed.

(** ** The conformity rate of a commune with water records (C10) *)

Lemma filter_map_comm {A B} (F : A → B) (P : B → Prop) (Q : A → Prop)
  `{∀ y, Decision (P y)} `{∀ x, Decision (Q x)} (l : list A) :
  (∀ x, P (F x) ↔ Q x) → filter P (map F l) = map F (filter Q l).
Proof.
  intros HPQ. induction l as [| x l IH]; simpl; [done |].
  rewrite !filter_cons. destruct (decide (Q x)) as [Hq | Hq].
  - rewrite decide_True by (by apply HPQ). simpl. by rewrite IH.
  - rewrite decide_False by (by rewrite HPQ). done.
Qed.

(** The rows of the cleaned water table with a code are the cleaned
    records of the code. *)
Lemma rows_of_key_cleaned `{FloatRepr} w0 w code :
  clean_water w0 = Ok w →
  rows_of_key "inseecommune" (Str code) (rows w)
  = map (fun r =>
      <["chemical_conformity" := encode (cell_at r "plvconformitechimique")]>
      (<["bacterio_conformity" := encode (cell_at r "plvconformitebacterio")]>
       (<["inseecommune" := Str (normalize (cell_at r "inseecommune"))]> r)))
      (water_records code w0).
Proof.
  intros (-> & _)%clean_water_inv. unfold rows_of_key, water_records.
  apply filter_map_comm. intros x.
  rewrite !cell_at_insert_ne, cell_at_insert_eq by done. simpl.
  rewrite Is_true_true, String.eqb_eq. split; by intros ->.
Qed.

Lemma present_encode (s : Series) :
  present (map encode s)
  = map (fun c => if py_eq c (Str "C") then 1%Q else 0%Q) s.
Proof.
  unfold present. induction s as [| c s IH]; [done |].
  change (omap num_val (encode c :: map encode s)
          = (if py_eq c (Str "C") then 1%Q else 0%Q)
            :: map (fun c => if py_eq c (Str "C") then 1%Q else 0%Q) s).
  rewrite <- IH. unfold encode at 1. by destruct (py_eq c (Str "C")).
Qed.

Lemma Qsum_zeros (l : list Q) : Forall (fun q => q = 0%Q) l → (Qsum l == 0)%Q.
Proof.
  induction 1 as [| q l -> _ IH]; simpl; [reflexivity |].
  rewrite IH. reflexivity.
Qed.

(** The mean of encoded codes is a number, and it is 0 when no code is
    ["C"]. *)
Lemma mean_of_encoded (s : Series) :
  s ≠ [] →
  ∃ q, mean_of_present (map encode s) = Num q
       ∧ (Forall (fun c => c ≠ Str "C") s → q = 0%Q).
Proof.
  intros Hs. unfold mean_of_present. rewrite present_encode.
  destruct s as [| c s]; [done |]. simpl map at 1. cbv iota.
  eexists. split; [reflexivity |].
  intros Hall. change 0%Q with (Qred 0). apply Qred_complete.
  rewrite Qsum_zeros; [reflexivity |].
  apply Forall_fmap. eapply Forall_impl; [exact Hall |].
  intros x Hx. simpl. pose proof (encode_other x Hx) as He.
  unfold encode in He. by destruct (py_eq x (Str "C")).
Qed.

(** C10.  In the merged table of final.py, a commune with at least one
    water record has a conformity rate that is not missing, for the
    bacteriological and for the chemical conformity, because the encoder
    gives 0 or 1 for every record; the rate is 0 when no record of the
    commune has the code ["C"], in particular when all its codes are
    missing. *)
Theorem conformity_rate_never_missing `{FloatRepr}
  (water_files rent_files : list DataFrame) (geojson : DataFrame)
  (self' : Final.DataProcessor) :
  Final.main (Final.init water_files geojson rent_files None) = Ok self' →
  disjoint_labels (columns geojson) indicator_labels →
  ∃ w0 merged,
    concat water_files = Ok w0 ∧ Final.geo_data self' = Some merged
    ∧ Forall2 (fun l r' =>
        let records := water_records (normalize (cell_at l "codgeo")) w0 in
        records ≠ [] →
        ∃ qb qc,
          r' !! "bacterio_conformity" = Some (Num qb)
          ∧ r' !! "chemical_conformity" = Some (Num qc)
          ∧ (Forall (fun x => cell_at x "plvconformitebacterio" ≠ Str "C")
                    records → qb = 0%Q)
          ∧ (Forall (fun x => cell_at x "plvconformitechimique" ≠ Str "C")
                    records → qc = 0%Q)
          ∧ (Forall (fun x => cell_at x "plvconformitebacterio" = NaN)
                    records → qb = 0%Q)
          ∧ (Forall (fun x => cell_at x "plvconformitechimique" = NaN)
                    records → qc = 0%Q))
        (rows geojson) (rows merged).
Proof.
  intros Hm Hd.
  destruct (main_rows _ _ _ _ Hm Hd)
    as (w0 & w & agg & R & ragg & merged & Hw0 & Hw & Hagg & HR
        & Hragg & Hgeo & Hcols & Hrows).
  exists w0, merged. split_and!; [done | done |].
  pose proof (water_aggregate_columns _ _ Hagg) as Hca.
  apply disjoint_indicator_labels in Hd as [Hdw Hdr].
  rewrite Hrows. apply Forall2_map_same. intros l _. simpl.
  set (code := normalize (cell_at l "codgeo")).
  set (l' := <["codgeo" := Str code]> l).
  intros Hrec.
  pose proof (rows_of_key_cleaned _ _ code Hw) as Hgroup.
  set (clean := fun r : gmap string cell => _) in Hgroup.
  (* a record of the commune gives a row of the aggregate *)
  destruct (water_records code w0) as [| x xs] eqn:Hxs; [done |].
  assert (Hx : clean x ∈ rows w).
  { assert (Hin : clean x ∈ rows_of_key "inseecommune" (Str code) (rows w)).
    { rewrite Hgroup. left. }
    by apply list_elem_of_filter in Hin as [_ Hin]. }
  assert (Hkx : cell_at (clean x) "inseecommune" = Str code).
  { assert (Hin : x ∈ water_records code w0) by (rewrite Hxs; left).
    apply list_elem_of_filter in Hin as [Hn _]. unfold clean.
    rewrite !cell_at_insert_ne, cell_at_insert_eq by done. by rewrite Hn. }
  destruct (groupby_mean_complete _ _ _ _ _ Hagg Hx) as (row & Hrow & Hk).
  { by rewrite Hkx. }
  rewrite Hkx in Hk.
  assert (Hmt : ∃ row' ms, matches agg "codgeo" "inseecommune" l' = row' :: ms).
  { destruct (matches agg "codgeo" "inseecommune" l') as [| row' ms] eqn:Hmt;
      [| by eauto].
    assert (Hin : row ∈ matches agg "codgeo" "inseecommune" l').
    { apply list_elem_of_filter. split; [| done]. apply Is_true_true.
      unfold l'. rewrite cell_at_insert_eq. by rewrite key_eqb_sym. }
    rewrite Hmt in Hin. by apply not_elem_of_nil in Hin. }
  destruct Hmt as (row' & ms & Hmt).
  assert (Hrow' : row' ∈ rows agg ∧ cell_at row' "inseecommune" = Str code).
  { assert (Hin : row' ∈ matches agg "codgeo" "inseecommune" l')
      by (rewrite Hmt; left).
    apply list_elem_of_filter in Hin as [Hk' Hin]. split; [done |].
    apply Is_true_true in Hk'. unfold l' in Hk'.
    rewrite cell_at_insert_eq in Hk'. by apply key_eqb_Str in Hk'. }
  destruct Hrow' as [Hrow' Hkey'].
  destruct (groupby_mean_row _ _ _ _ _ Hagg Hrow') as (_ & _ & Hmeans).
  rewrite Hkey', Hgroup in Hmeans.
  assert (Hlook : ∀ c, c ∈ water_labels →
            ((project id (columns geojson) l'
              ∪ right_part agg "codgeo" "inseecommune" l')
             ∪ right_part (rename "loypredm2" "mean_loypredm2" ragg)
                          "codgeo" "INSEE_C" l') !! c
            = Some (cell_at row' c)).
  { intros c Hc. apply lookup_union_Some_l.
    rewrite (lookup_merged_right (standardized "codgeo" geojson)).
    - by rewrite Hmt.
    - intros Hin. by apply (Hdw c).
    - by rewrite Hca. }
  assert (Hval : ∀ src dst, dst ∈ ["bacterio_conformity"; "chemical_conformity"] →
            (∀ r, cell_at (clean r) dst = encode (cell_at r src)) →
            ∃ q, cell_at row' dst = Num q
                 ∧ (Forall (fun r => cell_at r src ≠ Str "C") (x :: xs) → q = 0%Q)).
  { intros src dst Hdst Hclean.
    destruct (mean_of_encoded (map (fun r => cell_at r src) (x :: xs)))
      as (q & Hq & Hzero); [done |].
    exists q. split.
    - unfold cell_at at 1. rewrite Hmeans by exact Hdst.
      rewrite map_map.
      erewrite map_ext; [| intros r; apply Hclean].
      rewrite <- (map_map (fun r => cell_at r src) encode). by rewrite Hq.
    - intros Hall. apply Hzero. by apply Forall_fmap. }
  destruct (Hval "plvconformitebacterio" "bacterio_conformity")
    as (qb & Hqb & Hzb).
  { left. }
  { intros r. unfold clean.
    by rewrite cell_at_insert_ne, cell_at_insert_eq by done. }
  destruct (Hval "plvconformitechimique" "chemical_conformity")
    as (qc & Hqc & Hzc).
  { right. left. }
  { intros r. unfold clean. by rewrite cell_at_insert_eq. }
  exists qb, qc. split_and!.
  - rewrite Hlook, Hqb; [done | right; left].
  - rewrite Hlook, Hqc; [done | right; right; left].
  - exact Hzb.
  - exact Hzc.
  - intros Hall. apply Hzb. eapply Forall_impl; [exact Hall |].
    by intros r ->.
  - intros Hall. apply Hzc. eapply Forall_impl; [exact Hall |].
    by intros r ->.
Qed.

(** ** The Correlation Analyzer (C9) *)

Lemma Qmult_comm_eq (x y : Q) : (x * y)%Q = (y * x)%Q.
Proof.
  destruct x as [a b], y as [c d]. unfold Qmult. simpl.
  f_equal; [apply Z.mul_comm | apply Pos.mul_comm].
Qed.

Lemma codeviation_swap (ps : list (Q * Q)) :
  codeviation (map swap ps) = codeviation ps.
Proof.
  unfold codeviation. rewrite !map_map. simpl.
  f_equal. apply map_ext. intros p. apply Qmult_comm_eq.
Qed.

Lemma pearson_swap (ps : list (Q * Q)) : pearson (map swap ps) = pearson ps.
Proof.
  unfold pearson. rewrite codeviation_swap, !map_map. simpl.
  rewrite (Qmult_comm_eq (codeviation (map (fun p => (p.2, p.2)) ps))).
  by destruct ps.
Qed.

Lemma observation_swap a b r :
  observation b a r
  = match observation a b r with
    | Ok o => Ok (swap <$> o)
    | Raise e => Raise e
    end.
Proof.
  unfold observation.
  destruct (cell_at r a) as [| z | q | s], (cell_at r b) as [| z' | q' | s'];
    reflexivity.
Qed.

Lemma mapR_observation_swap a b (rs : list (gmap string cell)) :
  mapR (observation b a) rs
  = match mapR (observation a b) rs with
    | Ok os => Ok (map (fmap swap) os)
    | Raise e => Raise e
    end.
Proof.
  induction rs as [| r rs IH]; simpl; [done |].
  rewrite observation_swap. destruct (observation a b r) as [o | e]; simpl;
    [| done].
  rewrite IH. by destruct (mapR (observation a b) rs).
Qed.

Lemma omap_swap (os : list (option (Q * Q))) :
  omap (fun o : option (Q * Q) => o) (map (fmap swap) os)
  = map swap (omap (fun o : option (Q * Q) => o) os).
Proof.
  induction os as [| [p |] os IH]; [done | |].
  - change (swap p :: omap (fun o : option (Q * Q) => o) (map (fmap swap) os)
            = swap p :: map swap (omap (fun o : option (Q * Q) => o) os)).
    by rewrite IH.
  - exact IH.
Qed.

Lemma observations_swap a b df :
  observations b a df
  = match observations a b df with
    | Ok ps => Ok (map swap ps)
    | Raise e => Raise e
    end.
Proof.
  unfold observations. rewrite mapR_observation_swap.
  destruct (mapR (observation a b) (rows df)) as [os | e]; simpl; [| done].
  by rewrite omap_swap.
Qed.

(** The coefficient of two columns does not depend on their order. *)
Lemma corr_entry_sym df a b : corr_entry df a b = corr_entry df b a.
Proof.
  unfold corr_entry. rewrite (observations_swap a b).
  destruct (observations a b df) as [ps | e]; simpl; [| done].
  by rewrite pearson_swap.
Qed.

Lemma mapR_lookup {A B} (f : A → result B) (l : list A) (ys : list B) i :
  mapR f l = Ok ys →
  ys !! i = match l !! i with
            | Some x => match f x with Ok y => Some y | Raise _ => None end
            | None => None
            end.
Proof.
  intros Hm%mapR_Forall2. revert i.
  induction Hm as [| x y l ys Hxy _ IH]; intros [| i]; simpl; try done.
  by rewrite Hxy.
Qed.

Lemma corr_entry_lookup df m i j :
  corr df = Ok m →
  entry m i j
  = match columns df !! i, columns df !! j with
    | Some a, Some b =>
        match corr_entry df a b with Ok x => Some x | Raise _ => None end
    | _, _ => None
    end.
Proof.
  intros Hm. unfold entry, corr in *.
  rewrite (mapR_lookup _ _ _ i Hm).
  destruct (columns df !! i) as [a |] eqn:Ha; [| done].
  apply mapR_Forall2 in Hm.
  destruct (Forall2_lookup_l _ _ _ _ _ Hm Ha) as (row & Hrow & Hf).
  rewrite Hf. rewrite (mapR_lookup _ _ _ j Hf).
  by destruct (columns df !! j).
Qed.

Lemma Qsum_nonneg (l : list Q) : Forall (fun q => (0 <= q)%Q) l → (0 <= Qsum l)%Q.
Proof.
  induction 1 as [| q l Hq _ IH]; simpl; [apply Qle_refl |].
  replace 0%Q with (0 + 0)%Q by reflexivity. by apply Qplus_le_compat.
Qed.

Lemma observations_diag c df ps :
  observations c c df = Ok ps → Forall (fun p => p.1 = p.2) ps.
Proof.
  unfold observations. intros Ho. inv_bind Ho. injection Ho as <-.
  apply mapR_Forall2 in Hx.
  induction Hx as [| r o rs os Hr _ IH]; simpl; [constructor |].
  unfold observation in Hr.
  destruct (cell_at r c) as [| z | q | s]; simpl in Hr; try done;
    injection Hr as <-; simpl; try done; by constructor.
Qed.

Lemma codeviation_diag_nonneg (ps : list (Q * Q)) :
  Forall (fun p => p.1 = p.2) ps → (0 <= codeviation ps)%Q.
Proof.
  intros Hd. unfold codeviation.
  assert (Hmap : map snd ps = map fst ps).
  { induction Hd as [| p ps Hp _ IH]; simpl; [done |]. by rewrite Hp, IH. }
  rewrite Hmap. apply Qsum_nonneg. apply Forall_fmap.
  eapply Forall_impl; [exact Hd |]. intros p Hp. simpl. rewrite <- Hp.
  generalize (p.1 - Qmean (map fst ps))%Q. intros x.
  unfold Qle, Qmult. simpl. rewrite Z.mul_1_r. apply Z.square_nonneg.
Qed.

Lemma diag_pairs (ps : list (Q * Q)) :
  Forall (fun p => p.1 = p.2) ps →
  map (fun p : Q * Q => (p.1, p.1)) ps = ps
  ∧ map (fun p : Q * Q => (p.2, p.2)) ps = ps.
Proof.
  induction 1 as [| [x y] ps Hp _ [IH1 IH2]]; [done |].
  simpl in Hp. subst y. simpl. by rewrite IH1, IH2.
Qed.

(** The coefficient of a column with itself is 1 when the column has a
    variance. *)
Lemma pearson_diag (ps : list (Q * Q)) :
  Forall (fun p => p.1 = p.2) ps → ¬ (codeviation ps == 0)%Q →
  pearson ps = Some 1%R.
Proof.
  intros Hd. unfold pearson.
  destruct (diag_pairs ps Hd) as [H1 H2].
  rewrite H1, H2. intros Hv.
  pose proof (codeviation_diag_nonneg ps Hd) as Hnn.
  set (v := codeviation ps) in *.
  assert (Hpos : (0 < Q2R v)%R).
  { rewrite <- RMicromega.Q2R_0. apply Qlt_Rlt.
    apply Qle_lteq in Hnn as [Hlt | Heq]; [done |].
    exfalso. apply Hv. by symmetry. }
  destruct ps as [| p ps]; [exfalso; apply Hv; reflexivity |].
  destruct (Qeq_bool (v * v) 0) eqn:Hz.
  - exfalso. apply Qeq_bool_iff, Qeq_eqR in Hz.
    rewrite Q2R_mult, RMicromega.Q2R_0 in Hz. nra.
  - f_equal. rewrite Q2R_mult, sqrt_square by lra. field. lra.
Qed.

(** What the correlation of the complete rows of the selected columns
    is, for every script: [df[cols].dropna().corr()]. *)
Lemma corr_dropna_spec (df sel : DataFrame) (cols : list string)
  (m : list (list (option R))) :
  select cols df = Ok sel → corr (dropna sel) = Ok m →
  rows (dropna sel) = filter (fun r => complete cols r)
                             (map (project id cols) (rows df))
  ∧ (∀ r c, r ∈ rows (dropna sel) → c ∈ cols → cell_at r c ≠ NaN)
  ∧ (∀ i j, entry m i j = entry m j i)
  ∧ (∀ i c v, cols !! i = Some c → deviation_sum (dropna sel) c = Ok v →
       ¬ (v == 0)%Q → entry m i i = Some (Some 1%R)).
Proof.
  unfold select. intros Hs Hm.
  destruct (forallb (has_column df) cols); [| done]. injection Hs as <-.
  split_and!.
  - done.
  - intros r c [Hc _]%list_elem_of_filter Hin Hnan. simpl in Hc.
    unfold complete in Hc. apply Is_true_true in Hc.
    rewrite forallb_forall in Hc.
    apply list_elem_of_In, Hc in Hin. by rewrite Hnan in Hin.
  - intros i j. rewrite !(corr_entry_lookup _ _ _ _ Hm).
    destruct (columns _ !! i) as [a |], (columns _ !! j) as [b |]; try done.
    by rewrite (corr_entry_sym _ a b).
  - intros i c v Hi Hv Hnz. rewrite (corr_entry_lookup _ _ _ _ Hm).
    simpl columns. rewrite Hi.
    unfold deviation_sum in Hv. inv_bind Hv. injection Hv as <-.
    unfold corr_entry. rewrite Hx. simpl.
    rewrite pearson_diag; [done | by eapply observations_diag | done].
Qed.

(** The observations of two columns that are present in every row are
    the pairs of their values, over all the rows. *)
Lemma observations_complete a b df ps :
  observations a b df = Ok ps →
  (∀ r, r ∈ rows df → cell_at r a ≠ NaN ∧ cell_at r b ≠ NaN) →
  ps = pairs a b df.
Proof.
  unfold observations, pairs, value. intros Ho.
  apply bind_Ok in Ho as (os & Hos & Ho). injection Ho as <-.
  apply mapR_Forall2 in Hos. generalize dependent (rows df). intros rs Hos.
  induction Hos as [| r o rs os Hr _ IH]; intros Hc; [done |].
  destruct (Hc r) as [Ha Hb]; [left |].
  assert (IH' : omap (fun o : option (Q * Q) => o) os
                = map (fun r => (default 0%Q (num_val (cell_at r a)),
                                 default 0%Q (num_val (cell_at r b)))) rs).
  { apply IH. intros r' Hr'. apply Hc. by right. }
  unfold observation in Hr. simpl map. rewrite <- IH'.
  destruct (cell_at r a) as [| z | q | s], (cell_at r b) as [| z' | q' | s'];
    try done; by injection Hr as <-.
Qed.

(** A column whose observations are defined holds no string. *)
Lemma observations_numbers a b df ps :
  observations a b df = Ok ps →
  ∀ r, r ∈ rows df → is_str (cell_at r a) = false.
Proof.
  unfold observations. intros Ho.
  apply bind_Ok in Ho as (os & Hos & _). apply mapR_Forall2 in Hos.
  intros r Hr. apply list_elem_of_lookup in Hr as [k Hk].
  destruct (Forall2_lookup_l _ _ _ _ _ Hos Hk) as (o & _ & Ho).
  unfold observation in Ho.
  by destruct (cell_at r a), (cell_at r b).
Qed.

(** Every coefficient of [df[cols].dropna().corr()] is computed over all
    the complete rows, whatever the pair of columns. *)
Lemma corr_dropna_entries (df sel : DataFrame) (cols : list string)
  (m : list (list (option R))) :
  select cols df = Ok sel → corr (dropna sel) = Ok m →
  (∀ r c, r ∈ rows (dropna sel) → c ∈ cols →
     ∃ q, num_val (cell_at r c) = Some q)
  ∧ (∀ i j a b, cols !! i = Some a → cols !! j = Some b →
       entry m i j = Some (pearson (pairs a b (dropna sel)))).
Proof.
  intros Hsel Hm.
  destruct (corr_dropna_spec df sel cols m Hsel Hm) as (_ & Hc & _ & _).
  assert (Hcols : columns (dropna sel) = cols).
  { unfold select in Hsel. destruct (forallb (has_column df) cols); [| done].
    by injection Hsel as <-. }
  assert (Hobs : ∀ i j a b, cols !! i = Some a → cols !! j = Some b →
            ∃ ps, observations a b (dropna sel) = Ok ps
                  ∧ entry m i j = Some (pearson ps)).
  { intros i j a b Hi Hj. rewrite (corr_entry_lookup _ _ i j Hm).
    rewrite Hcols, Hi, Hj.
    unfold corr in Hm. apply mapR_Forall2 in Hm. rewrite Hcols in Hm.
    destruct (Forall2_lookup_l _ _ _ _ _ Hm Hi) as (row & _ & Hrow).
    apply mapR_Forall2 in Hrow.
    destruct (Forall2_lookup_l _ _ _ _ _ Hrow Hj) as (x & _ & Hx).
    rewrite Hx. unfold corr_entry in Hx.
    apply bind_Ok in Hx as (ps & Hps & Hx). injection Hx as <-.
    by exists ps. }
  split.
  - intros r c Hr Hin. apply list_elem_of_lookup in Hin as [i Hi].
    destruct (Hobs i i c c Hi Hi) as (ps & Hps & _).
    pose proof (observations_numbers _ _ _ _ Hps r Hr) as Hstr.
    pose proof (Hc r c Hr (list_elem_of_lookup_2 _ _ _ Hi)) as Hnan.
    destruct (cell_at r c); try done; by eexists.
  - intros i j a b Hi Hj. destruct (Hobs i j a b Hi Hj) as (ps & Hps & ->).
    do 2 f_equal. apply observations_complete; [done |].
    intros r Hr. split; apply Hc; try done; by eapply list_elem_of_lookup_2.
Qed.

(** C9.  The Correlation Analyzer of final.py keeps the rows of the
    merged table that have no missing value in any of the selected
    columns (complete cases, not pairwise), and the matrix it returns is
    the matrix of Pearson coefficients of these rows: the coefficient of
    every pair of columns is computed over all the complete rows, which
    hold a number in every selected column.  The matrix is symmetric and
    has 1 on the diagonal for every column with a nonzero variance over
    these rows. *)
Theorem correlation_complete_case (self : Final.DataProcessor)
  (g d : DataFrame) (m : list (list (option R))) :
  Final.geo_data self = Some g →
  Final.analysis_data self = Ok d →
  Final.plot_correlation_heatmap self = Ok m →
  let cols := Final.correlation_columns self g in
  columns d = cols
  ∧ rows d = filter (fun r => complete cols r) (map (project id cols) (rows g))
  ∧ (∀ r c, r ∈ rows d → c ∈ cols → cell_at r c ≠ NaN)
  ∧ (∀ i j, entry m i j = entry m j i)
  ∧ (∀ i c v, cols !! i = Some c → deviation_sum d c = Ok v →
       ¬ (v == 0)%Q → entry m i i = Some (Some 1%R))
  ∧ corr d = Ok m
  ∧ (∀ r c, r ∈ rows d → c ∈ cols → ∃ q, num_val (cell_at r c) = Some q)
  ∧ (∀ i j a b, cols !! i = Some a → cols !! j = Some b →
       entry m i j = Some (pearson (pairs a b d))).
Proof.
  intros Hg Hd Hm cols.
  unfold Final.plot_correlation_heatmap in Hm. rewrite Hd in Hm. simpl in Hm.
  unfold Final.analysis_data in Hd. rewrite Hg in Hd.
  assert (Hsel : ∃ x, select cols g = Ok x ∧ d = dropna x).
  { destruct (Final.pop_data self); simpl in Hd; inv_bind Hd;
      injection Hd as <-; eauto. }
  destruct Hsel as (x & Hx & ->).
  destruct (corr_dropna_spec g x cols m Hx Hm) as (Hr & Hc & Hs & Hu).
  destruct (corr_dropna_entries g x cols m Hx Hm) as (Hnum & Hent).
  split_and!; try done.
  unfold select in Hx. destruct (forallb (has_column g) cols); [| done].
  by injection Hx as <-.
Qed.

(** The same for [analyze_correlation] of eau_merge.py. *)
Lemma eau_merge_correlation (self : EauMerge.DataProcessor)
  (g d : DataFrame) (m : list (list (option R))) :
  EauMerge.geo_data self = Some g →
  EauMerge.analysis_data self = Ok d →
  EauMerge.analyze_correlation self = Ok m →
  let cols := ["bacterio_conformity"; "chemical_conformity"; "loypredm2"] in
  rows d = filter (fun r => complete cols r) (map (project id cols) (rows g))
  ∧ (∀ r c, r ∈ rows d → c ∈ cols → cell_at r c ≠ NaN)
  ∧ (∀ i j, entry m i j = entry m j i)
  ∧ (∀ i c v, cols !! i = Some c → deviation_sum d c = Ok v →
       ¬ (v == 0)%Q → entry m i i = Some (Some 1%R)).
Proof.
  intros Hg Hd Hm cols.
  unfold EauMerge.analyze_correlation in Hm. rewrite Hd in Hm. simpl in Hm.
  unfold EauMerge.analysis_data in Hd. rewrite Hg in Hd. simpl in Hd.
  inv_bind Hd. injection Hd as <-.
  exact (corr_dropna_spec g x cols m Hx Hm).
Qed.

(** The correlation of a table without string is defined. *)
Lemma corr_total (df : DataFrame) :
  Forall (fun r => Forall (fun v => is_str (cell_at r v) = false) (columns df))
         (rows df) →
  is_Ok (corr df).
Proof.
  intros Hs. unfold corr.
  apply mapR_total, Forall_forall. intros a Ha.
  apply mapR_total, Forall_forall. intros b Hb.
  unfold corr_entry, observations.
  destruct (mapR_total (observation a b) (rows df)) as [os Hos].
  - apply Forall_forall. intros r Hr.
    eapply Forall_forall in Hs; [| exact Hr]. rewrite Forall_forall in Hs.
    pose proof (Hs a Ha) as Hsa. pose proof (Hs b Hb) as Hsb.
    unfold observation.
    destruct (cell_at r a), (cell_at r b); try discriminate; by eexists.
  - rewrite Hos. by eexists.
Qed.

Lemma plot_correlation_heatmap_corr (self : Final.DataProcessor) (d : DataFrame) :
  Final.analysis_data self = Ok d →
  Final.plot_correlation_heatmap self = corr d.
Proof. unfold Final.plot_correlation_heatmap. by intros ->. Qed.

(** ** The Durable Store (C6) *)

Lemma eau_merge_inv `{FloatRepr} wf gj R self' :
  EauMerge.main (EauMerge.init wf gj R) = Ok self' →
  ∃ w0 w agg ragg g1 g',
    concat wf = Ok w0 ∧ clean_water w0 = Ok w ∧ water_aggregate w = Ok agg
    ∧ groupby_mean "INSEE_C" ["loypredm2"] R = Ok ragg
    ∧ "codgeo" ∈ columns gj
    ∧ merge (standardized "codgeo" gj) agg "codgeo" "inseecommune" = Ok g1
    ∧ merge g1 ragg "codgeo" "INSEE_C" = Ok g'
    ∧ EauMerge.geo_data self' = Some g'.
Proof.
  unfold EauMerge.main. intros Hm. inv_bind Hm.
  unfold EauMerge.load_water_data in Hx. inv_bind Hx. injection Hx as <-.
  unfold EauMerge.clean_water_data in Hx0. simpl in Hx0. inv_bind Hx0.
  injection Hx0 as <-.
  unfold EauMerge.load_geo_data in Hx1. simpl in Hx1. inv_bind Hx1.
  injection Hx1 as <-. apply standardize_inv in Hx0 as [Hcod ->].
  unfold EauMerge.merge_data in Hm. simpl in Hm. inv_bind Hm.
  injection Hm as <-. simpl.
  repeat eexists; eauto.
Qed.

Lemma mysql_loads_inv `{FloatRepr} db rf wf db1 db2 :
  MySQL.load_rent_data db rf = Ok db1 →
  MySQL.load_water_data db1 wf = Ok db2 →
  ∃ R0 R ragg w0 w,
    concat rf = Ok R0 ∧ standardize "INSEE_C" R0 = Ok R
    ∧ groupby_mean "INSEE_C" ["loypredm2"] R = Ok ragg
    ∧ concat wf = Ok w0 ∧ clean_water w0 = Ok w
    ∧ MySQL.rent_data db2
      = Some (rename "loypredm2" "mean_loypredm2"
                (rename "INSEE_C" "insee_c" ragg))
    ∧ MySQL.water_data db2 = Some w
    ∧ MySQL.commune db2 = MySQL.commune db
    ∧ MySQL.merged_data db2 = MySQL.merged_data db.
Proof.
  unfold MySQL.load_rent_data, MySQL.load_water_data. intros Hr Hw.
  inv_bind Hr. injection Hr as <-. inv_bind Hw. injection Hw as <-.
  simpl. repeat eexists; eauto.
Qed.

Lemma rename_sql_rent ragg :
  columns ragg = ["INSEE_C"; "loypredm2"] →
  rows (rename "loypredm2" "mean_loypredm2" (rename "INSEE_C" "insee_c" ragg))
  = map (fun r => <["insee_c" := cell_at r "INSEE_C"]>
                  (<["mean_loypredm2" := cell_at r "loypredm2"]> ∅))
        (rows ragg).
Proof.
  intros Hc. unfold rename. rewrite Hc. simpl. rewrite map_map.
  apply map_ext. intros r. unfold project. simpl.
  rewrite cell_at_insert_eq, cell_at_insert_ne, cell_at_insert_eq; done.
Qed.

Lemma sql_text_Str c code : MySQL.sql_text c = Some code ↔ c = Str code.
Proof. destruct c; simpl; split; intros Hc; by simplify_eq. Qed.

(** The rows that SQL selects for a code are the rows of the code for
    pandas. *)
Lemma sql_rows_of_key key code (rws : list (gmap string cell)) :
  filter (fun r => MySQL.sql_text (cell_at r key) = Some code) rws
  = rows_of_key key (Str code) rws.
Proof.
  unfold rows_of_key. apply list_filter_iff. intros r.
  rewrite sql_text_Str, Is_true_true, key_eqb_Str. done.
Qed.

(** [AVG] is the mean of the present values. *)
Lemma sql_avg_mean c (rws : list (gmap string cell)) :
  MySQL.sql_avg c rws
  = num_val (mean_of_present (map (fun r => cell_at r c) rws)).
Proof.
  unfold MySQL.sql_avg, mean_of_present, present.
  assert (Ho : omap (fun r => num_val (cell_at r c)) rws
               = omap num_val (map (fun r => cell_at r c) rws)).
  { induction rws as [| r rws IH]; [done |].
    change (omap (fun r => num_val (cell_at r c)) (r :: rws))
      with (match num_val (cell_at r c) with
            | Some q => q :: omap (fun r => num_val (cell_at r c)) rws
            | None => omap (fun r => num_val (cell_at r c)) rws
            end).
    rewrite IH. reflexivity. }
  rewrite Ho. by destruct (omap num_val _).
Qed.

Lemma insert_merged_inv `{SqlEngine} reg v m :
  MySQL.insert_merged reg v = Ok m →
  v.1.1 = Some (MySQL.insee_commune m)
  ∧ MySQL.bacterio_conformity m = decimal 3 <$> v.1.2
  ∧ MySQL.chemical_conformity m = decimal 3 <$> v.2
  ∧ MySQL.mean_loypredm2 m = None.
Proof.
  unfold MySQL.insert_merged. destruct v.1.1 as [k |]; [| done].
  destruct (_ && _); [| done]. by intros [= <-].
Qed.

Lemma preprocess_inv `{SqlEngine} db db3 :
  MySQL.preprocess_and_merge_data db = Ok db3 →
  ∃ reg w r ins,
    MySQL.commune db = Some reg ∧ MySQL.water_data db = Some w
    ∧ MySQL.rent_data db = Some r
    ∧ Forall2 (fun v m => MySQL.insert_merged reg v = Ok m)
              (MySQL.select_water_averages w) ins
    ∧ MySQL.merged_data db3 = Some (map (MySQL.update_rent r) ins).
Proof.
  unfold MySQL.preprocess_and_merge_data, MySQL.table. intros Hp.
  destruct (MySQL.merged_data db); [| done].
  destruct (MySQL.commune db) as [reg |]; [| done].
  destruct (MySQL.water_data db) as [w |]; [| done]. simpl in Hp.
  inv_bind Hp. destruct (MySQL.rent_data db) as [r |]; [| done].
  simpl in Hp. inv_bind Hp. injection Hp as <-. simpl.
  injection Hx1 as <-.
  exists reg, w, r, x0. split_and!; try done. by apply mapR_Forall2.
Qed.

Lemma twice_cell_first g i1 i2 lon k1 k2 (l : gmap string cell) c :
  c ∉ columns g → c ∈ columns i1 →
  cell_at ((project id (columns g) l ∪ right_part i1 lon k1 l)
           ∪ right_part i2 lon k2 l) c
  = match matches i1 lon k1 l with
    | [] => NaN
    | r :: _ => cell_at r c
    end.
Proof.
  intros Hg Hi. unfold cell_at at 1.
  erewrite lookup_union_Some_l; [| by apply lookup_merged_right]. done.
Qed.

Lemma twice_cell_second g i1 i2 lon k1 k2 (l : gmap string cell) c :
  c ∉ columns g → c ∉ columns i1 → c ∈ columns i2 →
  cell_at ((project id (columns g) l ∪ right_part i1 lon k1 l)
           ∪ right_part i2 lon k2 l) c
  = match matches i2 lon k2 l with
    | [] => NaN
    | r :: _ => cell_at r c
    end.
Proof.
  intros Hg H1 H2. unfold cell_at at 1. rewrite lookup_union_r.
  - by rewrite lookup_right_part, decide_True.
  - apply eq_None_not_Some. rewrite is_Some_merged.
    by intros [Hin | Hin]%elem_of_app.
Qed.

(** The cell that a left row with a string key receives from an
    aggregate is the mean over the rows of the key. *)
Lemma first_match_mean key vals df agg lon (l : gmap string cell) code v :
  groupby_mean key vals df = Ok agg →
  cell_at l lon = Str code → v ∈ vals →
  rows_of_key key (Str code) (rows df) ≠ [] →
  match matches agg lon key l with
  | [] => NaN
  | r :: _ => cell_at r v
  end
  = mean_of_present (map (fun r => cell_at r v)
                         (rows_of_key key (Str code) (rows df))).
Proof.
  intros Hagg Hl Hv Hne.
  destruct (rows_of_key key (Str code) (rows df)) as [| x xs] eqn:Hxs; [done |].
  assert (Hx : x ∈ rows df ∧ cell_at x key = Str code).
  { assert (Hin : x ∈ rows_of_key key (Str code) (rows df))
      by (rewrite Hxs; left).
    apply list_elem_of_filter in Hin as [Hk Hin]. split; [done |].
    by apply Is_true_true, key_eqb_Str in Hk. }
  destruct Hx as [Hx Hkx].
  destruct (groupby_mean_complete _ _ _ _ _ Hagg Hx) as (row & Hrow & Hk).
  { by rewrite Hkx. }
  rewrite Hkx in Hk.
  destruct (matches agg lon key l) as [| row' ms] eqn:Hmt.
  - assert (Hin : row ∈ matches agg lon key l).
    { apply list_elem_of_filter. split; [| done]. apply Is_true_true.
      rewrite Hl. by rewrite key_eqb_sym. }
    rewrite Hmt in Hin. by apply not_elem_of_nil in Hin.
  - assert (Hin : row' ∈ matches agg lon key l) by (rewrite Hmt; left).
    apply list_elem_of_filter in Hin as [Hk' Hin].
    apply Is_true_true in Hk'. rewrite Hl in Hk'. apply key_eqb_Str in Hk'.
    destruct (groupby_mean_row _ _ _ _ _ Hagg Hin) as (_ & _ & Hmeans).
    unfold cell_at. rewrite (Hmeans v Hv), Hk', Hxs. done.
Qed.

Lemma select_water_averages_keys w :
  map (fun v => v.1.1) (MySQL.select_water_averages w)
  = remove_dups (map (fun r => MySQL.sql_text (cell_at r "inseecommune"))
                     (rows w)).
Proof.
  unfold MySQL.select_water_averages. rewrite map_map. simpl. apply map_id.
Qed.

Lemma inserted_codes `{SqlEngine} reg w ins :
  Forall2 (fun v m => MySQL.insert_merged reg v = Ok m)
          (MySQL.select_water_averages w) ins →
  map Some (merged_codes ins)
  = remove_dups (map (fun r => MySQL.sql_text (cell_at r "inseecommune"))
                     (rows w)).
Proof.
  intros Hf. rewrite <- select_water_averages_keys. unfold merged_codes.
  induction Hf as [| v m vs ms Hv _ IH]; simpl; [done |].
  apply insert_merged_inv in Hv as (-> & _). by rewrite IH.
Qed.

Lemma update_rent_code `{SqlEngine} r m :
  MySQL.insee_commune (MySQL.update_rent r m) = MySQL.insee_commune m.
Proof. unfold MySQL.update_rent. by destruct (filter _ _). Qed.

Lemma update_rent_conformity `{SqlEngine} r m :
  MySQL.bacterio_conformity (MySQL.update_rent r m) = MySQL.bacterio_conformity m
  ∧ MySQL.chemical_conformity (MySQL.update_rent r m)
    = MySQL.chemical_conformity m.
Proof. unfold MySQL.update_rent. by destruct (filter _ _). Qed.

(** The row that [INSERT ... SELECT] makes for a code holds the stored
    averages over the rows of the code. *)
Lemma inserted_row `{SqlEngine} reg w ins m :
  Forall2 (fun v m => MySQL.insert_merged reg v = Ok m)
          (MySQL.select_water_averages w) ins →
  m ∈ ins →
  let grp := rows_of_key "inseecommune" (Str (MySQL.insee_commune m)) (rows w) in
  grp ≠ []
  ∧ MySQL.bacterio_conformity m
    = decimal 3 <$> num_val (mean_of_present
                               (map (fun r => cell_at r "bacterio_conformity") grp))
  ∧ MySQL.chemical_conformity m
    = decimal 3 <$> num_val (mean_of_present
                               (map (fun r => cell_at r "chemical_conformity") grp))
  ∧ MySQL.mean_loypredm2 m = None.
Proof.
  intros Hf Hm grp.
  apply list_elem_of_lookup in Hm as [i Hi].
  destruct (Forall2_lookup_r _ _ _ _ _ Hf Hi) as (v & Hv & Hins).
  apply insert_merged_inv in Hins as (Hk & Hb & Hc & Hr).
  unfold MySQL.select_water_averages in Hv.
  apply lookup_map_Some in Hv as (k & Hki & ->). simpl in *. subst k.
  rewrite sql_rows_of_key in Hb, Hc. rewrite !sql_avg_mean in *.
  split_and!; try done.
  apply list_elem_of_lookup_2 in Hki. rewrite elem_of_remove_dups in Hki.
  apply list_elem_of_fmap in Hki as (r & Hr' & Hin).
  symmetry in Hr'. apply sql_text_Str in Hr'.
  intros Hnil.
  assert (Hin' : r ∈ grp).
  { apply list_elem_of_filter. split; [| done]. apply Is_true_true.
    by apply key_eqb_Str. }
  unfold grp in *. rewrite Hnil in Hin'. by apply not_elem_of_nil in Hin'.
Qed.

Lemma eau_merge_labels_disjoint (cols : list string) :
  disjoint_labels cols eau_merge_labels →
  disjoint_labels cols water_labels
  ∧ disjoint_labels cols ["INSEE_C"; "loypredm2"].
Proof.
  intros Hd. split; intros c Hc Hin; apply (Hd c Hc); apply elem_of_app; auto.
Qed.

Lemma water_eau_rent_labels_disjoint :
  disjoint_labels water_labels ["INSEE_C"; "loypredm2"].
Proof. by apply disjoint_labels_check. Qed.

(** The stored rent of a row after [UPDATE ... JOIN]: the rent mean of
    the first row of the rent aggregate with the code of the row. *)
Lemma update_rent_mean `{SqlEngine} ragg m :
  columns ragg = ["INSEE_C"; "loypredm2"] →
  MySQL.mean_loypredm2 m = None →
  MySQL.mean_loypredm2
    (MySQL.update_rent (rename "loypredm2" "mean_loypredm2"
                          (rename "INSEE_C" "insee_c" ragg)) m)
  = decimal 2 <$> num_val
      match rows_of_key "INSEE_C" (Str (MySQL.insee_commune m)) (rows ragg) with
      | [] => NaN
      | x :: _ => cell_at x "loypredm2"
      end.
Proof.
  intros Hc Hm. unfold MySQL.update_rent. rewrite (rename_sql_rent _ Hc).
  rewrite (filter_map_comm _ _
             (fun x => MySQL.sql_text (cell_at x "INSEE_C")
                       = Some (MySQL.insee_commune m))).
  2:{ intros x. by rewrite cell_at_insert_eq. }
  rewrite sql_rows_of_key.
  destruct (rows_of_key _ _ _) as [| x xs]; simpl; [by rewrite Hm |].
  by rewrite cell_at_insert_ne, cell_at_insert_eq.
Qed.

(** C6, amended.  The table [merged_data] of the SQL variant has exactly
    one row per commune code with a water record, and none for a commune
    of the geometry table without water record.  For a commune of the
    geometry table with a water record, the row of [merged_data] holds
    the three indicators of the row of the in-memory merged table
    (eau_merge.py on the same water files and on the rent table with
    standardised keys), as the engine stores them in its [DECIMAL(4,3)]
    and [DECIMAL(10,2)] columns. *)
Theorem sql_merge_agrees `{FloatRepr} `{SqlEngine}
  (db db1 db2 db3 : MySQL.Database)
  (water_files rent_files : list DataFrame) (geojson R0 R : DataFrame)
  (self' : EauMerge.DataProcessor) :
  MySQL.load_rent_data db rent_files = Ok db1 →
  MySQL.load_water_data db1 water_files = Ok db2 →
  MySQL.preprocess_and_merge_data db2 = Ok db3 →
  concat rent_files = Ok R0 → standardize "INSEE_C" R0 = Ok R →
  EauMerge.main (EauMerge.init water_files geojson R) = Ok self' →
  disjoint_labels (columns geojson) eau_merge_labels →
  ∃ w0 merged g',
    concat water_files = Ok w0
    ∧ MySQL.merged_data db3 = Some merged
    ∧ EauMerge.geo_data self' = Some g'
    ∧ NoDup (merged_codes merged)
    ∧ (∀ code, code ∈ merged_codes merged ↔ water_records code w0 ≠ [])
    ∧ Forall2 (fun l r' =>
        ∀ row, row ∈ merged →
          MySQL.insee_commune row = normalize (cell_at l "codgeo") →
          MySQL.bacterio_conformity row
          = decimal 3 <$> num_val (cell_at r' "bacterio_conformity")
          ∧ MySQL.chemical_conformity row
            = decimal 3 <$> num_val (cell_at r' "chemical_conformity")
          ∧ MySQL.mean_loypredm2 row
            = decimal 2 <$> num_val (cell_at r' "loypredm2"))
        (rows geojson) (rows g').
Proof.
  intros Hlr Hlw Hpre HR0 HR Hmain Hd.
  destruct (mysql_loads_inv _ _ _ _ _ Hlr Hlw)
    as (R0' & R' & ragg & w0 & w & HR0' & HR' & Hragg & Hw0 & Hw
        & Hrent & Hwater & _ & _).
  assert (R0' = R0) as -> by congruence.
  assert (R' = R) as -> by congruence.
  destruct (preprocess_inv _ _ Hpre)
    as (reg & w' & r & ins & _ & Hwater' & Hrent' & Hins & Hmerged).
  assert (w' = w) as -> by congruence.
  assert (r = rename "loypredm2" "mean_loypredm2"
                (rename "INSEE_C" "insee_c" ragg)) as -> by congruence.
  destruct (eau_merge_inv _ _ _ _ Hmain)
    as (w0' & w' & agg & ragg' & g1 & g' & Hw0' & Hw' & Hagg & Hragg'
        & Hcod & Hg1 & Hg' & Hgeo).
  assert (w0' = w0) as -> by congruence.
  assert (w' = w) as -> by congruence.
  assert (ragg' = ragg) as -> by congruence.
  exists w0, (map (MySQL.update_rent
                     (rename "loypredm2" "mean_loypredm2"
                        (rename "INSEE_C" "insee_c" ragg))) ins), g'.
  pose proof (water_aggregate_columns _ _ Hagg) as Hca.
  destruct (groupby_mean_inv _ _ _ _ Hragg) as (Hcr & _).
  pose proof (inserted_codes _ _ _ Hins) as Hcodes.
  assert (Hsame : merged_codes
                    (map (MySQL.update_rent
                            (rename "loypredm2" "mean_loypredm2"
                               (rename "INSEE_C" "insee_c" ragg))) ins)
                  = merged_codes ins).
  { unfold merged_codes. rewrite map_map. apply map_ext. intros m.
    apply update_rent_code. }
  split_and!; [done | done | done | | |].
  - rewrite Hsame. apply (NoDup_fmap_1 Some). rewrite <- map_fmap, Hcodes.
    apply NoDup_remove_dups.
  - intros code. rewrite Hsame.
    assert (Hrec : water_records code w0 ≠ []
                   ↔ rows_of_key "inseecommune" (Str code) (rows w) ≠ []).
    { rewrite (rows_of_key_cleaned w0 w code Hw).
      by destruct (water_records code w0). }
    rewrite Hrec.
    assert (Hiff : code ∈ merged_codes ins
                   ↔ Some code ∈ map Some (merged_codes ins)).
    { rewrite map_fmap. split.
      - intros Hin. apply list_elem_of_fmap. by exists code.
      - intros (c & [= ->] & Hin)%list_elem_of_fmap. done. }
    rewrite Hiff, Hcodes, elem_of_remove_dups.
    rewrite <- (sql_rows_of_key "inseecommune" code (rows w)).
    split.
    + rewrite map_fmap. intros (x & Hk & Hx)%list_elem_of_fmap Hnil.
      assert (Hin : x ∈ filter (fun r => MySQL.sql_text (cell_at r "inseecommune")
                                         = Some code) (rows w)).
      { by apply list_elem_of_filter. }
      rewrite Hnil in Hin. by apply not_elem_of_nil in Hin.
    + intros Hne.
      destruct (filter _ (rows w)) as [| x xs] eqn:Hf; [done |].
      assert (Hin : x ∈ filter (fun r => MySQL.sql_text (cell_at r "inseecommune")
                                         = Some code) (rows w))
        by (rewrite Hf; left).
      apply list_elem_of_filter in Hin as [Hk Hx].
      rewrite map_fmap. apply list_elem_of_fmap. by exists x.
  - apply eau_merge_labels_disjoint in Hd as [Hdw Hdr].
    destruct (merge_twice (standardized "codgeo" geojson) agg ragg
                "codgeo" "inseecommune" "INSEE_C" g1 g') as (_ & _ & _ & Hrows);
      try done.
    { by eapply groupby_mean_unique. }
    { by eapply groupby_mean_unique. }
    { by rewrite Hca. }
    { by rewrite Hcr. }
    { rewrite Hca, Hcr. apply water_eau_rent_labels_disjoint. }
    rewrite Hrows. simpl. rewrite map_map.
    apply Forall2_map_same. intros l _.
    set (code := normalize (cell_at l "codgeo")).
    set (l' := <["codgeo" := Str code]> l).
    intros row (m & -> & Hm)%list_elem_of_fmap Hcode.
    rewrite update_rent_code in Hcode.
    destruct (inserted_row _ _ _ _ Hins Hm) as (Hne & Hb & Hc & Hnone).
    rewrite Hcode in Hne, Hb, Hc.
    destruct (update_rent_conformity
                (rename "loypredm2" "mean_loypredm2"
                   (rename "INSEE_C" "insee_c" ragg)) m) as [-> ->].
    assert (Hl' : cell_at l' "codgeo" = Str code)
      by apply cell_at_insert_eq.
    split_and!.
    + rewrite (twice_cell_first (standardized "codgeo" geojson)).
      * rewrite (first_match_mean _ _ _ _ _ _ code _ Hagg Hl'); try done.
        by repeat constructor.
      * intros Hin. apply (Hdw _ Hin). by repeat constructor.
      * rewrite Hca. by repeat constructor.
    + rewrite (twice_cell_first (standardized "codgeo" geojson)).
      * rewrite (first_match_mean _ _ _ _ _ _ code _ Hagg Hl'); try done.
        by repeat constructor.
      * intros Hin. apply (Hdw _ Hin). by repeat constructor.
      * rewrite Hca. by repeat constructor.
    + rewrite (update_rent_mean _ _ Hcr Hnone), Hcode.
      rewrite (twice_cell_second (standardized "codgeo" geojson)).
      * unfold matches, rows_of_key. by rewrite Hl'.
      * intros Hin. apply (Hdr _ Hin). by repeat constructor.
      * rewrite Hca. intros Hin.
        apply (water_eau_rent_labels_disjoint "loypredm2" Hin).
        by repeat constructor.
      * rewrite Hcr. by repeat constructor.
Qed.

(** ** The run of final.py returns a table *)

Lemma standardize_eq `{FloatRepr} c df :
  c ∈ columns df → standardize c df = Ok (standardized c df).
Proof.
  intros Hc. destruct (standardize_Ok c df Hc) as [out Hout].
  rewrite Hout. by apply standardize_inv in Hout as [_ ->].
Qed.

Lemma encode_column_eq src dst df :
  src ∈ columns df →
  encode_column src dst df
  = Ok {| columns := if has_column df dst then columns df
                     else columns df ++ [dst];
          rows := map (fun r => <[dst := encode (cell_at r src)]> r)
                      (rows df) |}.
Proof.
  intros Hc%has_column_spec. unfold encode_column, apply.
  assert (Hg : get_col src df = Ok (map (fun r => cell_at r src) (rows df))).
  { unfold get_col. by rewrite Hc. }
  rewrite Hg. simpl. by rewrite (set_col_map _ _ _ _ _ Hg).
Qed.

Lemma clean_water_total `{FloatRepr} w0 :
  "inseecommune" ∈ columns w0 → "plvconformitebacterio" ∈ columns w0 →
  "plvconformitechimique" ∈ columns w0 → is_Ok (clean_water w0).
Proof.
  intros Hk Hb Hc. unfold clean_water.
  rewrite (standardize_eq _ _ Hk). simpl.
  rewrite (encode_column_eq _ _ (standardized "inseecommune" w0)) by exact Hb.
  simpl.
  rewrite encode_column_eq
    by (simpl; destruct (has_column _ _); [exact Hc | apply elem_of_app; by left]).
  by eexists.
Qed.

Lemma encode_not_str x : is_str (encode x) = false.
Proof. by destruct (encode_cases x) as [-> | ->]. Qed.

Lemma water_aggregate_total `{FloatRepr} w0 w :
  clean_water w0 = Ok w → is_Ok (water_aggregate w).
Proof.
  intros Hw. destruct (clean_water_inv _ _ Hw) as (Hr & Hk & Hb & Hc).
  apply groupby_mean_total; [done | by repeat constructor | |].
  - intros Hin. apply elem_of_cons in Hin as [Hin | Hin]; [done |].
    by apply list_elem_of_singleton in Hin.
  - rewrite Hr. apply Forall_fmap, Forall_forall. intros r _. simpl.
    repeat constructor.
    + rewrite cell_at_insert_ne, cell_at_insert_eq by done.
      apply encode_not_str.
    + rewrite cell_at_insert_eq. apply encode_not_str.
Qed.

Lemma merge_keys_ok_text (lk rk : Series) :
  Forall (fun c => is_str c = true) lk → Forall (fun c => is_str c = true) rk →
  merge_keys_ok lk rk = true.
Proof.
  intros Hl Hr. destruct Hl as [| a lk Ha _]; [done |].
  destruct Hr as [| b rk Hb _]; [done |].
  unfold merge_keys_ok, numeric_dtype. simpl. rewrite Ha, Hb. simpl.
  by rewrite andb_false_r.
Qed.

(** The keys of an aggregate are keys of the table. *)
Lemma groupby_mean_keys_text key vals df agg :
  groupby_mean key vals df = Ok agg → text_keys key df →
  Forall (fun c => is_str c = true) (map (fun r => cell_at r key) (rows agg)).
Proof.
  intros Hg Ht. apply Forall_fmap, Forall_forall. intros row Hrow. simpl.
  destruct (groupby_mean_row _ _ _ _ _ Hg Hrow) as (Hne & Hn & _).
  destruct (rows_of_key key (cell_at row key) (rows df)) as [| r rs] eqn:Hrs;
    [done |].
  assert (Hin : r ∈ rows_of_key key (cell_at row key) (rows df))
    by (rewrite Hrs; left).
  apply list_elem_of_filter in Hin as [Hk Hr]. apply Is_true_true in Hk.
  eapply Forall_forall in Ht; [| exact Hr].
  destruct Ht as [Hs | Hnan].
  - destruct (cell_at r key) as [| | | s]; try done.
    rewrite key_eqb_sym in Hk. by apply key_eqb_Str in Hk as ->.
  - rewrite Hnan in Hk. by rewrite key_eqb_nan_r in Hk.
Qed.

Lemma standardized_keys `{FloatRepr} c df :
  Forall (fun x => is_str x = true)
         (map (fun r => cell_at r c) (rows (standardized c df))).
Proof.
  unfold standardized. simpl. rewrite map_map.
  apply Forall_fmap, Forall_forall. intros r _. simpl.
  by rewrite cell_at_insert_eq.
Qed.

Lemma clean_water_text_keys `{FloatRepr} w0 w :
  clean_water w0 = Ok w → text_keys "inseecommune" w.
Proof.
  intros (Hr & _)%clean_water_inv. unfold text_keys. rewrite Hr.
  apply Forall_fmap, Forall_forall. intros r _. simpl. left.
  by rewrite !cell_at_insert_ne, cell_at_insert_eq by done.
Qed.

Lemma NoDup_water_labels : NoDup water_labels.
Proof. apply (bool_decide_unpack _). by vm_compute. Qed.

Lemma NoDup_rent_labels : NoDup rent_labels.
Proof. apply (bool_decide_unpack _). by vm_compute. Qed.

(** A run of final.py without population file returns a merged table
    when the files have the columns the script reads, the rent values
    are numbers or missing, the rent keys are text, and the geometry
    table has each label once and none of the indicator labels. *)
Lemma main_total `{FloatRepr} wf gj rf w0 R :
  concat wf = Ok w0 → concat rf = Ok R →
  "inseecommune" ∈ columns w0 → "plvconformitebacterio" ∈ columns w0 →
  "plvconformitechimique" ∈ columns w0 →
  "codgeo" ∈ columns gj → NoDup (columns gj) →
  disjoint_labels (columns gj) indicator_labels →
  "INSEE_C" ∈ columns R → "loypredm2" ∈ columns R →
  Forall (fun r => is_str (cell_at r "loypredm2") = false) (rows R) →
  text_keys "INSEE_C" R →
  is_Ok (Final.main (Final.init wf gj rf None)).
Proof.
  intros Hw0 HR Hk Hb Hc Hcod Hnd Hd Hrk Hrv Hnum Htext.
  destruct (clean_water_total w0 Hk Hb Hc) as [w Hw].
  destruct (water_aggregate_total _ _ Hw) as [agg Hagg].
  destruct (groupby_mean_total "INSEE_C" ["loypredm2"] R) as [ragg Hragg].
  { done. }
  { by repeat constructor. }
  { intros Hin. by apply list_elem_of_singleton in Hin. }
  { eapply Forall_impl; [exact Hnum |]. intros r Hr. by repeat constructor. }
  pose proof (water_aggregate_columns _ _ Hagg) as Hca.
  destruct (groupby_mean_inv _ _ _ _ Hragg) as (Hcr & _).
  destruct (rename_rent _ Hcr) as [Hcr' Hrr'].
  apply disjoint_indicator_labels in Hd as [Hdw Hdr].
  assert (Hndw : NoDup (columns gj ++ water_labels)).
  { apply NoDup_app. split_and!; [done | done |].
    apply NoDup_water_labels. }
  set (g := standardized "codgeo" gj).
  assert (Hg1 : merge g agg "codgeo" "inseecommune"
                = Ok {| columns := merge_labels g agg "codgeo" "inseecommune";
                        rows := mjoin (map (merge_row g agg "codgeo"
                                              "inseecommune") (rows g)) |}).
  { apply merge_Ok; [done | rewrite Hca; by repeat constructor | |].
    - apply merge_keys_ok_text; [apply standardized_keys |].
      eapply groupby_mean_keys_text; [exact Hagg |].
      by eapply clean_water_text_keys.
    - rewrite merge_labels_disjoint; [by rewrite Hca | done | by rewrite Hca]. }
  set (g1 := {| columns := merge_labels g agg "codgeo" "inseecommune";
                rows := _ |}) in Hg1.
  destruct (merge_rows_disjoint _ _ _ _ _ Hg1) as [Hc1 Hr1];
    [done | by rewrite Hca | by eapply groupby_mean_unique |].
  set (rent := rename "loypredm2" "mean_loypredm2" ragg).
  assert (Hg2 : is_Ok (merge g1 rent "codgeo" "INSEE_C")).
  { eexists. apply merge_Ok.
    - rewrite Hc1. apply elem_of_app. by left.
    - unfold rent. rewrite Hcr'. by repeat constructor.
    - apply merge_keys_ok_text.
      + rewrite Hr1, map_map. apply Forall_fmap, Forall_forall.
        intros l Hl. simpl. rewrite (cell_at_merged_left g) by done.
        pose proof (standardized_keys "codgeo" gj) as Hs.
        rewrite Forall_fmap, Forall_forall in Hs. by apply Hs.
      + unfold rent. rewrite Hrr', map_map.
        pose proof (groupby_mean_keys_text _ _ _ _ Hragg Htext) as Hs.
        erewrite map_ext; [exact Hs |]. intros r. simpl.
        by rewrite cell_at_insert_eq.
    - rewrite merge_labels_disjoint.
      + rewrite Hc1, Hca. unfold rent. rewrite Hcr'.
        apply NoDup_app. split_and!; [done | |].
        * intros c [Hin | Hin]%elem_of_app.
          -- by apply Hdr.
          -- by apply water_rent_labels_disjoint.
        * apply NoDup_rent_labels.
      + done.
      + rewrite Hc1, Hca. unfold rent. rewrite Hcr'.
        apply disjoint_labels_app; [done | apply water_rent_labels_disjoint]. }
  destruct Hg2 as [g2 Hg2].
  unfold Final.main, Final.load_water_data. simpl. rewrite Hw0. simpl.
  unfold Final.clean_water_data. simpl. rewrite Hw. simpl.
  unfold Final.load_geo_data. simpl. rewrite (standardize_eq _ _ Hcod). simpl.
  unfold Final.load_rent_data. simpl. rewrite HR. simpl. rewrite Hragg. simpl.
  unfold Final.merge_data. simpl. rewrite Hagg. simpl.
  fold g. rewrite Hg1. simpl. fold rent. fold g1. rewrite Hg2. simpl.
  by eexists.
Qed.

(** The population table is merged as it was read, without aggregation:
    the merged table keeps one row per geometry row only when the
    population file lists each code once.  A file that lists the commune
    00001 twice gives it two rows. *)
Lemma population_rows_repeat :
  (self ← @Final.main repr_integral
            (Final.init [scenario_water] scenario_geo [scenario_rent_text]
                        (Some twice_population));
   g ← field (Final.geo_data self);
   d ← select ["codgeo"; "p21_pop"] g;
   Ok (cells d))
  = Ok [[Str "00001"; Int 100]; [Str "00001"; Int 120];
        [Str "00002"; Int 50]; [Str "00003"; NaN]].
Proof. vm_compute. reflexivity. Qed.
(** * Further properties of the scripts *)

(** ** am.py: the rent of a commune *)

(** The rows of a standardised table with a code are the standardised
    records of the code. *)
Lemma rows_of_key_standardized `{FloatRepr} key code df :
  rows_of_key key (Str code) (rows (standardized key df))
  = map (fun r => <[key := Str (normalize (cell_at r key))]> r)
        (records_of key code df).
Proof.
  unfold rows_of_key, records_of, standardized. simpl.
  apply filter_map_comm. intros x. rewrite cell_at_insert_eq. simpl.
  rewrite Is_true_true, String.eqb_eq. split; by intros ->.
Qed.

Lemma values_of_standardized `{FloatRepr} key v (rs : list (gmap string cell)) :
  key ≠ v →
  map (fun r => cell_at r v)
      (map (fun r => <[key := Str (normalize (cell_at r key))]> r) rs)
  = map (fun r => cell_at r v) rs.
Proof.
  intros Hne. rewrite map_map. apply map_ext. intros r.
  by rewrite cell_at_insert_ne.
Qed.

(** The steps of a successful [preprocess_data]. *)
Lemma am_preprocess_inv `{FloatRepr} gj rf self' :
  Am.preprocess_data (Am.init gj rf) = Ok self' →
  ∃ R0 rent_avg merged,
    concat rf = Ok R0 ∧ "codgeo" ∈ columns gj ∧ "INSEE_C" ∈ columns R0
    ∧ groupby_mean "INSEE_C" ["loypredm2"] (standardized "INSEE_C" R0)
      = Ok rent_avg
    ∧ merge (standardized "codgeo" gj) rent_avg "codgeo" "INSEE_C" = Ok merged
    ∧ Am.geo_data self' = Some (standardized "codgeo" gj)
    ∧ Am.rent_data self' = Some (standardized "INSEE_C" R0)
    ∧ Am.merged_data self' = Some merged.
Proof.
  unfold Am.preprocess_data, Am.load_geo_data, Am.load_rent_data. simpl.
  intros Hm. inv_bind Hm. injection Hm as <-. simpl.
  apply standardize_inv in Hx as [Hcod ->].
  apply standardize_inv in Hx1 as [Hins ->].
  repeat eexists; eauto.
Qed.

(** X1.  am.py standardises the rent key before it groups: the merged
    table of [preprocess_data] has one row per row of the geometry
    table, and the rent of a commune is the mean of the rents that are
    present in the records whose code standardises to the code of the
    commune, missing when there is none. *)
Theorem am_rent_of_commune `{FloatRepr} (geojson : DataFrame)
  (rent_files : list DataFrame) (self' : Am.RentDataProcessor) :
  Am.preprocess_data (Am.init geojson rent_files) = Ok self' →
  ∃ R0 merged,
    concat rent_files = Ok R0 ∧ Am.merged_data self' = Some merged
    ∧ len merged = len geojson
    ∧ (disjoint_labels (columns geojson) ["INSEE_C"; "loypredm2"] →
       Forall2 (fun l r' =>
           let code := normalize (cell_at l "codgeo") in
           let records := records_of "INSEE_C" code R0 in
           r' !! "codgeo" = Some (Str code)
           ∧ r' !! "loypredm2"
             = Some (mean_of_present
                       (map (fun x => cell_at x "loypredm2") records)))
         (rows geojson) (rows merged)).
Proof.
  intros Hm.
  destruct (am_preprocess_inv _ _ _ Hm)
    as (R0 & agg & merged & HR0 & Hcod & Hins & Hagg & Hmerge & _ & _ & Hmd).
  exists R0, merged. split_and!; [done | done | |].
  - rewrite (merge_len _ _ _ _ _ Hmerge).
    + unfold len, standardized. simpl. by rewrite length_map.
    + by eapply groupby_mean_unique.
  - intros Hd.
    destruct (groupby_mean_inv _ _ _ _ Hagg) as (Hca & _).
    destruct (merge_rows_disjoint _ _ _ _ _ Hmerge) as [_ Hrows];
      [done | by rewrite Hca | by eapply groupby_mean_unique |].
    rewrite Hrows. simpl. rewrite map_map.
    apply Forall2_map_same. intros l _. simpl.
    set (code := normalize (cell_at l "codgeo")).
    set (l' := <["codgeo" := Str code]> l).
    assert (Hl' : cell_at l' "codgeo" = Str code)
      by (unfold l'; by rewrite cell_at_insert_eq).
    split.
    + rewrite (lookup_merged_left (standardized "codgeo" geojson)) by done.
      by rewrite Hl'.
    + rewrite (lookup_merged_right (standardized "codgeo" geojson)).
      * f_equal.
        destruct (records_of "INSEE_C" code R0) as [| x xs] eqn:Hrec.
        -- assert (Hmt : matches agg "codgeo" "INSEE_C" l' = []).
           { eapply matches_aggregate; [exact Hagg |].
             by rewrite Hl', rows_of_key_standardized, Hrec. }
           by rewrite Hmt.
        -- rewrite (first_match_mean _ _ _ _ _ _ code "loypredm2" Hagg Hl').
           ++ by rewrite rows_of_key_standardized, values_of_standardized,
                Hrec.
           ++ by apply list_elem_of_singleton.
           ++ by rewrite rows_of_key_standardized, Hrec.
      * simpl. intros Hin. apply (Hd _ Hin). set_solver.
      * rewrite Hca. set_solver.
Qed.

(** ** eau.py: the rates are means of numbers *)

Ltac cell_at_insert :=
  repeat (rewrite cell_at_insert_eq || rewrite cell_at_insert_ne by done).

Lemma to_numeric_coerce (s : Series) : to_numeric s = map coerce s.
Proof. reflexivity. Qed.

Lemma coerce_not_str (c : cell) : is_str (coerce c) = false.
Proof. destruct c as [| z | q | s]; simpl; try done. by destruct (parse_number s). Qed.

Lemma coerce_idem (c : cell) : coerce (coerce c) = coerce c.
Proof. destruct c as [| z | q | s]; simpl; try done. by destruct (parse_number s). Qed.

Lemma has_column_true df c : c ∈ columns df → has_column df c = true.
Proof. intros Hc. by apply has_column_spec. Qed.

Lemma coerce_column_eq `{FloatRepr} c df :
  c ∈ columns df →
  coerce_column c df
  = Ok {| columns := columns df;
          rows := map (fun r => <[c := coerce (cell_at r c)]> r) (rows df) |}.
Proof.
  intros Hc. unfold coerce_column, get_col. rewrite (has_column_true _ _ Hc).
  simpl. rewrite to_numeric_coerce.
  erewrite (set_col_map c c coerce df).
  - by rewrite (has_column_true _ _ Hc).
  - unfold get_col. by rewrite (has_column_true _ _ Hc).
Qed.

Lemma coerce_column_inv `{FloatRepr} c df out :
  coerce_column c df = Ok out →
  c ∈ columns df
  ∧ out = {| columns := columns df;
             rows := map (fun r => <[c := coerce (cell_at r c)]> r) (rows df) |}.
Proof.
  intros Hc.
  assert (Hin : c ∈ columns df).
  { unfold coerce_column in Hc. apply bind_Ok in Hc as (s & Hs & _).
    by apply get_col_inv in Hs as [? _]. }
  split; [done |]. rewrite coerce_column_eq in Hc by done. by injection Hc.
Qed.

(** [clean_data] on a loaded table that has the three columns. *)
Lemma eau_clean_data_eq `{FloatRepr} files d0 :
  "inseecommune" ∈ columns d0 → "plvconformitebacterio" ∈ columns d0 →
  "plvconformitechimique" ∈ columns d0 →
  Eau.clean_data (Eau.mk files (Some d0))
  = Ok (Eau.mk files (Some {| columns := columns d0;
                              rows := map eau_cleaned (rows d0) |})).
Proof.
  intros Hk Hb Hc. unfold Eau.clean_data. simpl.
  rewrite (standardize_eq _ _ Hk). simpl.
  rewrite coerce_column_eq by done. simpl.
  rewrite coerce_column_eq by done. simpl.
  rewrite !map_map. do 4 f_equal. apply map_ext. intros r.
  unfold eau_cleaned. by rewrite !cell_at_insert_ne.
Qed.

Lemma eau_cleaned_key `{FloatRepr} r :
  cell_at (eau_cleaned r) "inseecommune" = Str (normalize (cell_at r "inseecommune")).
Proof.
  unfold eau_cleaned. rewrite 2!cell_at_insert_ne by done.
  by rewrite cell_at_insert_eq.
Qed.

Lemma eau_cleaned_bacterio `{FloatRepr} r :
  cell_at (eau_cleaned r) "plvconformitebacterio"
  = coerce (cell_at r "plvconformitebacterio").
Proof.
  unfold eau_cleaned. rewrite cell_at_insert_ne by done.
  by rewrite cell_at_insert_eq.
Qed.

Lemma eau_cleaned_chimique `{FloatRepr} r :
  cell_at (eau_cleaned r) "plvconformitechimique"
  = coerce (cell_at r "plvconformitechimique").
Proof.
  unfold eau_cleaned. by rewrite cell_at_insert_eq.
Qed.

Lemma rows_of_key_eau_cleaned `{FloatRepr} code (rws : list (gmap string cell)) :
  rows_of_key "inseecommune" (Str code) (map eau_cleaned rws)
  = map eau_cleaned
        (filter (fun x => normalize (cell_at x "inseecommune") = code) rws).
Proof.
  unfold rows_of_key. apply filter_map_comm. intros x.
  rewrite eau_cleaned_key. simpl.
  rewrite Is_true_true, String.eqb_eq. split; by intros ->.
Qed.

(** The labels of the aggregate after the two renamings. *)
Lemma rename_eau agg :
  columns agg = ["inseecommune"; "plvconformitebacterio"; "plvconformitechimique"] →
  columns (rename "plvconformitechimique" "chemical_conformity"
             (rename "plvconformitebacterio" "bacterio_conformity" agg))
  = water_labels
  ∧ rows (rename "plvconformitechimique" "chemical_conformity"
            (rename "plvconformitebacterio" "bacterio_conformity" agg))
    = map (fun r =>
             <["inseecommune" := cell_at r "inseecommune"]>
             (<["bacterio_conformity" := cell_at r "plvconformitebacterio"]>
              (<["chemical_conformity" := cell_at r "plvconformitechimique"]> ∅)))
          (rows agg).
Proof.
  intros Hc. unfold rename. rewrite Hc. simpl. split; [done |].
  rewrite map_map. apply map_ext. intros r. unfold project. simpl.
  by cell_at_insert.
Qed.

(** The aggregate of the cleaned table of eau.py. *)
Lemma eau_aggregate `{FloatRepr} files d0 :
  "inseecommune" ∈ columns d0 → "plvconformitebacterio" ∈ columns d0 →
  "plvconformitechimique" ∈ columns d0 →
  ∃ agg,
    Eau.aggregate_by_commune
      (Eau.mk files (Some {| columns := columns d0;
                             rows := map eau_cleaned (rows d0) |})) = Ok agg
    ∧ columns agg = water_labels
    ∧ unique_keys "inseecommune" (rows agg)
    ∧ (∀ r, r ∈ rows d0 →
         ∃ row, row ∈ rows agg
                ∧ row !! "inseecommune"
                  = Some (Str (normalize (cell_at r "inseecommune"))))
    ∧ ∀ row, row ∈ rows agg →
        ∃ code,
          row !! "inseecommune" = Some (Str code)
          ∧ records_of "inseecommune" code d0 ≠ []
          ∧ row !! "bacterio_conformity"
            = Some (mean_of_present
                      (to_numeric (map (fun x => cell_at x "plvconformitebacterio")
                                       (records_of "inseecommune" code d0))))
          ∧ row !! "chemical_conformity"
            = Some (mean_of_present
                      (to_numeric (map (fun x => cell_at x "plvconformitechimique")
                                       (records_of "inseecommune" code d0)))).
Proof.
  intros Hk Hb Hc.
  set (d := {| columns := columns d0; rows := map eau_cleaned (rows d0) |}).
  destruct (groupby_mean_total "inseecommune"
              ["plvconformitebacterio"; "plvconformitechimique"] d)
    as [agg0 Hagg]; [done | by repeat constructor | | |].
  { intros Hin. apply elem_of_cons in Hin as [Hin | Hin]; [done |].
    by apply list_elem_of_singleton in Hin. }
  { simpl. apply Forall_forall. intros r (x & -> & _)%list_elem_of_fmap.
    repeat constructor.
    - rewrite eau_cleaned_bacterio. apply coerce_not_str.
    - rewrite eau_cleaned_chimique. apply coerce_not_str. }
  destruct (groupby_mean_inv _ _ _ _ Hagg) as (Hca & _).
  destruct (rename_eau _ Hca) as [Hcols Hrows].
  unfold Eau.aggregate_by_commune. simpl. fold d. rewrite Hagg. simpl.
  eexists. split; [done |]. rewrite Hcols, Hrows. split_and!; [done | | |].
  - pose proof (groupby_mean_unique _ _ _ _ Hagg) as Hu.
    unfold unique_keys in *. rewrite map_map.
    erewrite map_ext; [exact Hu |]. intros r. simpl. by cell_at_insert.
  - intros r Hr.
    destruct (groupby_mean_complete _ _ _ _ (eau_cleaned r) Hagg)
      as (row & Hrow & Hkey).
    { simpl. apply list_elem_of_fmap. by exists r. }
    { by rewrite eau_cleaned_key. }
    rewrite eau_cleaned_key, key_eqb_sym in Hkey. apply key_eqb_Str in Hkey.
    eexists. split.
    + apply list_elem_of_fmap. exists row. split; [reflexivity | done].
    + simpl. rewrite lookup_insert_eq. by rewrite Hkey.
  - intros row' (row & -> & Hrow)%list_elem_of_fmap.
    destruct (groupby_mean_row _ _ _ _ _ Hagg Hrow) as (Hne & Hnan & Hmeans).
    assert (Htext : ∃ code, cell_at row "inseecommune" = Str code).
    { destruct (rows_of_key "inseecommune" (cell_at row "inseecommune") (rows d))
        as [| x xs] eqn:Hxs; [done |].
      assert (Hin : x ∈ rows_of_key "inseecommune"
                          (cell_at row "inseecommune") (rows d))
        by (rewrite Hxs; left).
      apply list_elem_of_filter in Hin as [Hkx Hin]. simpl in Hin.
      apply list_elem_of_fmap in Hin as (x0 & -> & _).
      rewrite eau_cleaned_key in Hkx. apply Is_true_true in Hkx.
      rewrite key_eqb_sym in Hkx. apply key_eqb_Str in Hkx. eauto. }
    destruct Htext as [code Hcode]. exists code.
    rewrite Hcode in Hne, Hmeans. simpl in Hne, Hmeans.
    rewrite rows_of_key_eau_cleaned in Hne, Hmeans.
    fold (records_of "inseecommune" code d0) in Hne, Hmeans.
    split_and!.
    + rewrite lookup_insert_eq. by rewrite Hcode.
    + intros Hnil. by rewrite Hnil in Hne.
    + rewrite lookup_insert_ne, lookup_insert_eq by done. f_equal.
      unfold cell_at at 1. rewrite (Hmeans "plvconformitebacterio") by set_solver.
      simpl. rewrite to_numeric_coerce, !map_map. f_equal. apply map_ext.
      intros x. apply eau_cleaned_bacterio.
    + rewrite !lookup_insert_ne, lookup_insert_eq by done. f_equal.
      unfold cell_at at 1. rewrite (Hmeans "plvconformitechimique") by set_solver.
      simpl. rewrite to_numeric_coerce, !map_map. f_equal. apply map_ext.
      intros x. apply eau_cleaned_chimique.
Qed.

(** X2.  In eau.py the conformity codes are converted to numbers, so the
    aggregation never meets a string: on files that have the three
    columns, the three steps return one row per code, and the rate of a
    code is the mean of the codes of its records that denote a number,
    missing when none does. *)
Theorem eau_rates_of_numeric_codes `{FloatRepr} (files : list DataFrame)
  (d0 : DataFrame) :
  concat files = Ok d0 →
  "inseecommune" ∈ columns d0 → "plvconformitebacterio" ∈ columns d0 →
  "plvconformitechimique" ∈ columns d0 →
  ∃ agg,
    (processor ← Eau.load_files (Eau.init files);
     processor ← Eau.clean_data processor;
     Eau.aggregate_by_commune processor) = Ok agg
    ∧ columns agg = ["inseecommune"; "bacterio_conformity"; "chemical_conformity"]
    ∧ unique_keys "inseecommune" (rows agg)
    ∧ (∀ r, r ∈ rows d0 →
         ∃ row, row ∈ rows agg
                ∧ row !! "inseecommune"
                  = Some (Str (normalize (cell_at r "inseecommune"))))
    ∧ ∀ row, row ∈ rows agg →
        ∃ code,
          row !! "inseecommune" = Some (Str code)
          ∧ records_of "inseecommune" code d0 ≠ []
          ∧ row !! "bacterio_conformity"
            = Some (mean_of_present
                      (to_numeric (map (fun x => cell_at x "plvconformitebacterio")
                                       (records_of "inseecommune" code d0))))
          ∧ row !! "chemical_conformity"
            = Some (mean_of_present
                      (to_numeric (map (fun x => cell_at x "plvconformitechimique")
                                       (records_of "inseecommune" code d0)))).
Proof.
  intros Hd0 Hk Hb Hc.
  destruct (eau_aggregate files d0 Hk Hb Hc) as (agg & Hagg & Hrest).
  exists agg. split; [| exact Hrest].
  unfold Eau.load_files. simpl. rewrite Hd0. simpl.
  rewrite eau_clean_data_eq by done. simpl. exact Hagg.
Qed.

(** The steps of a successful run of eau.py. *)
Lemma eau_main_inv `{FloatRepr} files geo merged :
  eau_main files geo = Ok merged →
  ∃ d0 agg,
    concat files = Ok d0
    ∧ "inseecommune" ∈ columns d0 ∧ "plvconformitebacterio" ∈ columns d0
    ∧ "plvconformitechimique" ∈ columns d0
    ∧ Eau.aggregate_by_commune
        (Eau.mk files (Some {| columns := columns d0;
                               rows := map eau_cleaned (rows d0) |})) = Ok agg
    ∧ merge geo agg "codgeo" "inseecommune" = Ok merged.
Proof.
  unfold eau_main. intros Hm. inv_bind Hm.
  unfold Eau.load_files in Hx. simpl in Hx. inv_bind Hx. injection Hx as <-.
  assert (Hcols : "inseecommune" ∈ columns x1
                  ∧ "plvconformitebacterio" ∈ columns x1
                  ∧ "plvconformitechimique" ∈ columns x1).
  { unfold Eau.clean_data in Hx0. simpl in Hx0. inv_bind Hx0.
    apply standardize_inv in Hx as [Hk ->].
    apply coerce_column_inv in Hx2 as [Hb ->].
    apply coerce_column_inv in Hx3 as [Hc _]. done. }
  destruct Hcols as (Hk & Hb & Hc).
  rewrite eau_clean_data_eq in Hx0 by done. injection Hx0 as <-.
  unfold Eau.merge_with_geo_data in Hm. inv_bind Hm.
  exists x1, x. by split_and!.
Qed.

(** X3.  eau.py merges the geometry table as it was read: the merged
    table has one row per row of the geometry table, and a commune whose
    code is the text [code] receives the rates of the records whose code
    standardises to [code]; its own code is not standardised. *)
Theorem eau_merge_rows `{FloatRepr} (files : list DataFrame)
  (communes_geo geo_merged : DataFrame) :
  eau_main files communes_geo = Ok geo_merged →
  ∃ d0,
    concat files = Ok d0
    ∧ len geo_merged = len communes_geo
    ∧ (disjoint_labels (columns communes_geo) water_labels →
       Forall2 (fun l r' =>
           (∀ c, c ∈ columns communes_geo → r' !! c = Some (cell_at l c))
           ∧ ∀ code, cell_at l "codgeo" = Str code →
               let records := records_of "inseecommune" code d0 in
               r' !! "bacterio_conformity"
               = Some (mean_of_present
                         (to_numeric
                            (map (fun x => cell_at x "plvconformitebacterio")
                                 records)))
               ∧ r' !! "chemical_conformity"
                 = Some (mean_of_present
                           (to_numeric
                              (map (fun x => cell_at x "plvconformitechimique")
                                   records))))
         (rows communes_geo) (rows geo_merged)).
Proof.
  intros Hm.
  destruct (eau_main_inv _ _ _ Hm) as (d0 & agg & Hd0 & Hk & Hb & Hc & Hagg & Hmg).
  destruct (eau_aggregate files d0 Hk Hb Hc)
    as (agg' & Hagg' & Hcols & Hu & Hall & Hrow).
  assert (agg' = agg) as -> by congruence.
  exists d0. split_and!; [done | by apply (merge_len _ _ _ _ _ Hmg) |].
  intros Hd.
  destruct (merge_rows_disjoint _ _ _ _ _ Hmg) as [_ Hrows];
    [done | by rewrite Hcols | done |].
  rewrite Hrows. apply Forall2_map_same. intros l _. split.
  - intros c Hin. by apply lookup_merged_left.
  - intros code Hcode. simpl.
    assert (Hcell : ∀ c, c ∈ water_labels →
              (project id (columns communes_geo) l
               ∪ right_part agg "codgeo" "inseecommune" l) !! c
              = Some (match matches agg "codgeo" "inseecommune" l with
                      | [] => NaN
                      | r :: _ => cell_at r c
                      end)).
    { intros c Hin. apply lookup_merged_right; [| by rewrite Hcols].
      intros Hg. by apply (Hd c). }
    rewrite !Hcell by (unfold water_labels; set_solver).
    destruct (matches agg "codgeo" "inseecommune" l) as [| r ms] eqn:Hmt.
    + assert (Hnil : records_of "inseecommune" code d0 = []).
      { destruct (records_of "inseecommune" code d0) as [| x xs] eqn:Hrec;
          [done |].
        assert (Hx : x ∈ records_of "inseecommune" code d0)
          by (rewrite Hrec; left).
        apply list_elem_of_filter in Hx as [Hnx Hx].
        destruct (Hall x Hx) as (row & Hin & Hkey). rewrite Hnx in Hkey.
        assert (Hin' : row ∈ matches agg "codgeo" "inseecommune" l).
        { apply list_elem_of_filter. split; [| done]. apply Is_true_true.
          unfold cell_at at 2. rewrite Hkey, Hcode. simpl.
          apply String.eqb_refl. }
        rewrite Hmt in Hin'. by apply not_elem_of_nil in Hin'. }
      by rewrite Hnil.
    + assert (Hin : r ∈ matches agg "codgeo" "inseecommune" l)
        by (rewrite Hmt; left).
      apply list_elem_of_filter in Hin as [Hkey Hin].
      apply Is_true_true in Hkey. rewrite Hcode in Hkey.
      apply key_eqb_Str in Hkey.
      destruct (Hrow r Hin) as (code' & Hc' & _ & Hbact & Hchem).
      assert (code' = code) as ->.
      { unfold cell_at in Hkey. rewrite Hc' in Hkey. simpl in Hkey.
        by injection Hkey. }
      unfold cell_at. by rewrite Hbact, Hchem.
Qed.

(** X4.  Because the geometry key is not converted to text in eau.py,
    a geometry table whose codes were read as integers cannot be merged
    with the water aggregate, whose codes are text: the script raises
    [ValueError]. *)
Theorem eau_numeric_geometry_codes `{FloatRepr} (files : list DataFrame)
  (d0 communes_geo : DataFrame) :
  concat files = Ok d0 →
  "inseecommune" ∈ columns d0 → "plvconformitebacterio" ∈ columns d0 →
  "plvconformitechimique" ∈ columns d0 →
  rows d0 ≠ [] →
  "codgeo" ∈ columns communes_geo → rows communes_geo ≠ [] →
  Forall (fun l => is_int (cell_at l "codgeo") = true) (rows communes_geo) →
  eau_main files communes_geo = Raise ValueError.
Proof.
  intros Hd0 Hk Hb Hc Hne Hcod Hgne Hnum.
  destruct (eau_aggregate files d0 Hk Hb Hc)
    as (agg & Hagg & Hcols & Hu & Hall & Hrow).
  unfold eau_main, Eau.load_files. simpl. rewrite Hd0. simpl.
  rewrite eau_clean_data_eq by done. simpl.
  unfold Eau.merge_with_geo_data. rewrite Hagg. simpl.
  unfold merge, get_col. rewrite (has_column_true _ _ Hcod). simpl.
  rewrite has_column_true by (rewrite Hcols; unfold water_labels; set_solver).
  simpl.
  set (lk := map (fun r => cell_at r "codgeo") (rows communes_geo)).
  set (rk := map (fun r => cell_at r "inseecommune") (rows agg)).
  assert (Hlk : numeric_dtype lk = true).
  { unfold numeric_dtype, lk. apply forallb_forall.
    intros c (l & <- & Hl)%in_map_iff. apply list_elem_of_In in Hl.
    rewrite Forall_forall in Hnum. specialize (Hnum l Hl).
    by destruct (cell_at l "codgeo"). }
  assert (Hstr : Forall (fun c => is_str c = true) rk).
  { unfold rk. apply Forall_fmap, Forall_forall. intros row Hin. simpl.
    destruct (Hrow row Hin) as (code & Hcode & _).
    unfold cell_at. by rewrite Hcode. }
  assert (Hrne : rk ≠ []).
  { destruct (rows d0) as [| x xs] eqn:Hxs; [done |].
    destruct (Hall x) as (row & Hin & _); [left |].
    unfold rk. destruct (rows agg); [by apply not_elem_of_nil in Hin | done]. }
  assert (Hrk : string_like rk = true).
  { unfold string_like. apply andb_true_iff. split.
    - destruct rk as [| c rk']; [done |]. simpl.
      apply Forall_cons in Hstr as [-> _]. done.
    - apply negb_true_iff, existsb_false_Forall.
      eapply Forall_impl; [exact Hstr |]. intros c. by destruct c. }
  assert (Hko : merge_keys_ok lk rk = false).
  { unfold merge_keys_ok. rewrite Hlk, Hrk.
    destruct lk as [| a lk'] eqn:Hl.
    - unfold lk in Hl. by destruct (rows communes_geo).
    - destruct rk; [done |]. by rewrite orb_true_r. }
  by rewrite Hko.
Qed.

(** ** final.py: the population table *)

Lemma merge_row_length left right lon ron l :
  length (merge_row left right lon ron l)
  = Nat.max 1 (length (matches right lon ron l)).
Proof.
  unfold merge_row. destruct (matches right lon ron l) as [| r ms]; [done |].
  by rewrite length_map.
Qed.

(** A left join gives every left row one row per right row of its key,
    and one row when there is none. *)
Lemma merge_len_sum left right lon ron out :
  merge left right lon ron = Ok out →
  len out
  = sum_list_with (fun l => Nat.max 1 (length (matches right lon ron l)))
                  (rows left).
Proof.
  intros (_ & _ & _ & _ & ->)%merge_inv. unfold len. simpl.
  induction (rows left) as [| l ls IH]; simpl; [done |].
  by rewrite length_app, merge_row_length, IH.
Qed.

Lemma lookup_project f cols r c :
  NoDup (map f cols) → c ∈ cols → project f cols r !! f c = Some (cell_at r c).
Proof.
  unfold project. induction cols as [| a cols IH]; intros Hnd Hc;
    [by apply not_elem_of_nil in Hc |].
  simpl in *. apply NoDup_cons in Hnd as [Hna Hnd].
  destruct (decide (c = a)) as [-> | Hne].
  - by rewrite lookup_insert_eq.
  - apply elem_of_cons in Hc as [? | Hc]; [done |].
    rewrite lookup_insert_ne; [by apply IH |].
    intros Heq. apply Hna. rewrite Heq. apply list_elem_of_fmap.
    by exists c.
Qed.

Lemma merge_row_form left right lon ron l :
  unique_keys ron (rows right) →
  ∃ y, merge_row left right lon ron l
       = [project (suffix (overlap left right lon ron) "_x") (columns left) l ∪ y].
Proof.
  intros Hu%(unique_keys_matches right lon ron l). unfold merge_row.
  destruct (matches right lon ron l) as [| r [| r' ms]];
    [by eexists | by eexists | simpl in Hu; lia].
Qed.

(** A left join with an aggregate keeps the key column of the left
    table as it is. *)
Lemma merge_keeps_key left right lon ron out :
  merge left right lon ron = Ok out → unique_keys ron (rows right) →
  lon ≠ ron → lon ∉ columns right →
  map (fun r => cell_at r lon) (rows out)
  = map (fun r => cell_at r lon) (rows left).
Proof.
  intros (Hlon & _ & _ & Hnd & ->)%merge_inv Hu Hne Hnin. simpl.
  unfold merge_labels in Hnd. apply NoDup_app in Hnd as (Hnd & _ & _).
  assert (Hov : suffix (overlap left right lon ron) "_x" lon = lon).
  { unfold suffix. rewrite bool_decide_eq_false_2; [done |].
    unfold overlap. apply String.eqb_neq in Hne. rewrite Hne.
    intros [Hin _]%list_elem_of_filter. unfold right_labels in Hin.
    by rewrite Hne in Hin. }
  induction (rows left) as [| l ls IH]; simpl; [done |].
  destruct (merge_row_form left right lon ron l Hu) as [y ->]. simpl.
  rewrite IH. f_equal.
  assert (Hl' : project (suffix (overlap left right lon ron) "_x")
                        (columns left) l !! lon = Some (cell_at l lon)).
  { pose proof (lookup_project (suffix (overlap left right lon ron) "_x")
                  (columns left) l lon Hnd Hlon) as Hp.
    by rewrite Hov in Hp. }
  rewrite cell_at_union_l by (rewrite Hl'; by eexists).
  unfold cell_at at 1. by rewrite Hl'.
Qed.

Lemma select_inv cols df out :
  select cols df = Ok out →
  Forall (fun c => c ∈ columns df) cols
  ∧ out = {| columns := cols; rows := map (project id cols) (rows df) |}.
Proof.
  unfold select. destruct (forallb (has_column df) cols) eqn:Hall; [| done].
  intros [= <-]. split; [| done]. apply Forall_forall. intros c Hc.
  rewrite forallb_forall in Hall. apply has_column_spec, Hall.
  by apply list_elem_of_In.
Qed.

Lemma sum_list_with_map {A B} (f : B → nat) (g : A → B) (l : list A) :
  sum_list_with (fun x => f (g x)) l = sum_list_with f (map g l).
Proof. induction l as [| x l IH]; simpl; [done |]. by rewrite IH. Qed.

Lemma filter_NoDup_length {A B} `{EqDecision B} (f : A → B) (c : B) (l : list A) :
  NoDup (map f l) → length (filter (fun x => f x = c) l) ≤ 1.
Proof.
  induction l as [| x l IH]; simpl; [lia |]. intros [Hx Hnd]%NoDup_cons.
  rewrite filter_cons. destruct (decide (f x = c)) as [Heq | Hne].
  - simpl. rewrite filter_nil_Forall; [done |].
    apply Forall_forall. intros y Hy Hfy. apply Hx. rewrite Heq, <- Hfy.
    apply list_elem_of_fmap. by exists y.
  - by apply IH.
Qed.

(** The rows of the population table, as [merge_data] selects them, that
    a row with the code [code] finds. *)
Lemma matches_population `{FloatRepr} pop (l : gmap string cell) code :
  cell_at l "codgeo" = Str code →
  matches {| columns := ["codgeo"; "p21_pop"];
             rows := map (project id ["codgeo"; "p21_pop"])
                         (rows (standardized "codgeo" pop)) |}
          "codgeo" "codgeo" l
  = map (fun r => project id ["codgeo"; "p21_pop"]
                    (<["codgeo" := Str (normalize (cell_at r "codgeo"))]> r))
        (records_of "codgeo" code pop).
Proof.
  intros Hl. unfold matches, records_of. simpl. rewrite map_map, Hl.
  apply filter_map_comm. intros x.
  rewrite cell_at_project_id by (apply (bool_decide_unpack _); by vm_compute).
  rewrite cell_at_insert_eq. simpl.
  rewrite Is_true_true, String.eqb_eq. split; by intros ->.
Qed.

(** The steps of a successful run of final.py with a population
    file. *)
Lemma main_population_inv `{FloatRepr} wf gj rf pop self' :
  Final.main (Final.init wf gj rf (Some pop)) = Ok self' →
  ∃ w0 w agg R ragg g1 g2 g',
    concat wf = Ok w0 ∧ clean_water w0 = Ok w ∧ water_aggregate w = Ok agg
    ∧ concat rf = Ok R ∧ groupby_mean "INSEE_C" ["loypredm2"] R = Ok ragg
    ∧ "codgeo" ∈ columns gj ∧ "codgeo" ∈ columns pop ∧ "p21_pop" ∈ columns pop
    ∧ merge (standardized "codgeo" gj) agg "codgeo" "inseecommune" = Ok g1
    ∧ merge g1 (rename "loypredm2" "mean_loypredm2" ragg) "codgeo" "INSEE_C"
      = Ok g2
    ∧ merge g2 {| columns := ["codgeo"; "p21_pop"];
                  rows := map (project id ["codgeo"; "p21_pop"])
                              (rows (standardized "codgeo" pop)) |}
            "codgeo" "codgeo" = Ok g'
    ∧ Final.geo_data self' = Some g'.
Proof.
  unfold Final.main. intros Hm. inv_bind Hm.
  unfold Final.load_water_data in Hx. inv_bind Hx. injection Hx as <-.
  unfold Final.clean_water_data in Hx0. simpl in Hx0. inv_bind Hx0.
  injection Hx0 as <-.
  unfold Final.load_geo_data in Hx1. simpl in Hx1. inv_bind Hx1.
  injection Hx1 as <-. apply standardize_inv in Hx0 as [Hcod ->].
  unfold Final.load_rent_data in Hx2. simpl in Hx2. inv_bind Hx2.
  injection Hx2 as <-.
  unfold Final.load_population_data in Hx3. simpl in Hx3. inv_bind Hx3.
  injection Hx3 as <-. apply standardize_inv in Hx2 as [Hpcod ->].
  unfold Final.merge_data in Hm. simpl in Hm. inv_bind Hm.
  injection Hm as <-. simpl.
  match goal with
  | Hs : select _ _ = Ok _ |- _ => apply select_inv in Hs as [Hsel ->]
  end.
  assert (Hp21 : "p21_pop" ∈ columns pop).
  { rewrite Forall_forall in Hsel. apply (Hsel "p21_pop").
    apply (bool_decide_unpack _). by vm_compute. }
  repeat eexists; eauto.
Qed.

(** Membership and its negation among labels that are given. *)
Ltac decide_labels := apply (bool_decide_unpack _); by vm_compute.

Lemma sum_list_with_ext_in {A} (f g : A → nat) (l : list A) :
  (∀ x, x ∈ l → f x = g x) → sum_list_with f l = sum_list_with g l.
Proof.
  induction l as [| x l IH]; intros Hfg; simpl; [done |].
  rewrite Hfg by left. rewrite IH; [done |]. intros y Hy. apply Hfg. by right.
Qed.

Lemma sum_list_with_ones {A} (f : A → nat) (l : list A) :
  (∀ x, x ∈ l → f x = 1) → sum_list_with f l = length l.
Proof.
  induction l as [| x l IH]; intros Hf; simpl; [done |].
  rewrite Hf by left. rewrite IH; [done |]. intros y Hy. apply Hf. by right.
Qed.

Lemma Forall2_join_singletons {A B} (Q : A → B → Prop) (f : A → list B)
  (l : list A) :
  (∀ x, x ∈ l → ∃ y, f x = [y] ∧ Q x y) → Forall2 Q l (mjoin (map f l)).
Proof.
  induction l as [| x l IH]; intros Hf; simpl; [constructor |].
  destruct (Hf x) as (y & -> & Hq); [left |]. simpl. constructor; [done |].
  apply IH. intros z Hz. apply Hf. by right.
Qed.

(** X5.  final.py merges the population table as it was read, without
    aggregation: a commune gets one row per population row whose code
    standardises to its code, and one row when there is none.  When the
    population file lists every code once, the merged table has one row
    per row of the geometry table, and the population of a commune is
    that of the row of its code, missing when there is none. *)
Theorem population_join_rows `{FloatRepr} (water_files rent_files : list DataFrame)
  (geojson pop : DataFrame) (self' : Final.DataProcessor) :
  Final.main (Final.init water_files geojson rent_files (Some pop)) = Ok self' →
  ∃ merged,
    Final.geo_data self' = Some merged
    ∧ len merged
      = sum_list_with
          (fun l => Nat.max 1 (length (records_of "codgeo"
                                         (normalize (cell_at l "codgeo")) pop)))
          (rows geojson)
    ∧ (NoDup (map (fun r => normalize (cell_at r "codgeo")) (rows pop)) →
       len merged = len geojson
       ∧ (disjoint_labels (columns geojson) (indicator_labels ++ ["p21_pop"]) →
          Forall2 (fun l r' =>
              r' !! "p21_pop"
              = Some match records_of "codgeo"
                             (normalize (cell_at l "codgeo")) pop with
                     | [] => NaN
                     | x :: _ => cell_at x "p21_pop"
                     end)
            (rows geojson) (rows merged))).
Proof.
  intros Hm.
  destruct (main_population_inv _ _ _ _ _ Hm)
    as (w0 & w & agg & R & ragg & g1 & g2 & g' & Hw0 & Hw & Hagg & HR & Hragg
        & Hcod & Hpcod & Hp21 & Hg1 & Hg2 & Hg' & Hgeo).
  set (p := {| columns := ["codgeo"; "p21_pop"];
               rows := map (project id ["codgeo"; "p21_pop"])
                           (rows (standardized "codgeo" pop)) |}) in *.
  pose proof (water_aggregate_columns _ _ Hagg) as Hca.
  pose proof (groupby_mean_unique _ _ _ _ Hagg) as Hua.
  pose proof (groupby_mean_unique _ _ _ _ Hragg) as Hur.
  destruct (groupby_mean_inv _ _ _ _ Hragg) as (Hcr & _).
  destruct (rename_rent _ Hcr) as [Hcr' _].
  apply rename_rent_unique in Hur; [| done].
  assert (Hk1 : map (fun r => cell_at r "codgeo") (rows g1)
                = map (fun r => Str (normalize (cell_at r "codgeo")))
                      (rows geojson)).
  { rewrite (merge_keeps_key _ _ _ _ _ Hg1); [| done | done |].
    - simpl. rewrite map_map. apply map_ext. intros l.
      by rewrite cell_at_insert_eq.
    - rewrite Hca. decide_labels. }
  assert (Hk2 : map (fun r => cell_at r "codgeo") (rows g2)
                = map (fun r => Str (normalize (cell_at r "codgeo")))
                      (rows geojson)).
  { rewrite (merge_keeps_key _ _ _ _ _ Hg2); [done | done | done |].
    rewrite Hcr'. decide_labels. }
  assert (Hlen : len g'
                 = sum_list_with
                     (fun l => Nat.max 1 (length (records_of "codgeo"
                                 (normalize (cell_at l "codgeo")) pop)))
                     (rows geojson)).
  { rewrite (merge_len_sum _ _ _ _ _ Hg').
    set (F := fun k : cell =>
                Nat.max 1 (length (filter (fun r => key_eqb k (cell_at r "codgeo"))
                                          (rows p)))).
    rewrite (sum_list_with_ext_in _ (fun l => F (cell_at l "codgeo"))) by done.
    rewrite (sum_list_with_map F), Hk2, <- sum_list_with_map.
    apply sum_list_with_ext_in. intros l _. unfold F.
    pose proof (matches_population pop
                  (<["codgeo" := Str (normalize (cell_at l "codgeo"))]> l)
                  (normalize (cell_at l "codgeo"))) as Hmp.
    unfold matches in Hmp. rewrite cell_at_insert_eq in Hmp.
    fold p in Hmp. rewrite Hmp by done. by rewrite length_map. }
  exists g'. split_and!; [done | done |].
  intros Hnd.
  assert (Hone : ∀ code, length (records_of "codgeo" code pop) ≤ 1).
  { intros code. unfold records_of.
    by apply (filter_NoDup_length (fun r => normalize (cell_at r "codgeo"))). }
  split.
  - rewrite Hlen. apply sum_list_with_ones. intros l _.
    specialize (Hone (normalize (cell_at l "codgeo"))). lia.
  - intros Hd.
    assert (Hdi : disjoint_labels (columns geojson) indicator_labels).
    { intros c Hc Hin. apply (Hd c Hc). apply elem_of_app. by left. }
    assert (Hdp : "p21_pop" ∉ columns geojson).
    { intros Hin. apply (Hd _ Hin). apply elem_of_app. right. left. }
    apply disjoint_indicator_labels in Hdi as [Hdw Hdr].
    destruct (merge_twice (standardized "codgeo" geojson) agg
                (rename "loypredm2" "mean_loypredm2" ragg)
                "codgeo" "inseecommune" "INSEE_C" g1 g2) as (Hc2 & _ & _ & Hr2);
      try done.
    { by rewrite Hca. }
    { by rewrite Hcr'. }
    { rewrite Hca, Hcr'. apply water_rent_labels_disjoint. }
    apply merge_inv in Hg' as (_ & _ & _ & _ & ->). simpl.
    assert (Hnin : "p21_pop" ∉ columns g2).
    { rewrite Hc2, Hca, Hcr'. simpl.
      intros [[Hin | Hin]%elem_of_app | Hin]%elem_of_app; [done | |];
        revert Hin; by apply (bool_decide_unpack _). }
    assert (Hrl : right_labels p "codgeo" "codgeo" = ["p21_pop"]).
    { unfold right_labels. rewrite String.eqb_refl. simpl.
      rewrite filter_cons_False by (intros Hne; by apply Hne).
      by rewrite filter_cons_True. }
    assert (Hov : overlap g2 p "codgeo" "codgeo" = []).
    { unfold overlap. rewrite String.eqb_refl, Hrl.
      apply filter_nil_Forall, Forall_forall.
      intros c [_ Hc]%list_elem_of_filter Hin.
      apply list_elem_of_singleton in Hin as ->. done. }
    rewrite Hr2. simpl. rewrite !map_map.
    apply Forall2_join_singletons. intros l _.
    set (code := normalize (cell_at l "codgeo")).
    set (l2 := (project id (columns geojson) (<["codgeo" := Str code]> l)
                ∪ right_part agg "codgeo" "inseecommune"
                    (<["codgeo" := Str code]> l))
               ∪ right_part (rename "loypredm2" "mean_loypredm2" ragg)
                   "codgeo" "INSEE_C" (<["codgeo" := Str code]> l)).
    assert (Hl2 : cell_at l2 "codgeo" = Str code).
    { unfold l2. rewrite cell_at_union_l.
      - rewrite (cell_at_merged_left (standardized "codgeo" geojson)) by done.
        by rewrite cell_at_insert_eq.
      - rewrite (lookup_merged_left (standardized "codgeo" geojson)) by done.
        by eexists. }
    pose proof (matches_population pop l2 code Hl2) as Hmp. fold p in Hmp.
    unfold merge_row. rewrite Hov, Hrl, Hmp.
    rewrite project_suffix_nil. simpl.
    specialize (Hone code). fold code.
    destruct (records_of "codgeo" code pop) as [| x [| x' xs]];
      [| | simpl in Hone; lia]; simpl; eexists; (split; [reflexivity |]).
    + rewrite lookup_union_r.
      * rewrite suffix_nil, lookup_nan_row. by rewrite decide_True by left.
      * rewrite lookup_project_id. by rewrite decide_False.
    + rewrite lookup_union_r.
      * rewrite project_suffix_nil, lookup_project_id.
        rewrite decide_True by left. f_equal.
        rewrite cell_at_project_id by decide_labels.
        by rewrite cell_at_insert_ne.
      * rewrite lookup_project_id. by rewrite decide_False.
Qed.

(** ** population_merge.py: the two classes and their siblings *)

(** X6.  Without population file, the first class of population_merge.py
    is eau_merge.py: the two main blocks raise the same exception or
    return the same merged table, and the same correlation matrix. *)
Theorem population_merge_without_population `{FloatRepr}
  (water_files : list DataFrame) (geojson rent_data : DataFrame) :
  (self ← population_merge_main
            (PopulationMerge.init water_files geojson rent_data None);
   Ok (PopulationMerge.geo_data self))
  = (self ← EauMerge.main (EauMerge.init water_files geojson rent_data);
     Ok (EauMerge.geo_data self))
  ∧ (self ← population_merge_main
              (PopulationMerge.init water_files geojson rent_data None);
     PopulationMerge.analyze_correlation self)
    = (self ← EauMerge.main (EauMerge.init water_files geojson rent_data);
       EauMerge.analyze_correlation self).
Proof.
  unfold population_merge_main, EauMerge.main.
  unfold PopulationMerge.load_water_data, EauMerge.load_water_data. simpl.
  destruct (concat water_files) as [w0 | e]; [simpl | done].
  unfold PopulationMerge.clean_water_data, EauMerge.clean_water_data. simpl.
  destruct (clean_water w0) as [w | e]; [simpl | done].
  unfold PopulationMerge.load_geo_data, EauMerge.load_geo_data. simpl.
  destruct (standardize "codgeo" geojson) as [g | e]; [simpl | done].
  unfold PopulationMerge.merge_data, EauMerge.merge_data. simpl.
  destruct (water_aggregate w) as [agg | e]; [simpl | done].
  destruct (merge g agg "codgeo" "inseecommune") as [g1 | e]; [simpl | done].
  destruct (groupby_mean "INSEE_C" ["loypredm2"] rent_data) as [ragg | e];
    [simpl | done].
  destruct (merge g1 ragg "codgeo" "INSEE_C") as [g2 | e]; [simpl | done].
  split; [done |].
  unfold PopulationMerge.analyze_correlation, EauMerge.analyze_correlation,
    PopulationMerge.analysis_data, EauMerge.analysis_data. simpl.
  done.
Qed.

(** X7.  The second class of population_merge.py loads the population
    before the rents, final.py after them: when one of the two main
    blocks returns, the other returns the same object. *)
Theorem population_and_rent_loaders_commute `{FloatRepr}
  (self self' : Final.DataProcessor) :
  Final.main self = Ok self' ↔ population_rent_main self = Ok self'.
Proof.
  unfold Final.main, population_rent_main.
  destruct (Final.load_water_data self) as [s1 | e]; [simpl | done].
  destruct (Final.clean_water_data s1) as [s2 | e]; [simpl | done].
  destruct (Final.load_geo_data s2) as [s3 | e]; [simpl | done].
  unfold Final.load_rent_data, Final.load_population_data.
  destruct s3 as [wf gj rf pf geo water pop rent]. simpl.
  destruct pf as [p |]; simpl;
    [destruct (standardize "codgeo" p) as [ps | e] eqn:Hs; simpl |];
    (destruct (concat rf) as [R | e1]; simpl;
     [destruct (groupby_mean "INSEE_C" ["loypredm2"] R) as [ragg | e2]; simpl |]);
    rewrite ?Hs; simpl;
    solve [reflexivity | split; intros Hx; discriminate Hx].
Qed.

(** ** mysql_database.py: the registry and the merge *)

(** X8.  [create_schema] keeps a table that exists, and
    [populate_commune_stub] appends to the registry, whose primary key
    refuses a code twice: after a run that filled the registry, a second
    run of the two calls with the same codes raises. *)
Theorem registry_refuses_second_run (db db' : MySQL.Database)
  (codgeos : list string) :
  MySQL.populate_commune_stub (MySQL.create_schema db) codgeos = Ok db' →
  codgeos ≠ [] →
  MySQL.populate_commune_stub (MySQL.create_schema db') codgeos
  = Raise DatabaseError.
Proof.
  unfold MySQL.populate_commune_stub. simpl.
  set (reg := default [] (MySQL.commune db)).
  destruct (forallb MySQL.fits_char5 codgeos && bool_decide (NoDup (reg ++ codgeos)))
    eqn:Hok; [| done].
  intros [= <-] Hne. simpl.
  rewrite (bool_decide_eq_false_2 (NoDup ((reg ++ codgeos) ++ codgeos)));
    [by rewrite andb_false_r |].
  intros (_ & Hdis & _)%NoDup_app.
  destruct codgeos as [| c cs]; [done |].
  apply (Hdis c); [| left]. apply elem_of_app. right. left.
Qed.


(** The codes that the main block collects from a set of files. *)
Lemma unique_codes_eq `{FloatRepr} key files df :
  concat files = Ok df → key ∈ columns df →
  unique_codes key files
  = Ok (remove_dups (map (fun r => normalize (cell_at r key)) (rows df))).
Proof.
  intros Hdf Hkey. unfold unique_codes. rewrite Hdf. simpl.
  rewrite (standardize_eq _ _ Hkey). simpl.
  unfold get_col. rewrite has_column_true by done. simpl.
  rewrite map_map. do 2 f_equal.
  induction (rows df) as [| r rs IH]; simpl; [done |].
  rewrite cell_at_insert_eq. simpl. by rewrite <- IH.
Qed.

Lemma remove_dups_map_Some {A} `{EqDecision A} (l : list A) :
  remove_dups (map Some l) = map Some (remove_dups l).
Proof.
  induction l as [| x l IH]; simpl; [done |].
  destruct (decide_rel elem_of x l) as [Hin | Hnin];
    destruct (decide_rel elem_of (Some x) (map Some l)) as [Hin' | Hnin'];
    simpl; rewrite ?IH; try done.
  - destruct Hnin'. apply list_elem_of_fmap. by exists x.
  - apply list_elem_of_fmap in Hin' as (y & [= <-] & Hy). done.
Qed.

Lemma map_Some_inj {A} (l k : list A) : map Some l = map Some k → l = k.
Proof.
  revert k. induction l as [| x l IH]; intros [| y k]; simpl; try done.
  intros [= -> Hk]. f_equal. by apply IH.
Qed.

Lemma normalize_fits `{FloatRepr} c :
  String.length (py_str c) ≤ 5 → MySQL.fits_char5 (normalize c) = true.
Proof.
  intros Hc. unfold MySQL.fits_char5, normalize. rewrite zfill_length.
  apply Nat.leb_le. lia.
Qed.

(** X10.  The main block of mysql_database.py registers the codes of the
    water files and of the rent files before it loads them, so the
    foreign key of [merged_data] always finds its code: on files that
    have the columns the script reads, with rents that are numbers or
    missing and codes of at most five characters, the script raises
    nothing, and [merged_data] lists the codes of the water records.
    The engine is taken to compare codes character by character and to
    store every mean in its [DECIMAL] column. *)
Theorem sql_script_registers_codes `{FloatRepr} `{SqlEngine}
  (rent_files water_files : list DataFrame) (w0 R0 : DataFrame) :
  concat water_files = Ok w0 → concat rent_files = Ok R0 →
  "inseecommune" ∈ columns w0 → "plvconformitebacterio" ∈ columns w0 →
  "plvconformitechimique" ∈ columns w0 →
  "INSEE_C" ∈ columns R0 → "loypredm2" ∈ columns R0 →
  Forall (fun r => is_str (cell_at r "loypredm2") = false) (rows R0) →
  Forall (fun r => String.length (py_str (cell_at r "inseecommune")) ≤ 5)
         (rows w0) →
  Forall (fun r => String.length (py_str (cell_at r "INSEE_C")) ≤ 5) (rows R0) →
  ∃ db merged,
    sql_script rent_files water_files = Ok db
    ∧ MySQL.merged_data db = Some merged
    ∧ merged_codes merged
      = remove_dups (map (fun r => normalize (cell_at r "inseecommune"))
                         (rows w0)).
Proof.
  intros Hw0 HR0 Hk Hb Hc Hrk Hrv Hnum Hwfit Hrfit.
  unfold sql_script.
  rewrite (unique_codes_eq _ _ _ Hw0 Hk), (unique_codes_eq _ _ _ HR0 Hrk).
  simpl.
  set (cw := remove_dups (map (fun r => normalize (cell_at r "inseecommune"))
                              (rows w0))).
  set (cr := remove_dups (map (fun r => normalize (cell_at r "INSEE_C"))
                              (rows R0))).
  set (codes := remove_dups (cw ++ cr)).
  assert (Hfits : forallb MySQL.fits_char5 codes = true).
  { apply forallb_forall. intros code Hin%list_elem_of_In.
    apply elem_of_remove_dups, elem_of_app in Hin as [Hin | Hin];
      apply elem_of_remove_dups, list_elem_of_fmap in Hin as (r & -> & Hr);
      apply normalize_fits.
    - rewrite Forall_forall in Hwfit. by apply Hwfit.
    - rewrite Forall_forall in Hrfit. by apply Hrfit. }
  (* the registry *)
  unfold sql_main, MySQL.populate_commune_stub. simpl.
  rewrite Hfits, bool_decide_eq_true_2 by apply NoDup_remove_dups. simpl.
  (* the rent table *)
  unfold MySQL.load_rent_data. rewrite HR0. simpl.
  rewrite (standardize_eq _ _ Hrk). simpl.
  destruct (groupby_mean_total "INSEE_C" ["loypredm2"]
              (standardized "INSEE_C" R0)) as [ragg Hragg];
    [done | by repeat constructor | | |].
  { intros Hin. by apply list_elem_of_singleton in Hin. }
  { simpl. apply Forall_forall. intros r (x & -> & Hx)%list_elem_of_fmap.
    repeat constructor. rewrite cell_at_insert_ne by done.
    rewrite Forall_forall in Hnum. by apply Hnum. }
  rewrite Hragg. simpl.
  destruct (groupby_mean_inv _ _ _ _ Hragg) as (Hcr & _).
  (* the water table *)
  unfold MySQL.load_water_data. rewrite Hw0. simpl.
  destruct (clean_water_total w0 Hk Hb Hc) as [w Hw]. rewrite Hw. simpl.
  destruct (clean_water_inv _ _ Hw) as (Hrows & Hwk & Hwb & Hwc).
  (* the merge *)
  unfold MySQL.preprocess_and_merge_data. simpl.
  unfold MySQL.has_columns. simpl.
  rewrite (has_column_true w "inseecommune"),
    (has_column_true w "bacterio_conformity"),
    (has_column_true w "chemical_conformity") by done. simpl.
  assert (Hrc : columns (rename "loypredm2" "mean_loypredm2"
                           (rename "INSEE_C" "insee_c" ragg))
                = ["insee_c"; "mean_loypredm2"]).
  { unfold rename. by rewrite Hcr. }
  rewrite !has_column_true by (rewrite Hrc; decide_labels). simpl.
  assert (Hkeys : map (fun r => MySQL.sql_text (cell_at r "inseecommune")) (rows w)
                  = map (fun r => Some (normalize (cell_at r "inseecommune")))
                        (rows w0)).
  { rewrite Hrows, map_map. apply map_ext. intros r. by cell_at_insert. }
  destruct (mapR_total (MySQL.insert_merged codes) (MySQL.select_water_averages w))
    as [ins Hins].
  { apply Forall_forall. intros v Hv.
    assert (Hv1 : v.1.1 ∈ map (fun v => v.1.1) (MySQL.select_water_averages w)).
    { apply list_elem_of_fmap. by exists v. }
    rewrite select_water_averages_keys, Hkeys in Hv1.
    apply elem_of_remove_dups, list_elem_of_fmap in Hv1 as (r & Hv1 & Hr).
    unfold MySQL.insert_merged. rewrite Hv1.
    rewrite normalize_fits by (rewrite Forall_forall in Hwfit; by apply Hwfit).
    rewrite bool_decide_eq_true_2; [by eexists |].
    apply elem_of_remove_dups, elem_of_app. left.
    apply elem_of_remove_dups, list_elem_of_fmap. by exists r. }
  rewrite Hins. simpl.
  eexists _, _. split; [reflexivity |]. simpl. split; [reflexivity |].
  apply mapR_Forall2 in Hins.
  pose proof (inserted_codes _ _ _ Hins) as Hcodes. rewrite Hkeys in Hcodes.
  unfold merged_codes in *. rewrite map_map.
  erewrite map_ext; [| intros m; apply update_rent_code].
  apply (map_Some_inj _ _).
  etransitivity; [exact Hcodes |].
  unfold cw. rewrite <- remove_dups_map_Some. by rewrite map_map.
Qed.

(** ** final.py: what cleaning and loading keep *)


Lemma has_column_false df c : c ∉ columns df → has_column df c = false.
Proof. intros Hc. unfold has_column. by rewrite bool_decide_eq_false_2. Qed.

Lemma standardize_missing `{FloatRepr} c df :
  c ∉ columns df → standardize c df = Raise KeyError.
Proof.
  intros Hc. unfold standardize, get_col. by rewrite (has_column_false _ _ Hc).
Qed.

Lemma encode_column_missing src dst df :
  src ∉ columns df → encode_column src dst df = Raise KeyError.
Proof.
  intros Hc. unfold encode_column, get_col.
  by rewrite (has_column_false _ _ Hc).
Qed.

(** X12.  The columns that final.py reads are looked up by label: when
    the water files lack one of their three columns, the geometry file
    its code, or the rent files their code or their rent, the main block
    raises [KeyError], whatever the other tables hold. *)
Theorem missing_column_raises `{FloatRepr} (water_files rent_files : list DataFrame)
  (geojson : DataFrame) (pop_file : option DataFrame) (w0 R : DataFrame) :
  concat water_files = Ok w0 → concat rent_files = Ok R →
  ¬ ("inseecommune" ∈ columns w0 ∧ "plvconformitebacterio" ∈ columns w0
     ∧ "plvconformitechimique" ∈ columns w0 ∧ "codgeo" ∈ columns geojson
     ∧ "INSEE_C" ∈ columns R ∧ "loypredm2" ∈ columns R) →
  Final.main (Final.init water_files geojson rent_files pop_file)
  = Raise KeyError.
Proof.
  intros Hw0 HR Hmiss.
  unfold Final.main, Final.load_water_data. simpl. rewrite Hw0. simpl.
  unfold Final.clean_water_data. simpl. unfold clean_water.
  destruct (decide ("inseecommune" ∈ columns w0)) as [Hk | Hk]; cycle 1.
  { by rewrite (standardize_missing _ _ Hk). }
  rewrite (standardize_eq _ _ Hk). simpl.
  destruct (decide ("plvconformitebacterio" ∈ columns w0)) as [Hb | Hb]; cycle 1.
  { by rewrite (encode_column_missing _ _ (standardized "inseecommune" w0) Hb). }
  rewrite encode_column_eq by done. simpl.
  set (w1 := {| columns := _; rows := _ |}).
  destruct (decide ("plvconformitechimique" ∈ columns w0)) as [Hc | Hc]; cycle 1.
  { assert (Hc1 : "plvconformitechimique" ∉ columns w1).
    { unfold w1. simpl.
      destruct (has_column _ "bacterio_conformity"); [done |].
      intros [Hin | Hin]%elem_of_app; [done |].
      by apply list_elem_of_singleton in Hin. }
    by rewrite (encode_column_missing _ _ _ Hc1). }
  assert (Hc1 : "plvconformitechimique" ∈ columns w1).
  { unfold w1. simpl. destruct (has_column _ "bacterio_conformity"); [done |].
    apply elem_of_app. by left. }
  rewrite encode_column_eq by done. simpl.
  unfold Final.load_geo_data. simpl.
  destruct (decide ("codgeo" ∈ columns geojson)) as [Hg | Hg]; cycle 1.
  { by rewrite (standardize_missing _ _ Hg). }
  rewrite (standardize_eq _ _ Hg). simpl.
  unfold Final.load_rent_data. simpl. rewrite HR. simpl.
  unfold groupby_mean. simpl.
  destruct (decide ("INSEE_C" ∈ columns R)) as [Hi | Hi]; cycle 1.
  { by rewrite (has_column_false _ _ Hi). }
  destruct (decide ("loypredm2" ∈ columns R)) as [Hl | Hl]; cycle 1.
  { rewrite (has_column_false _ _ Hl).
    by rewrite andb_false_r. }
  destruct Hmiss. done.
Qed.

Lemma normalize_idem `{FloatRepr} c : normalize (Str (normalize c)) = normalize c.
Proof. unfold normalize. simpl. apply zfill_idem. Qed.

Lemma map_fixed {A} (f : A → A) (l : list A) :
  (∀ x, x ∈ l → f x = x) → map f l = l.
Proof.
  induction l as [| x l IH]; intros Hf; simpl; [done |].
  rewrite Hf by left. rewrite IH; [done |]. intros y Hy. apply Hf. by right.
Qed.

(** A water table that holds its standardised codes and its encoded
    conformity is left as it is by the cleaning. *)
Lemma clean_water_fixed `{FloatRepr} w :
  "inseecommune" ∈ columns w → "plvconformitebacterio" ∈ columns w →
  "plvconformitechimique" ∈ columns w →
  "bacterio_conformity" ∈ columns w → "chemical_conformity" ∈ columns w →
  (∀ r, r ∈ rows w →
     r !! "inseecommune" = Some (Str (normalize (cell_at r "inseecommune")))
     ∧ r !! "bacterio_conformity"
       = Some (encode (cell_at r "plvconformitebacterio"))
     ∧ r !! "chemical_conformity"
       = Some (encode (cell_at r "plvconformitechimique"))) →
  clean_water w = Ok w.
Proof.
  intros Hk Hb Hc Hbc Hcc Hrows. unfold clean_water.
  rewrite (standardize_eq _ _ Hk). simpl.
  rewrite encode_column_eq by done. simpl.
  rewrite (has_column_true (standardized "inseecommune" w)) by done.
  rewrite encode_column_eq by done. simpl.
  rewrite has_column_true by done.
  destruct w as [cols rws]. simpl in *. do 2 f_equal.
  rewrite !map_map. apply map_fixed. intros r Hr.
  destruct (Hrows r Hr) as (H1 & H2 & H3).
  rewrite (insert_id r "inseecommune") by done.
  rewrite (insert_id r "bacterio_conformity") by done.
  by rewrite insert_id.
Qed.

Lemma clean_water_columns `{FloatRepr} w0 w :
  clean_water w0 = Ok w →
  "plvconformitebacterio" ∈ columns w0 ∧ "plvconformitechimique" ∈ columns w0
  ∧ ∀ c, c ∈ columns w0 → c ∈ columns w.
Proof.
  intros Hw. unfold clean_water in Hw.
  apply bind_Ok in Hw as (w1 & H1 & Hw). apply bind_Ok in Hw as (w2 & H2 & H3).
  apply standardize_inv in H1 as [Hk ->].
  apply encode_column_inv in H2 as [Hb ->].
  apply encode_column_inv in H3 as [Hc ->].
  simpl in *. split_and!; [done | |].
  - destruct (has_column _ "bacterio_conformity"); [done |].
    apply elem_of_app in Hc as [Hc | Hc]; [done |].
    by apply list_elem_of_singleton in Hc.
  - intros c Hin.
    repeat (destruct (has_column _ _)); rewrite ?elem_of_app; auto.
Qed.

Lemma clean_water_idem `{FloatRepr} w0 w :
  clean_water w0 = Ok w → clean_water w = Ok w.
Proof.
  intros Hw.
  destruct (clean_water_columns _ _ Hw) as (Hb & Hc & Hsub).
  destruct (clean_water_inv _ _ Hw) as (Hrows & Hk & Hbc & Hcc).
  apply clean_water_fixed; auto.
  intros r Hr. rewrite Hrows in Hr.
  apply list_elem_of_fmap in Hr as (r0 & -> & _).
  cell_at_insert. rewrite normalize_idem.
  rewrite lookup_insert_ne, lookup_insert_ne, lookup_insert_eq by done.
  rewrite lookup_insert_ne, lookup_insert_eq by done.
  by rewrite lookup_insert_eq.
Qed.

(** X13.  [clean_water_data] can be called again: a second call on the
    object that the first call returned changes nothing. *)
Theorem clean_water_data_idempotent `{FloatRepr} (self self' : Final.DataProcessor) :
  Final.clean_water_data self = Ok self' →
  Final.clean_water_data self' = Ok self'.
Proof.
  unfold Final.clean_water_data. intros Hc.
  apply bind_Ok in Hc as (w0 & _ & Hc). apply bind_Ok in Hc as (w & Hw & Hc).
  injection Hc as <-. simpl. by rewrite (clean_water_idem _ _ Hw).
Qed.

(** X14.  [clean_data] of eau.py can be called again as well: text that
    denotes a number was converted by the first call, and a number
    converts to itself. *)
Theorem eau_clean_data_idempotent `{FloatRepr} (self self' : Eau.WaterQualityProcessor) :
  Eau.clean_data self = Ok self' → Eau.clean_data self' = Ok self'.
Proof.
  intros Hc.
  assert (Hinv : ∃ d0, Eau.data self = Some d0
            ∧ "inseecommune" ∈ columns d0 ∧ "plvconformitebacterio" ∈ columns d0
            ∧ "plvconformitechimique" ∈ columns d0).
  { unfold Eau.clean_data in Hc.
    apply bind_Ok in Hc as (d0 & Hd0 & Hc).
    apply bind_Ok in Hc as (d1 & H1 & Hc).
    apply bind_Ok in Hc as (d2 & H2 & Hc).
    apply bind_Ok in Hc as (d3 & H3 & Hc).
    apply standardize_inv in H1 as [Hk ->].
    apply coerce_column_inv in H2 as [Hb ->].
    apply coerce_column_inv in H3 as [Hc' _].
    exists d0. split_and!; try done.
    destruct (Eau.data self) as [d |]; [| done]. by injection Hd0 as ->. }
  destruct Hinv as (d0 & Hd0 & Hk & Hb & Hcc).
  destruct self as [files d]. simpl in Hd0. subst d.
  rewrite eau_clean_data_eq in Hc by done. injection Hc as <-.
  rewrite eau_clean_data_eq by done. simpl. rewrite map_map.
  do 4 f_equal. apply map_ext. intros r.
  unfold eau_cleaned at 1.
  rewrite eau_cleaned_key, eau_cleaned_bacterio, eau_cleaned_chimique.
  rewrite normalize_idem, !coerce_idem.
  unfold eau_cleaned.
  rewrite (insert_id _ "inseecommune").
  2:{ rewrite !lookup_insert_ne by done. by rewrite lookup_insert_eq. }
  rewrite (insert_id _ "plvconformitebacterio").
  2:{ rewrite lookup_insert_ne by done. by rewrite lookup_insert_eq. }
  rewrite insert_id; [done |]. by rewrite lookup_insert_eq.
Qed.

(** ** Loading: what the concatenation keeps *)

Lemma concat_inv frames out :
  concat frames = Ok out →
  frames ≠ []
  ∧ columns out = first_appearance (mjoin (map columns frames))
  ∧ rows out
    = upcast (columns out)
        (mjoin (map (fun df =>
           map (fun r => project id (columns df) r ∪ nan_row (columns out))
               (rows df)) frames)).
Proof.
  unfold concat. destruct frames as [| df frames]; [done |].
  intros [= <-]. by split_and!.
Qed.

Lemma length_join_rows {A} (f : DataFrame → list A) (frames : list DataFrame) :
  (∀ df, length (f df) = len df) →
  length (mjoin (map f frames)) = sum_list_with len frames.
Proof.
  intros Hf. induction frames as [| df frames IH]; simpl; [done |].
  by rewrite length_app, Hf, IH.
Qed.

Lemma elem_of_first_appearance (l : list string) (c : string) :
  c ∈ first_appearance l ↔ c ∈ l.
Proof.
  unfold first_appearance.
  by rewrite elem_of_reverse, elem_of_remove_dups, elem_of_reverse.
Qed.

(** The cell of a row after the integers of the float columns [floats]
    were converted. *)
Lemma lookup_floats (floats : list string) (r : gmap string cell) (c : string) :
  foldr (fun c r' => <[c := to_float (cell_at r c)]> r') r floats !! c
  = if decide (c ∈ floats) then Some (to_float (cell_at r c)) else r !! c.
Proof.
  induction floats as [| a floats IH].
  - simpl. destruct (decide (c ∈ [])) as [Hin | _]; [| done].
    by apply not_elem_of_nil in Hin.
  - cbn [foldr]. destruct (decide (c = a)) as [-> | Hne].
    + rewrite lookup_insert_eq.
      destruct (decide (a ∈ a :: floats)) as [_ | Hn]; [done |].
      destruct Hn. by left.
    + rewrite lookup_insert_ne by done. rewrite IH.
      destruct (decide (c ∈ floats)) as [Hin | Hnin],
               (decide (c ∈ a :: floats)) as [Hin' | Hnin']; try done.
      * destruct Hnin'. by right.
      * apply elem_of_cons in Hin' as [? | ?]; done.
Qed.

(** X15.  [load_water_data] loses no record: the table it stores has the
    rows of the files one after the other and every label of every
    file once; a row keeps the cells of its file, an integer possibly
    stored as the float of the same value, and is missing at the labels
    that its file does not have. *)
Theorem load_water_data_rows `{FloatRepr} (self self' : Final.DataProcessor) :
  Final.load_water_data self = Ok self' →
  ∃ w,
    Final.water_data self' = Some w
    ∧ len w = sum_list_with len (Final.water_files self)
    ∧ NoDup (columns w)
    ∧ (∀ c, c ∈ columns w ↔ ∃ df, df ∈ Final.water_files self ∧ c ∈ columns df)
    ∧ ∀ df r, df ∈ Final.water_files self → r ∈ rows df →
        ∃ r', r' ∈ rows w
          ∧ ∀ c, c ∈ columns w →
              let x := if decide (c ∈ columns df) then cell_at r c else NaN in
              r' !! c = Some x ∨ r' !! c = Some (to_float x).
Proof.
  unfold Final.load_water_data. intros Hl.
  apply bind_Ok in Hl as (w & Hw & Hl). injection Hl as <-. simpl.
  exists w. split; [done |].
  apply concat_inv in Hw as (_ & Hcols & Hrows). split_and!.
  - unfold len at 1. rewrite Hrows. unfold upcast. rewrite length_map.
    apply length_join_rows. intros df. by rewrite length_map.
  - rewrite Hcols. unfold first_appearance.
    rewrite reverse_Permutation. apply NoDup_remove_dups.
  - intros c. rewrite Hcols, elem_of_first_appearance, list_elem_of_join.
    split.
    + intros (l & Hc & (df & -> & Hdf)%list_elem_of_fmap). by exists df.
    + intros (df & Hdf & Hc). exists (columns df). split; [done |].
      apply list_elem_of_fmap. by exists df.
  - intros df r Hdf Hr.
    set (r0 := project id (columns df) r ∪ nan_row (columns w)).
    assert (Hr0 : ∀ c, c ∈ columns w →
              r0 !! c = Some (if decide (c ∈ columns df) then cell_at r c
                              else NaN)).
    { intros c Hc. unfold r0.
      destruct (decide (c ∈ columns df)) as [Hin | Hnin].
      - apply lookup_union_Some_l. rewrite lookup_project_id.
        by rewrite decide_True.
      - rewrite lookup_union_r.
        + rewrite lookup_nan_row. by rewrite decide_True.
        + rewrite lookup_project_id. by rewrite decide_False. }
    rewrite Hrows. unfold upcast.
    set (floats := filter _ (columns w)).
    exists (foldr (fun c r' => <[c := to_float (cell_at r0 c)]> r') r0 floats).
    split.
    + apply list_elem_of_fmap. exists r0. split; [done |].
      apply list_elem_of_join.
      exists (map (fun r => project id (columns df) r ∪ nan_row (columns w))
                  (rows df)).
      split.
      * apply list_elem_of_fmap. by exists r.
      * apply list_elem_of_fmap. by exists df.
    + intros c Hc. cbv zeta. rewrite lookup_floats.
      set (x := if decide (c ∈ columns df) then cell_at r c else NaN).
      assert (Hx : cell_at r0 c = x) by (unfold cell_at; by rewrite Hr0).
      destruct (decide (c ∈ floats)).
      * right. by rewrite Hx.
      * left. by apply Hr0.
Qed.

(** ** The correlation matrix: bounds *)

Lemma Qsquare_nonneg (x : Q) : (0 <= x * x)%Q.
Proof. unfold Qle, Qmult. simpl. rewrite Z.mul_1_r. apply Z.square_nonneg. Qed.

Lemma Qsum_cons (x : Q) (l : list Q) : Qsum (x :: l) = (x + Qsum l)%Q.
Proof. reflexivity. Qed.

(** The sum of the squares of [a t - b] over pairs [(a, b)] is a
    polynomial of degree two in [t]. *)
Lemma quadratic_sum (t : Q) (qs : list (Q * Q)) :
  (Qsum (map (fun p => (p.1 * t - p.2) * (p.1 * t - p.2)) qs)
   == Qsum (map (fun p => p.1 * p.1) qs) * t * t
      - 2 * Qsum (map (fun p => p.1 * p.2) qs) * t
      + Qsum (map (fun p => p.2 * p.2) qs))%Q.
Proof.
  induction qs as [| p qs IH]; simpl map; [unfold Qsum; simpl; ring |].
  rewrite !Qsum_cons, IH. ring.
Qed.

(** The inequality of Cauchy and Schwarz for sums over a list. *)
Lemma cauchy_schwarz (qs : list (Q * Q)) :
  (Qsum (map (fun p => p.1 * p.2) qs) * Qsum (map (fun p => p.1 * p.2) qs)
   <= Qsum (map (fun p => p.1 * p.1) qs) * Qsum (map (fun p => p.2 * p.2) qs))%Q.
Proof.
  pose proof (fun t => quadratic_sum t qs) as Hq.
  assert (Hnn : ∀ t, (0 <= Qsum (map (fun p => (p.1 * t - p.2) * (p.1 * t - p.2))
                                      qs))%Q).
  { intros t. apply Qsum_nonneg, Forall_fmap, Forall_forall.
    intros p _. apply Qsquare_nonneg. }
  assert (HA : (0 <= Qsum (map (fun p => p.1 * p.1) qs))%Q).
  { apply Qsum_nonneg, Forall_fmap, Forall_forall.
    intros p _. apply Qsquare_nonneg. }
  set (A := Qsum (map (fun p => p.1 * p.1)%Q qs)) in *.
  set (B := Qsum (map (fun p => p.1 * p.2)%Q qs)) in *.
  set (C := Qsum (map (fun p => p.2 * p.2)%Q qs)) in *.
  assert (Hpoly : ∀ t, (0 <= A * t * t - 2 * B * t + C)%Q).
  { intros t. rewrite <- Hq. apply Hnn. }
  clear Hq Hnn.
  destruct (Qeq_dec A 0) as [HA0 | HA0].
  - destruct (Qeq_dec B 0) as [HB0 | HB0].
    + rewrite HB0, HA0. Lqa.lra.
    + exfalso. specialize (Hpoly ((C + 1) / (2 * B))%Q).
      assert (H1 : (2 * B * ((C + 1) / (2 * B)) == C + 1)%Q) by (field; done).
      rewrite HA0, H1 in Hpoly. Lqa.lra.
  - specialize (Hpoly (B / A)%Q).
    assert (H1 : (A * (B / A) * (B / A) == B * (B / A))%Q) by (field; done).
    assert (H2 : (B * (B / A) * A == B * B)%Q) by (field; done).
    rewrite H1 in Hpoly.
    assert (HApos : (0 < A)%Q).
    { apply Qle_lteq in HA as [Hlt | Heq]; [done |]. by destruct HA0. }
    Lqa.nra.
Qed.

(** The three sums of [pearson] are the sums of products of the
    deviations from the means. *)
Lemma codeviation_centred (ps : list (Q * Q)) :
  let qs := map (fun p => (p.1 - Qmean (map fst ps), p.2 - Qmean (map snd ps))%Q)
                ps in
  codeviation ps = Qsum (map (fun p => p.1 * p.2)%Q qs)
  ∧ codeviation (map (fun p => (p.1, p.1)) ps)
    = Qsum (map (fun p => p.1 * p.1)%Q qs)
  ∧ codeviation (map (fun p => (p.2, p.2)) ps)
    = Qsum (map (fun p => p.2 * p.2)%Q qs).
Proof.
  simpl. unfold codeviation. rewrite !map_map. simpl. done.
Qed.

(** Pearson's coefficient lies between -1 and 1. *)
Lemma pearson_bounds (ps : list (Q * Q)) (x : R) :
  pearson ps = Some x → (-1 <= x <= 1)%R.
Proof.
  unfold pearson. destruct (codeviation_centred ps) as (Hc & Hx & Hy).
  simpl in Hc, Hx, Hy. rewrite Hc, Hx, Hy.
  set (qs := map _ ps).
  pose proof (cauchy_schwarz qs) as Hcs.
  set (A := Qsum (map (fun p => p.1 * p.1)%Q qs)) in *.
  set (B := Qsum (map (fun p => p.1 * p.2)%Q qs)) in *.
  set (C := Qsum (map (fun p => p.2 * p.2)%Q qs)) in *.
  destruct ps as [| p ps]; [done |].
  destruct (Qeq_bool (A * C) 0) eqn:Hz; [done |]. intros [= <-].
  apply Qeq_bool_neq in Hz.
  assert (Hpos : (0 < Q2R (A * C))%R).
  { rewrite <- RMicromega.Q2R_0. apply Qlt_Rlt.
    pose proof (Qsquare_nonneg B) as Hb.
    assert (Hle : (0 <= A * C)%Q) by (eapply Qle_trans; eauto).
    apply Qle_lteq in Hle as [Hlt | Heq]; [done |].
    destruct Hz. by symmetry. }
  apply Qle_Rle in Hcs. rewrite Q2R_mult in Hcs.
  set (c := Q2R B) in *. set (v := Q2R (A * C)) in *.
  pose proof (sqrt_lt_R0 v Hpos) as Hs.
  pose proof (sqrt_sqrt v (Rlt_le _ _ Hpos)) as Hss.
  set (s := sqrt v) in *.
  assert (Hcs' : (- s <= c <= s)%R) by nra.
  pose proof (Rinv_0_lt_compat s Hs) as Hinv.
  assert (Hone : (s * / s = 1)%R) by (apply Rinv_r; lra).
  unfold Rdiv. nra.
Qed.

(** X16.  The correlation matrix of [plot_correlation_heatmap] has one
    row and one column per analysed label, three without population
    and four with it, and every coefficient that is defined lies
    between -1 and 1. *)
Theorem correlation_matrix_bounds (self : Final.DataProcessor)
  (m : list (list (option R))) :
  Final.plot_correlation_heatmap self = Ok m →
  ∃ g,
    Final.geo_data self = Some g
    ∧ length m = length (Final.correlation_columns self g)
    ∧ Forall (fun row => length row = length m) m
    ∧ (length m = 3 ∨ length m = 4)
    ∧ ∀ i j x, entry m i j = Some (Some x) → (-1 <= x <= 1)%R.
Proof.
  unfold Final.plot_correlation_heatmap, Final.analysis_data. intros Hm.
  apply bind_Ok in Hm as (d & Hd & Hm).
  apply bind_Ok in Hd as (g & Hg & Hd).
  apply bind_Ok in Hd as (sel & Hsel & Hd). injection Hd as <-.
  exists g. split.
  { destruct (Final.pop_data self), (Final.geo_data self) as [g' |];
      simpl in Hg; congruence. }
  apply select_inv in Hsel as [_ ->].
  set (cols := Final.correlation_columns self g) in *.
  assert (Hlen : length m = length cols).
  { unfold corr in Hm. by apply mapR_length in Hm. }
  split_and!; [done | | |].
  - unfold corr in Hm. apply mapR_Forall2 in Hm.
    apply Forall_forall. intros row Hrow.
    apply list_elem_of_lookup in Hrow as [i Hi].
    destruct (Forall2_lookup_r _ _ _ _ _ Hm Hi) as (a & _ & Ha).
    apply mapR_length in Ha. by rewrite Ha, Hlen.
  - rewrite Hlen. unfold cols, Final.correlation_columns.
    rewrite length_app. simpl.
    destruct (Final.pop_data self); [destruct (has_column g "p21_pop") |];
      simpl; auto.
  - intros i j x Hx. rewrite (corr_entry_lookup _ _ _ _ Hm) in Hx.
    destruct (columns _ !! i) as [a |]; [| done].
    destruct (columns _ !! j) as [b |]; [| done].
    destruct (corr_entry _ a b) as [o | e] eqn:Hce; [| done].
    injection Hx as ->. unfold corr_entry in Hce.
    apply bind_Ok in Hce as (ps & _ & Hp). injection Hp as Hp.
    by apply pearson_bounds in Hp.
Qed.

(** ** The correlation matrix: columns without variance *)

(** Pearson's coefficient is undefined when the first column has no
    variance. *)
Lemma pearson_no_variance (ps : list (Q * Q)) :
  (codeviation (map (fun p => (p.1, p.1)) ps) == 0)%Q → pearson ps = None.
Proof.
  intros Hv. unfold pearson. destruct ps as [| p ps]; [done |].
  rewrite (proj2 (Qeq_bool_iff _ _)); [done |]. rewrite Hv. ring.
Qed.

(** The correlation of the complete rows of [cols]: a column that is
    constant over these rows has an undefined coefficient with every
    column. *)
Lemma corr_constant_column (df sel : DataFrame) (cols : list string)
  (m : list (list (option R))) i j c v :
  select cols df = Ok sel → corr (dropna sel) = Ok m →
  cols !! i = Some c → j < length cols →
  deviation_sum (dropna sel) c = Ok v → (v == 0)%Q →
  entry m i j = Some None ∧ entry m j i = Some None.
Proof.
  intros Hsel Hm Hi Hj Hv Hz.
  destruct (corr_dropna_spec df sel cols m Hsel Hm) as (_ & Hc & Hsym & _).
  destruct (corr_dropna_entries df sel cols m Hsel Hm) as [_ Hent].
  destruct (lookup_lt_is_Some_2 cols j Hj) as [b Hb].
  assert (Hij : entry m i j = Some None).
  { rewrite (Hent i j c b Hi Hb). f_equal. apply pearson_no_variance.
    unfold deviation_sum in Hv. apply bind_Ok in Hv as (qs & Hqs & Hv).
    injection Hv as <-.
    apply observations_complete in Hqs; cycle 1.
    { intros r Hr. assert (c ∈ cols) by (by eapply list_elem_of_lookup_2).
      split; by apply Hc. }
    rewrite Hqs in Hz. unfold pairs in *. by rewrite map_map. }
  split; [done |]. by rewrite <- (Hsym i j).
Qed.

(** X17.  A label whose values are all equal over the complete rows has
    no variance: every coefficient of its row and of its column in the
    matrix of [plot_correlation_heatmap] is undefined (a [nan] in the
    figure). *)
Theorem constant_column_has_no_correlation (self : Final.DataProcessor)
  (d : DataFrame) (m : list (list (option R))) (i j : nat) (c : string) (v : Q) :
  Final.analysis_data self = Ok d →
  Final.plot_correlation_heatmap self = Ok m →
  columns d !! i = Some c → j < length (columns d) →
  deviation_sum d c = Ok v → (v == 0)%Q →
  entry m i j = Some None ∧ entry m j i = Some None.
Proof.
  intros Hd Hm Hi Hj Hv Hz.
  rewrite (plot_correlation_heatmap_corr _ _ Hd) in Hm.
  unfold Final.analysis_data in Hd.
  apply bind_Ok in Hd as (g & _ & Hd).
  apply bind_Ok in Hd as (sel & Hsel & Hd). injection Hd as <-.
  assert (Hcols : columns (dropna sel) = Final.correlation_columns self g).
  { by apply select_inv in Hsel as [_ ->]. }
  rewrite Hcols in Hi, Hj.
  by eapply corr_constant_column.
Qed.

(** C6 as stated fails.  On three communes, final.py returns a row for
    each: 00001 with the rates 1/3 and 2/3 and the rent 10; 00002, which
    has a rent and no water record, with its rent; 00750 with its rates
    and no rent, its rent being written with the code [750], which
    final.py does not standardise.  [merged_data] has no row for 00002,
    whose rent is lost; it stores the rates of 00001 as 0.333 and
    0.667; and it gives 00750 the rent 9, the rent key being
    standardised there. *)
Lemma sql_merge_drops_communes :
  (self ← @Final.main repr_integral
            (Final.init [four_waters] three_communes [four_rents] None);
   indicators self)
  = Ok [[Str "00001"; Num (1 # 3); Num (2 # 3); Num 10];
        [Str "00002"; NaN; NaN; Num 12];
        [Str "00750"; Num 1; Num 1; NaN]]
  ∧ (db ← @sql_main repr_integral round_half_away
            ["00001"; "00750"; "00002"; "2A004"] [four_rents] [four_waters];
     Ok (MySQL.merged_data db))
    = Ok (Some [MySQL.mk_row "00001" (Some (333 # 1000)%Q) (Some (667 # 1000)%Q)
                             (Some 10%Q);
                MySQL.mk_row "00750" (Some 1%Q) (Some 1%Q) (Some 9%Q)])
  ∧ ¬ (∀ db merged,
         @sql_main repr_integral round_half_away
           ["00001"; "00750"; "00002"; "2A004"] [four_rents] [four_waters]
         = Ok db →
         MySQL.merged_data db = Some merged →
         "00002" ∈ merged_codes merged).
Proof.
  split_and!; [vm_compute; reflexivity | vm_compute; reflexivity |].
  intros Hall.
  specialize (Hall (database_of (@sql_main repr_integral round_half_away
                                   ["00001"; "00750"; "00002"; "2A004"]
                                   [four_rents] [four_waters]))
                [MySQL.mk_row "00001" (Some (333 # 1000)%Q) (Some (667 # 1000)%Q)
                              (Some 10%Q);
                 MySQL.mk_row "00750" (Some 1%Q) (Some 1%Q) (Some 9%Q)]).
  assert (Hin : "00002" ∈ ["00001"; "00750"]).
  { apply Hall; vm_compute; reflexivity. }
  revert Hin. by apply (bool_decide_unpack _).
Qed.

(** * Instances of the theorems on concrete tables *)

(** Checks by computation *)

Lemma no_strings_check (vals : list string) (rws : list (gmap string cell)) :
  forallb (fun r => forallb (fun v => negb (is_str (cell_at r v))) vals) rws
  = true →
  Forall (fun r => Forall (fun v => is_str (cell_at r v) = false) vals) rws.
Proof.
  rewrite forallb_forall. intros Hf. apply Forall_forall.
  intros r Hr%list_elem_of_In. apply Hf in Hr. rewrite forallb_forall in Hr.
  apply Forall_forall. intros v Hv%list_elem_of_In.
  by apply Hr, negb_true_iff in Hv.
Qed.

Lemma all_missing_check (c : string) (rws : list (gmap string cell)) :
  forallb (fun x => is_nan (cell_at x c)) rws = true →
  Forall (fun x => cell_at x c = NaN) rws.
Proof.
  rewrite forallb_forall. intros Hf. apply Forall_forall.
  intros x Hx%list_elem_of_In. apply Hf in Hx. by destruct (cell_at x c).
Qed.

Lemma nonempty_check {A} (l : list A) : (0 <? length l) = true → l ≠ [].
Proof. by destruct l. Qed.

Lemma labels_check (vals cols : list string) :
  forallb (fun v => bool_decide (v ∈ cols)) vals = true →
  Forall (fun v => v ∈ cols) vals.
Proof.
  rewrite forallb_forall. intros Hf. apply Forall_forall.
  intros v Hv%list_elem_of_In. by apply Hf, bool_decide_eq_true in Hv.
Qed.

Lemma aggregate_mean_of_present_witness :
  ∃ out, groupby_mean "INSEE_C" ["loypredm2"] missing_rent = Ok out
         ∧ cells out = [[Str "00001"; NaN]; [Str "00002"; Num (21 # 2)];
                        [Str "00003"; Num 7]].
Proof.
  destruct (aggregate_mean_of_present "INSEE_C" ["loypredm2"] missing_rent)
    as (out & Hout & _).
  - apply (bool_decide_eq_true_1 _). vm_compute. reflexivity.
  - apply labels_check. vm_compute. reflexivity.
  - apply (bool_decide_eq_false_1 _). vm_compute. reflexivity.
  - apply no_strings_check. vm_compute. reflexivity.
  - exists out. split; [exact Hout |].
    assert (Hc : groupby_mean "INSEE_C" ["loypredm2"] missing_rent
                 = Ok (frame_of (groupby_mean "INSEE_C" ["loypredm2"]
                                   missing_rent)))
      by (vm_compute; reflexivity).
    rewrite Hc in Hout. injection Hout as <-. vm_compute. reflexivity.
Defined.



Lemma geometry_join_rows_witness :
  ∃ merged, Final.geo_data (final_state scenario_text
                              (@Final.main repr_integral scenario_text))
            = Some merged
            ∧ len merged = 3.
Proof.
  destruct (@geometry_join_rows repr_integral [scenario_water]
              [scenario_rent_text] scenario_geo
              (final_state scenario_text
                 (@Final.main repr_integral scenario_text)))
    as (merged & w & R & Hgeo & _ & _ & Hlen & _).
  - vm_compute. reflexivity.
  - exists merged. split; [exact Hgeo | exact Hlen].
Defined.

Lemma conformity_rate_never_missing_witness :
  ∃ merged, Final.geo_data
              (final_state scenario
                 (@Final.main repr_integral
                    (Final.init [missing_water] scenario_geo
                                [scenario_rent_text] None)))
            = Some merged
            ∧ ∃ r', rows merged !! 1 = Some r'
                    ∧ r' !! "bacterio_conformity" = Some (Num 0).
Proof.
  destruct (@conformity_rate_never_missing repr_integral [missing_water]
              [scenario_rent_text] scenario_geo
              (final_state scenario
                 (@Final.main repr_integral
                    (Final.init [missing_water] scenario_geo
                                [scenario_rent_text] None))))
    as (w0 & merged & Hw0 & Hgeo & Hrows).
  - vm_compute. reflexivity.
  - by apply disjoint_labels_check.
  - exists merged. split; [exact Hgeo |].
    assert (Hl : rows scenario_geo !! 1
                 = Some (list_to_map [("codgeo", Str "00002");
                                      ("geometry", Str "POLYGON 2")]))
      by reflexivity.
    destruct (Forall2_lookup_l _ _ _ _ _ Hrows Hl) as (r' & Hr' & Hrate).
    exists r'. split; [exact Hr' |].
    injection Hw0 as <-.
    destruct Hrate as (qb & qc & Hb & _ & _ & _ & Hzero & _).
    + apply nonempty_check. vm_compute. reflexivity.
    + rewrite Hb. do 2 f_equal. apply Hzero.
      apply all_missing_check. vm_compute. reflexivity.
Defined.

Lemma correlation_complete_case_witness :
  let m := matrix_of (Final.plot_correlation_heatmap correlated) in
  len (frame_of (Final.analysis_data correlated)) = 4
  ∧ entry m 0 0 = Some (Some 1%R)
  ∧ entry m 0 2 = entry m 2 0
  ∧ entry m 0 1
    = Some (pearson [(1, 1); (0, 1); (1 # 2, 0); (0, 1 # 2)]%Q).
Proof.
  intros m.
  set (g := frame ["codgeo"; "bacterio_conformity"; "chemical_conformity";
                   "mean_loypredm2"]
              [[Str "00001"; Num 1; Num 1; Num 10];
               [Str "00002"; Num 0; Num 1; Num 12];
               [Str "00003"; Num 1; Num 0; NaN];
               [Str "00004"; Num (1 # 2); Num 0; Num 9];
               [Str "00005"; Num 0; Num (1 # 2); Num 14]]).
  destruct (correlation_complete_case correlated g
              (frame_of (Final.analysis_data correlated)) m)
    as (_ & _ & _ & Hsym & Hdiag & _ & _ & Hent).
  - reflexivity.
  - vm_compute. reflexivity.
  - assert (Hd : Final.analysis_data correlated
                 = Ok (frame_of (Final.analysis_data correlated)))
      by (vm_compute; reflexivity).
    destruct (corr_total (frame_of (Final.analysis_data correlated)))
      as [x Hx].
    { apply no_strings_check. vm_compute. reflexivity. }
    unfold m. rewrite (plot_correlation_heatmap_corr _ _ Hd), Hx.
    reflexivity.
  - split_and!.
    + vm_compute. reflexivity.
    + eapply (Hdiag 0 "bacterio_conformity").
      * reflexivity.
      * vm_compute. reflexivity.
      * vm_compute. discriminate.
    + apply Hsym.
    + rewrite (Hent 0 1 "bacterio_conformity" "chemical_conformity")
        by reflexivity.
      apply f_equal, f_equal. vm_compute. reflexivity.
Defined.

Lemma sql_merge_agrees_witness :
  ∃ merged, MySQL.merged_data
              (database_of (@sql_main repr_integral round_half_away
                              ["00001"; "00002"] [two_rents] [one_water]))
            = Some merged
            ∧ merged_codes merged = ["00001"].
Proof.
  set (db := database_of (@MySQL.populate_commune_stub empty_database
                            ["00001"; "00002"])).
  set (db1 := database_of (@MySQL.load_rent_data repr_integral db [two_rents])).
  set (db2 := database_of (@MySQL.load_water_data repr_integral db1 [one_water])).
  set (db3 := database_of (@MySQL.preprocess_and_merge_data round_half_away db2)).
  set (R0 := frame_of (concat [two_rents])).
  set (R := frame_of (@standardize repr_integral "INSEE_C" R0)).
  destruct (@sql_merge_agrees repr_integral round_half_away db db1 db2 db3
              [one_water] [two_rents] two_communes R0 R
              (match @EauMerge.main repr_integral
                       (EauMerge.init [one_water] two_communes R) with
               | Ok s => s
               | Raise _ => EauMerge.init [one_water] two_communes R
               end))
    as (w0 & merged & g' & _ & Hmerged & _ & Hnd & Hcodes & _).
  - vm_compute. reflexivity.
  - vm_compute. reflexivity.
  - vm_compute. reflexivity.
  - vm_compute. reflexivity.
  - vm_compute. reflexivity.
  - vm_compute. reflexivity.
  - by apply disjoint_labels_check.
  - exists merged. split.
    + rewrite <- Hmerged. vm_compute. reflexivity.
    + assert (Hm : MySQL.merged_data db3
                   = Some [MySQL.mk_row "00001" (Some 1%Q) (Some 1%Q)
                                        (Some 10%Q)])
        by (vm_compute; reflexivity).
      rewrite Hm in Hmerged. by injection Hmerged as <-.
Defined.

(** ** The further statements on examples *)

Lemma am_rent_of_commune_witness :
  let self := Am.init scenario_geo [scenario_rent] in
  ∃ merged,
    Am.merged_data (returned self (@Am.preprocess_data repr_integral self))
    = Some merged
    ∧ len merged = 3.
Proof.
  intros self.
  destruct (@am_rent_of_commune repr_integral scenario_geo [scenario_rent]
              (returned self (@Am.preprocess_data repr_integral self)))
    as (R0 & merged & _ & Hm & Hlen & _).
  - vm_compute. reflexivity.
  - exists merged. split; [exact Hm | exact Hlen].
Defined.

Lemma eau_rates_of_numeric_codes_witness :
  ∃ agg : DataFrame,
    columns agg = ["inseecommune"; "bacterio_conformity"; "chemical_conformity"]
    ∧ ∃ row, row ∈ rows agg ∧ row !! "inseecommune" = Some (Str "00002").
Proof.
  destruct (@eau_rates_of_numeric_codes repr_integral [scenario_water]
              (frame_of (concat [scenario_water])))
    as (agg & _ & Hcols & _ & Hall & _).
  - vm_compute. reflexivity.
  - decide_labels.
  - decide_labels.
  - decide_labels.
  - exists agg. split; [exact Hcols |].
    destruct (Hall (list_to_map [("inseecommune", Int 2);
                                 ("plvconformitebacterio", Str "N");
                                 ("plvconformitechimique", Str "N")]))
      as (row & Hrow & Hkey).
    + apply list_elem_of_lookup. exists 1. vm_compute. reflexivity.
    + exists row. split; [exact Hrow |]. rewrite Hkey. vm_compute. reflexivity.
Defined.

Lemma eau_merge_rows_witness :
  len (frame_of (@eau_main repr_integral [scenario_water] scenario_geo)) = 3.
Proof.
  destruct (@eau_merge_rows repr_integral [scenario_water] scenario_geo
              (frame_of (@eau_main repr_integral [scenario_water] scenario_geo)))
    as (d0 & _ & Hlen & _).
  - vm_compute. reflexivity.
  - exact Hlen.
Defined.

Lemma eau_numeric_geometry_codes_witness :
  @eau_main repr_integral [scenario_water] numeric_geo = Raise ValueError.
Proof.
  apply (@eau_numeric_geometry_codes repr_integral [scenario_water]
           (frame_of (concat [scenario_water])) numeric_geo).
  - vm_compute. reflexivity.
  - decide_labels.
  - decide_labels.
  - decide_labels.
  - intros Hr. apply (f_equal length) in Hr. vm_compute in Hr. discriminate Hr.
  - decide_labels.
  - intros Hr. apply (f_equal length) in Hr. vm_compute in Hr. discriminate Hr.
  - apply (bool_decide_unpack _). by vm_compute.
Defined.

Lemma population_join_rows_witness :
  let self := Final.init [scenario_water] scenario_geo [scenario_rent_text]
                         (Some scenario_population) in
  ∃ merged,
    Final.geo_data (final_state self (@Final.main repr_integral self))
    = Some merged
    ∧ len merged = 3.
Proof.
  intros self.
  destruct (@population_join_rows repr_integral [scenario_water]
              [scenario_rent_text] scenario_geo scenario_population
              (final_state self (@Final.main repr_integral self)))
    as (merged & Hm & Hlen & _).
  - vm_compute. reflexivity.
  - exists merged. split; [exact Hm |]. rewrite Hlen. vm_compute. reflexivity.
Defined.

Lemma registry_refuses_second_run_witness :
  MySQL.populate_commune_stub
    (MySQL.create_schema
       (database_of (MySQL.populate_commune_stub empty_database
                       ["00001"; "2A004"])))
    ["00001"; "2A004"]
  = Raise DatabaseError.
Proof.
  apply (registry_refuses_second_run (MySQL.mk None None None None)).
  - vm_compute. reflexivity.
  - discriminate.
Defined.


Lemma sql_script_registers_codes_witness :
  ∃ db merged,
    @sql_script repr_integral round_half_away [four_rents] [four_waters] = Ok db
    ∧ MySQL.merged_data db = Some merged
    ∧ merged_codes merged = ["00001"; "00750"].
Proof.
  destruct (@sql_script_registers_codes repr_integral round_half_away
              [four_rents] [four_waters]
              (frame_of (concat [four_waters])) (frame_of (concat [four_rents])))
    as (db & merged & Hdb & Hm & Hcodes).
  - vm_compute. reflexivity.
  - vm_compute. reflexivity.
  - decide_labels.
  - decide_labels.
  - decide_labels.
  - decide_labels.
  - decide_labels.
  - apply (bool_decide_unpack _). by vm_compute.
  - apply (bool_decide_unpack _). by vm_compute.
  - apply (bool_decide_unpack _). by vm_compute.
  - exists db, merged. split_and!; [exact Hdb | exact Hm |].
    rewrite Hcodes. vm_compute. reflexivity.
Defined.


Lemma correlation_matrix_bounds_witness :
  let m := matrix_of (Final.plot_correlation_heatmap correlated) in
  length m = 3 ∧ ∀ i j x, entry m i j = Some (Some x) → (-1 <= x <= 1)%R.
Proof.
  intros m.
  destruct (correlation_matrix_bounds correlated m)
    as (g & Hg & Hlen & _ & _ & Hb).
  - assert (Hd : Final.analysis_data correlated
                 = Ok (frame_of (Final.analysis_data correlated)))
      by (vm_compute; reflexivity).
    destruct (corr_total (frame_of (Final.analysis_data correlated)))
      as [x Hx].
    { apply no_strings_check. vm_compute. reflexivity. }
    unfold m. rewrite (plot_correlation_heatmap_corr _ _ Hd), Hx.
    reflexivity.
  - split; [| exact Hb]. rewrite Hlen. reflexivity.
Defined.

Lemma constant_column_has_no_correlation_witness :
  let m := matrix_of (Final.plot_correlation_heatmap constant_rent) in
  entry m 2 0 = Some None ∧ entry m 0 2 = Some None.
Proof.
  intros m.
  set (d := frame_of (Final.analysis_data constant_rent)).
  assert (Hd : Final.analysis_data constant_rent = Ok d)
    by (vm_compute; reflexivity).
  apply (constant_column_has_no_correlation constant_rent d m 2 0
           "mean_loypredm2"
           (returned 0%Q (deviation_sum d "mean_loypredm2"))).
  - exact Hd.
  - destruct (corr_total d) as [x Hx].
    { apply no_strings_check. vm_compute. reflexivity. }
    unfold m. rewrite (plot_correlation_heatmap_corr _ _ Hd), Hx.
    reflexivity.
  - reflexivity.
  - vm_compute. lia.
  - vm_compute. reflexivity.
  - vm_compute. reflexivity.
Defined.

Lemma missing_column_raises_witness :
  @Final.main repr_integral
    (Final.init [codes_only] scenario_geo [scenario_rent_text] None)
  = Raise KeyError.
Proof.
  apply (@missing_column_raises repr_integral [codes_only] [scenario_rent_text]
           scenario_geo None (frame_of (concat [codes_only]))
           (frame_of (concat [scenario_rent_text]))).
  - vm_compute. reflexivity.
  - vm_compute. reflexivity.
  - decide_labels.
Defined.

Lemma clean_water_data_idempotent_witness :
  let self := final_state scenario
                (self ← Final.load_water_data scenario;
                 @Final.clean_water_data repr_integral self) in
  @Final.clean_water_data repr_integral self = Ok self.
Proof.
  intros self.
  apply (@clean_water_data_idempotent repr_integral
           (final_state scenario (Final.load_water_data scenario))).
  vm_compute. reflexivity.
Defined.

Lemma eau_clean_data_idempotent_witness :
  let self := returned (Eau.init [scenario_water])
                (self ← Eau.load_files (Eau.init [scenario_water]);
                 @Eau.clean_data repr_integral self) in
  @Eau.clean_data repr_integral self = Ok self.
Proof.
  intros self.
  apply (@eau_clean_data_idempotent repr_integral
           (returned (Eau.init [scenario_water])
                     (Eau.load_files (Eau.init [scenario_water])))).
  vm_compute. reflexivity.
Defined.

Lemma load_water_data_rows_witness :
  let self := Final.init [scenario_water; missing_water] scenario_geo
                         [scenario_rent_text] None in
  ∃ w, Final.water_data (final_state self (Final.load_water_data self)) = Some w
       ∧ len w = 6.
Proof.
  intros self.
  destruct (@load_water_data_rows repr_integral self
              (final_state self (Final.load_water_data self)))
    as (w & Hw & Hlen & _).
  - vm_compute. reflexivity.
  - exists w. split; [exact Hw | exact Hlen].
Defined.
